(** * resonate: the sqlite store and the ReadPromise / RejectPromise coroutines

    A shallow embedding of
      - internal/app/subsystems/aio/store/sqlite/sqlite.go (the SQL statements,
        [performCommands], [Execute] and the per-command methods), and
      - the coroutines [ReadPromise] and [RejectPromise],
    followed by the properties of the store and of the promise state machine.

    The database is a record of four tables, each a list of rows in rowid
    order.  The model tracks the committed contents: the writes of a
    transaction reach it only through a successful Commit.  Go integers are
    [Z]; no arithmetic that could wrap is performed on them except row
    counters.  Go's nil-able values (pointers, maps, slices) are [option]. *)

From Stdlib Require Import ZArith List String Ascii Bool Lia Permutation Sorted.
Import ListNotations.
Open Scope Z_scope.

(** ** Go runtime: errors and panics *)

Definition Error := string.
Definition bytes := list Byte.byte.

(** What a Go call [(x, err)] can do: return a value, return an error, or
    panic ([util.Assert] failing, a nil dereference). *)
Inductive outcome (A : Type) : Type :=
| Ok (a : A)
| Err (e : Error)
| Panic (msg : string).
Arguments Ok {A} a.
Arguments Err {A} e.
Arguments Panic {A} msg.

Definition bind {A B} (m : outcome A) (f : A -> outcome B) : outcome B :=
  match m with
  | Ok a => f a
  | Err e => Err e
  | Panic s => Panic s
  end.

Notation "x <- m ;; k" := (bind m (fun x => k))
  (at level 61, m at next level, right associativity).
Notation "' pat <- m ;; k" := (bind m (fun x => match x with pat => k end))
  (at level 61, pat pattern, m at next level, right associativity).

(** [util.Assert(cond, msg)] *)
Definition Assert (cond : bool) (msg : string) : outcome unit :=
  if cond then Ok tt else Panic msg.

(** A driver call that fails when the driver says so. *)
Definition driver (fault : option Error) : outcome unit :=
  match fault with
  | Some e => Err e
  | None => Ok tt
  end.

(** ** pkg/promise *)

Module promise.

(** Modelled from the spec: the declaration of [State] and of its constants
    is not among the files embedded here; the spec gives the stored integers
    (Pending=1, Resolved=2, Rejected=4, Timedout=8, Canceled=16), and the
    statements of sqlite.go agree on Pending (state = 1) and Timedout
    (state = 8). *)
Definition State := Z.
Definition Pending : State := 1.
Definition Resolved : State := 2.
Definition Rejected : State := 4.
Definition Timedout : State := 8.
Definition Canceled : State := 16.

(** Modelled from the spec: [State.In(mask)] is not among the
    files embedded here; the spec makes [mask & state] the membership
    predicate. *)
Definition In (s mask : State) : bool := negb (Z.land s mask =? 0).

Definition IdempotencyKey := string.

End promise.

(** map[string]string; nil is [None] at the places where Go distinguishes. *)
Definition StringMap := list (string * string).

(** Modelled from the spec: the types of pkg/promise, pkg/timeout,
    pkg/subscription and pkg/notification are declared outside the files
    embedded here.  The records below have the fields of the data model of
    the spec
    (promise, timeout, subscription and notification record), under the names
    by which sqlite.go scans them and the coroutines build them. *)
Module Value.
Record t := mk {
  Headers : option StringMap;
  Data : option bytes
}.
End Value.

Module Promise.
Record t := mk {
  Id : string;
  State : promise.State;
  Param : Value.t;
  Value : Value.t;
  Timeout : Z;
  IdempotencyKeyForCreate : option promise.IdempotencyKey;
  IdempotencyKeyForComplete : option promise.IdempotencyKey;
  Tags : option StringMap;
  CreatedOn : option Z;
  CompletedOn : option Z
}.
End Promise.

(** Modelled from the spec: PromiseRecord, a row of the table promises as
    [rows.Scan] fills it; the nullable columns are [option]. *)
Module PromiseRecord.
Record t := mk {
  Id : string;
  State : promise.State;
  ParamHeaders : option bytes;
  ParamData : option bytes;
  ValueHeaders : option bytes;
  ValueData : option bytes;
  Timeout : Z;
  IdempotencyKeyForCreate : option promise.IdempotencyKey;
  IdempotencyKeyForComplete : option promise.IdempotencyKey;
  Tags : option bytes;
  CreatedOn : option Z;
  CompletedOn : option Z;
  SortId : Z
}.

Definition with_SortId (r : t) (s : Z) : t :=
  mk (Id r) (State r) (ParamHeaders r) (ParamData r) (ValueHeaders r)
     (ValueData r) (Timeout r) (IdempotencyKeyForCreate r)
     (IdempotencyKeyForComplete r) (Tags r) (CreatedOn r) (CompletedOn r) s.
End PromiseRecord.

(** Modelled from the spec: TimeoutRecord, a row of the table timeouts. *)
Module TimeoutRecord.
Record t := mk {
  Id : string;
  Time : Z
}.
End TimeoutRecord.

(** Modelled from the spec: SubscriptionRecord, a row of the table
    subscriptions. *)
Module SubscriptionRecord.
Record t := mk {
  Id : string;
  PromiseId : string;
  Url : string;
  RetryPolicy : option bytes;
  CreatedOn : Z;
  SortId : Z
}.

Definition with_SortId (r : t) (s : Z) : t :=
  mk (Id r) (PromiseId r) (Url r) (RetryPolicy r) (CreatedOn r) s.
End SubscriptionRecord.

(** Modelled from the spec: NotificationRecord, a row of the table
    notifications. *)
Module NotificationRecord.
Record t := mk {
  Id : string;
  PromiseId : string;
  Url : string;
  RetryPolicy : option bytes;
  Time : Z;
  Attempt : Z
}.
End NotificationRecord.

(** ** The database *)

(** [promises_seq] and [subscriptions_seq] are the AUTOINCREMENT counters of
    the two sort_id columns. *)
Record DB := mkDB {
  promises : list PromiseRecord.t;
  promises_seq : Z;
  timeouts : list TimeoutRecord.t;
  subscriptions : list SubscriptionRecord.t;
  subscriptions_seq : Z;
  notifications : list NotificationRecord.t
}.

Definition empty_db : DB := mkDB [] 0 [] [] 0 [].

Definition set_promises (db : DB) (ps : list PromiseRecord.t) : DB :=
  mkDB ps (promises_seq db) (timeouts db) (subscriptions db)
       (subscriptions_seq db) (notifications db).

Definition set_timeouts (db : DB) (ts : list TimeoutRecord.t) : DB :=
  mkDB (promises db) (promises_seq db) ts (subscriptions db)
       (subscriptions_seq db) (notifications db).

Definition set_subscriptions (db : DB) (ss : list SubscriptionRecord.t) : DB :=
  mkDB (promises db) (promises_seq db) (timeouts db) ss
       (subscriptions_seq db) (notifications db).

Definition set_notifications (db : DB) (ns : list NotificationRecord.t) : DB :=
  mkDB (promises db) (promises_seq db) (timeouts db) (subscriptions db)
       (subscriptions_seq db) ns.

(** The constraints of CREATE_TABLE_STATEMENT that the properties below rely
    on: promises.id UNIQUE, promises.sort_id PRIMARY KEY,
    subscriptions UNIQUE(id, promise_id), notifications
    PRIMARY KEY(id, promise_id). *)
Definition sub_key (s : SubscriptionRecord.t) : string * string :=
  (SubscriptionRecord.Id s, SubscriptionRecord.PromiseId s).

Definition notif_key (n : NotificationRecord.t) : string * string :=
  (NotificationRecord.Id n, NotificationRecord.PromiseId n).

Record wf (db : DB) : Prop := mk_wf {
  wf_promise_id : NoDup (map PromiseRecord.Id (promises db));
  wf_promise_sort_id : NoDup (map PromiseRecord.SortId (promises db));
  wf_subscription_key : NoDup (map sub_key (subscriptions db));
  wf_notification_key : NoDup (map notif_key (notifications db))
}.


(** ** What the store takes from its environment *)

(** Modelled from the spec: the retry policy of a subscription; the store
    only marshals it. *)
Module RetryPolicy.
Record t := mk {
  Delay : Z;
  Attempts : Z
}.
End RetryPolicy.

(** The SQL operator LIKE belongs to the database engine, [json.Marshal] to
    the Go library, and [PromiseRecord.Promise()] and [IdempotencyKey.Match]
    to pkg/promise, which is not among the files embedded here: the
    development is parametric in them. *)
Class Env := {
  (** [LIKE x pat] is the SQL condition  x LIKE pat *)
  LIKE : string -> string -> bool;
  json_Marshal : StringMap -> outcome bytes;
  json_Marshal_RetryPolicy : RetryPolicy.t -> outcome bytes;
  (** [record.Promise()] *)
  PromiseRecord_Promise : PromiseRecord.t -> outcome Promise.t;
  (** [stored.Match(requested)] *)
  Match : option promise.IdempotencyKey -> option promise.IdempotencyKey -> bool
}.

(** ** The SQL engine: the clauses the statements use *)

(** ORDER BY: insertion of each row into the sorted rows, [leb a b] saying
    that [a] may come before [b]. *)
Fixpoint insert_by {A} (leb : A -> A -> bool) (x : A) (l : list A) : list A :=
  match l with
  | [] => [x]
  | y :: l' => if leb x y then x :: l else y :: insert_by leb x l'
  end.

Definition ORDER_BY {A} (leb : A -> A -> bool) (rows : list A) : list A :=
  fold_right (insert_by leb) [] rows.

(** LIMIT n: the first n rows; SQLite puts no bound when n is negative. *)
Definition LIMIT {A} (n : Z) (rows : list A) : list A :=
  if n <? 0 then rows else firstn (Z.to_nat n) rows.

(** UPDATE ... SET ... WHERE: the new rows and the number of rows changed. *)
Definition UPDATE {A} (where_ : A -> bool) (set : A -> A) (rows : list A)
  : list A * Z :=
  (map (fun r => if where_ r then set r else r) rows,
   Z.of_nat (List.length (filter where_ rows))).

(** DELETE FROM ... WHERE *)
Definition DELETE {A} (where_ : A -> bool) (rows : list A) : list A * Z :=
  (filter (fun r => negb (where_ r)) rows,
   Z.of_nat (List.length (filter where_ rows))).

(** INSERT ... ON CONFLICT DO NOTHING of one row: [conflict] tells whether an
    existing row has the key of the new one. *)
Definition INSERT_OR_NOTHING {A} (conflict : A -> bool) (row : A)
  (rows : list A) : list A * Z :=
  if existsb conflict rows then (rows, 0) else (rows ++ [row], 1).

(** The largest rowid of SQLite: rowids are signed 64-bit integers. *)
Definition MAX_ROWID : Z := 9223372036854775807.

(** The error of the engine when no rowid is left (SQLITE_FULL). *)
Definition SQLITE_FULL : Error := "database or disk is full"%string.

(** The largest rowid of a table, if it has a row. *)
Definition largest_rowid (rowids : list Z) : option Z :=
  match rowids with
  | [] => None
  | x :: rest => Some (fold_right Z.max x rest)
  end.

(** AUTOINCREMENT, for a table whose counter in sqlite_sequence is [seq]:
    the rowid taken for the new row is one more than the largest rowid of
    the table (1 if the table is empty), and at least one more than the
    counter.  Once the counter or the largest rowid has reached MAX_ROWID
    the statement fails with SQLITE_FULL.  The rowid is taken before the
    constraints are checked, and the counter is set to it when the statement
    ends, also when ON CONFLICT DO NOTHING has left the row out. *)
Definition next_rowid (seq : Z) (rowids : list Z) : outcome Z :=
  let v := match largest_rowid rowids with
           | None => 1
           | Some m => m + 1
           end in
  let full := match largest_rowid rowids with
              | None => false
              | Some m => MAX_ROWID <=? m
              end in
  if (MAX_ROWID <=? seq) || full
  then Err SQLITE_FULL
  else Ok (Z.max v (seq + 1)).

(** (? IS NULL OR sort_id < ?) *)
Definition before_cursor (cursor : option Z) (sort_id : Z) : bool :=
  match cursor with
  | None => true
  | Some c => sort_id <? c
  end.

(** state = 1 AND timeout <= ? *)
Definition pending_and_due (time : Z) (r : PromiseRecord.t) : bool :=
  (PromiseRecord.State r =? 1) && (PromiseRecord.Timeout r <=? time).

(** promise_id IN (SELECT id FROM promises WHERE state = 1 AND timeout <= ?) *)
Definition promise_due (db : DB) (time : Z) (promise_id : string) : bool :=
  existsb (fun r => String.eqb promise_id (PromiseRecord.Id r))
          (filter (pending_and_due time) (promises db)).

(** ** The statements of sqlite.go *)

Definition PROMISE_SELECT_STATEMENT (id : string) (db : DB)
  : list PromiseRecord.t :=
  map (fun r => PromiseRecord.with_SortId r 0)
      (filter (fun r => String.eqb (PromiseRecord.Id r) id) (promises db)).

Definition search_where `{E : Env} (sort_id : option Z) (mask : Z) (query : string)
  (r : PromiseRecord.t) : bool :=
  before_cursor sort_id (PromiseRecord.SortId r)
  && negb (Z.land (PromiseRecord.State r) mask =? 0)
  && LIKE (PromiseRecord.Id r) query.

Definition sort_id_desc (a b : PromiseRecord.t) : bool :=
  PromiseRecord.SortId b <=? PromiseRecord.SortId a.

Definition PROMISE_SEARCH_STATEMENT `{E : Env} (sort_id : option Z) (mask : Z)
  (query : string) (limit : Z) (db : DB) : list PromiseRecord.t :=
  LIMIT limit
    (ORDER_BY sort_id_desc (filter (search_where sort_id mask query) (promises db))).

Definition PROMISE_INSERT_STATEMENT (id : string) (state : Z)
  (param_headers param_data : bytes) (timeout : Z)
  (idempotency_key_for_create : option string) (tags : bytes) (created_on : Z)
  (db : DB) : outcome (DB * Z) :=
  sort_id <- next_rowid (promises_seq db)
                        (map PromiseRecord.SortId (promises db)) ;;
  let row := PromiseRecord.mk id state (Some param_headers) (Some param_data)
               None None timeout idempotency_key_for_create None (Some tags)
               (Some created_on) None sort_id in
  let '(rows, n) :=
    INSERT_OR_NOTHING (fun r => String.eqb (PromiseRecord.Id r) id) row
                      (promises db) in
  Ok (mkDB rows sort_id (timeouts db) (subscriptions db) (subscriptions_seq db)
           (notifications db), n).

(** SET state = ?, value_headers = ?, value_data = ?,
    idempotency_key_for_complete = ?, completed_on = ? *)
Definition set_completed (state : Z) (value_headers value_data : bytes)
  (idempotency_key_for_complete : option string) (completed_on : Z)
  (r : PromiseRecord.t) : PromiseRecord.t :=
  PromiseRecord.mk (PromiseRecord.Id r) state
    (PromiseRecord.ParamHeaders r) (PromiseRecord.ParamData r)
    (Some value_headers) (Some value_data) (PromiseRecord.Timeout r)
    (PromiseRecord.IdempotencyKeyForCreate r) idempotency_key_for_complete
    (PromiseRecord.Tags r) (PromiseRecord.CreatedOn r) (Some completed_on)
    (PromiseRecord.SortId r).

(** SET state = 8, completed_on = timeout *)
Definition set_timedout (r : PromiseRecord.t) : PromiseRecord.t :=
  PromiseRecord.mk (PromiseRecord.Id r) 8
    (PromiseRecord.ParamHeaders r) (PromiseRecord.ParamData r)
    (PromiseRecord.ValueHeaders r) (PromiseRecord.ValueData r)
    (PromiseRecord.Timeout r) (PromiseRecord.IdempotencyKeyForCreate r)
    (PromiseRecord.IdempotencyKeyForComplete r) (PromiseRecord.Tags r)
    (PromiseRecord.CreatedOn r) (Some (PromiseRecord.Timeout r))
    (PromiseRecord.SortId r).

Definition PROMISE_UPDATE_STATMENT (state : Z) (value_headers value_data : bytes)
  (idempotency_key_for_complete : option string) (completed_on : Z)
  (id : string) (db : DB) : DB * Z :=
  let '(rows, n) :=
    UPDATE (fun r => String.eqb (PromiseRecord.Id r) id
                     && (PromiseRecord.State r =? 1))
           (set_completed state value_headers value_data
                          idempotency_key_for_complete completed_on)
           (promises db) in
  (set_promises db rows, n).

Definition PROMISE_UPDATE_TIMEOUT_STATEMENT (time : Z) (db : DB) : DB * Z :=
  let '(rows, n) :=
    UPDATE (pending_and_due time)
           set_timedout
           (promises db) in
  (set_promises db rows, n).

(** ORDER BY time ASC, id *)
Definition timeout_order (a b : TimeoutRecord.t) : bool :=
  (TimeoutRecord.Time a <? TimeoutRecord.Time b)
  || ((TimeoutRecord.Time a =? TimeoutRecord.Time b)
      && String.leb (TimeoutRecord.Id a) (TimeoutRecord.Id b)).

Definition TIMEOUT_SELECT_STATEMENT (limit : Z) (db : DB)
  : list TimeoutRecord.t :=
  LIMIT limit (ORDER_BY timeout_order (timeouts db)).

Definition TIMEOUT_INSERT_STATEMENT (id : string) (time : Z) (db : DB)
  : DB * Z :=
  let '(rows, n) :=
    INSERT_OR_NOTHING (fun r => String.eqb (TimeoutRecord.Id r) id)
                      (TimeoutRecord.mk id time) (timeouts db) in
  (set_timeouts db rows, n).

Definition TIMEOUT_DELETE_STATEMENT (id : string) (db : DB) : DB * Z :=
  let '(rows, n) :=
    DELETE (fun r => String.eqb (TimeoutRecord.Id r) id) (timeouts db) in
  (set_timeouts db rows, n).

Definition SUBSCRIPTION_SELECT_STATEMENT (id promise_id : string) (db : DB)
  : list SubscriptionRecord.t :=
  map (fun r => SubscriptionRecord.with_SortId r 0)
      (filter (fun r => String.eqb (SubscriptionRecord.Id r) id
                        && String.eqb (SubscriptionRecord.PromiseId r) promise_id)
              (subscriptions db)).

Definition SUBSCRIPTION_SELECT_ALL_STATEMENT (sort_id : option Z)
  (promise_id : string) (limit : Z) (db : DB) : list SubscriptionRecord.t :=
  LIMIT limit
    (ORDER_BY (fun a b => SubscriptionRecord.SortId b <=? SubscriptionRecord.SortId a)
       (filter (fun r => before_cursor sort_id (SubscriptionRecord.SortId r)
                         && String.eqb (SubscriptionRecord.PromiseId r) promise_id)
               (subscriptions db))).

Definition SUBSCRIPTION_INSERT_STATEMENT (id promise_id url : string)
  (retry_policy : bytes) (created_on : Z) (db : DB) : outcome (DB * Z) :=
  sort_id <- next_rowid (subscriptions_seq db)
                        (map SubscriptionRecord.SortId (subscriptions db)) ;;
  let row := SubscriptionRecord.mk id promise_id url (Some retry_policy)
               created_on sort_id in
  let '(rows, n) :=
    INSERT_OR_NOTHING
      (fun r => String.eqb (SubscriptionRecord.Id r) id
                && String.eqb (SubscriptionRecord.PromiseId r) promise_id)
      row (subscriptions db) in
  Ok (mkDB (promises db) (promises_seq db) (timeouts db) rows sort_id
           (notifications db), n).

Definition SUBSCRIPTION_DELETE_STATEMENT (id promise_id : string) (db : DB)
  : DB * Z :=
  let '(rows, n) :=
    DELETE (fun r => String.eqb (SubscriptionRecord.Id r) id
                     && String.eqb (SubscriptionRecord.PromiseId r) promise_id)
           (subscriptions db) in
  (set_subscriptions db rows, n).

Definition SUBSCRIPTION_DELETE_ALL_STATEMENT (promise_id : string) (db : DB)
  : DB * Z :=
  let '(rows, n) :=
    DELETE (fun r => String.eqb (SubscriptionRecord.PromiseId r) promise_id)
           (subscriptions db) in
  (set_subscriptions db rows, n).

Definition SUBSCRIPTION_DELETE_ALL_TIMEOUT_STATEMENT (time : Z) (db : DB)
  : DB * Z :=
  let '(rows, n) :=
    DELETE (fun r => promise_due db time (SubscriptionRecord.PromiseId r))
           (subscriptions db) in
  (set_subscriptions db rows, n).

(** ORDER BY time ASC, promise_id, id *)
Definition notification_order (a b : NotificationRecord.t) : bool :=
  (NotificationRecord.Time a <? NotificationRecord.Time b)
  || ((NotificationRecord.Time a =? NotificationRecord.Time b)
      && (String.ltb (NotificationRecord.PromiseId a) (NotificationRecord.PromiseId b)
          || (String.eqb (NotificationRecord.PromiseId a) (NotificationRecord.PromiseId b)
              && String.leb (NotificationRecord.Id a) (NotificationRecord.Id b)))).

Definition NOTIFICATION_SELECT_STATEMENT (limit : Z) (db : DB)
  : list NotificationRecord.t :=
  LIMIT limit (ORDER_BY notification_order (notifications db)).

(** The row that INSERT ... SELECT id, promise_id, url, retry_policy, ?, 0
    makes of a subscription. *)
Definition notification_of (time : Z) (s : SubscriptionRecord.t)
  : NotificationRecord.t :=
  NotificationRecord.mk (SubscriptionRecord.Id s) (SubscriptionRecord.PromiseId s)
    (SubscriptionRecord.Url s) (SubscriptionRecord.RetryPolicy s) time 0.

Definition same_notif_key (n m : NotificationRecord.t) : bool :=
  String.eqb (NotificationRecord.Id m) (NotificationRecord.Id n)
  && String.eqb (NotificationRecord.PromiseId m) (NotificationRecord.PromiseId n).

(** INSERT INTO notifications SELECT ... ON CONFLICT(id, promise_id) DO
    NOTHING: the selected rows are inserted one after the other. *)
Definition insert_notification (acc : list NotificationRecord.t * Z)
  (n : NotificationRecord.t) : list NotificationRecord.t * Z :=
  let '(rows', k) := INSERT_OR_NOTHING (same_notif_key n) n (fst acc) in
  (rows', snd acc + k).

Definition insert_notifications (news : list NotificationRecord.t)
  (rows : list NotificationRecord.t) : list NotificationRecord.t * Z :=
  fold_left insert_notification news (rows, 0).

Definition NOTIFICATION_INSERT_STATEMENT (time : Z) (promise_id : string)
  (db : DB) : DB * Z :=
  let selected :=
    filter (fun s => String.eqb (SubscriptionRecord.PromiseId s) promise_id)
           (subscriptions db) in
  let '(rows, n) :=
    insert_notifications (map (notification_of time) selected) (notifications db) in
  (set_notifications db rows, n).

Definition NOTIFICATION_INSERT_TIMEOUT_STATEMENT (time time' : Z) (db : DB)
  : DB * Z :=
  let selected :=
    filter (fun s => promise_due db time' (SubscriptionRecord.PromiseId s))
           (subscriptions db) in
  let '(rows, n) :=
    insert_notifications (map (notification_of time) selected) (notifications db) in
  (set_notifications db rows, n).

Definition NOTIFICATION_UPDATE_STATEMENT (time attempt : Z)
  (id promise_id : string) (db : DB) : DB * Z :=
  let '(rows, n) :=
    UPDATE (fun r => String.eqb (NotificationRecord.Id r) id
                     && String.eqb (NotificationRecord.PromiseId r) promise_id)
           (fun r => NotificationRecord.mk (NotificationRecord.Id r)
                       (NotificationRecord.PromiseId r) (NotificationRecord.Url r)
                       (NotificationRecord.RetryPolicy r) time attempt)
           (notifications db) in
  (set_notifications db rows, n).

Definition NOTIFICATION_DELETE_STATEMENT (id promise_id : string) (db : DB)
  : DB * Z :=
  let '(rows, n) :=
    DELETE (fun r => String.eqb (NotificationRecord.Id r) id
                     && String.eqb (NotificationRecord.PromiseId r) promise_id)
           (notifications db) in
  (set_notifications db rows, n).

(** ** internal/kernel/t_aio: commands and results *)

(** Modelled from the spec: t_aio is declared outside the files embedded here;
    the commands are the command taxonomy of the store, each with the fields
    that sqlite.go reads from it.  A command is its kind together with the
    payload of that kind. *)
Inductive Command : Type :=
| ReadPromise (Id : string)
| SearchPromises (Q : string) (States : option (list promise.State))
    (Limit : Z) (SortId : option Z)
| CreatePromise (Id : string) (Param : Value.t) (Timeout : Z)
    (IdempotencyKey : option promise.IdempotencyKey)
    (Tags : option StringMap) (CreatedOn : Z)
| UpdatePromise (Id : string) (State : promise.State) (Value : Value.t)
    (IdempotencyKey : option promise.IdempotencyKey) (CompletedOn : Z)
| TimeoutPromises (Time : Z)
| ReadTimeouts (N : Z)
| CreateTimeout (Id : string) (Time : Z)
| DeleteTimeout (Id : string)
| ReadSubscription (Id PromiseId : string)
| ReadSubscriptions (PromiseId : string) (Limit : Z) (SortId : option Z)
| CreateSubscription (Id PromiseId Url : string)
    (RetryPolicy : option RetryPolicy.t) (CreatedOn : Z)
| DeleteSubscription (Id PromiseId : string)
| DeleteSubscriptions (PromiseId : string)
| TimeoutDeleteSubscriptions (Time : Z)
| ReadNotifications (N : Z)
| CreateNotifications (PromiseId : string) (Time : Z)
| UpdateNotification (Id PromiseId : string) (Time : Z) (Attempt : Z)
| DeleteNotification (Id PromiseId : string)
| TimeoutCreateNotifications (Time : Z).

Module Transaction.
Record t := mk {
  Commands : list Command
}.
End Transaction.

Module QueryPromisesResult.
Record t := mk {
  RowsReturned : Z;
  LastSortId : Z;
  Records : list PromiseRecord.t
}.
End QueryPromisesResult.

Module QuerySubscriptionsResult.
Record t := mk {
  RowsReturned : Z;
  LastSortId : Z;
  Records : list SubscriptionRecord.t
}.
End QuerySubscriptionsResult.

Module QueryTimeoutsResult.
Record t := mk {
  RowsReturned : Z;
  Records : list TimeoutRecord.t
}.
End QueryTimeoutsResult.

Module QueryNotificationsResult.
Record t := mk {
  RowsReturned : Z;
  Records : list NotificationRecord.t
}.
End QueryNotificationsResult.

(** Modelled from the spec: the results, as sqlite.go builds them.  A result
    is its kind together with the payload of that kind; the Alter...Result
    payloads hold RowsAffected only. *)
Inductive Result : Type :=
| R_ReadPromise (r : QueryPromisesResult.t)
| R_SearchPromises (r : QueryPromisesResult.t)
| R_CreatePromise (RowsAffected : Z)
| R_UpdatePromise (RowsAffected : Z)
| R_TimeoutPromises (RowsAffected : Z)
| R_ReadTimeouts (r : QueryTimeoutsResult.t)
| R_CreateTimeout (RowsAffected : Z)
| R_DeleteTimeout (RowsAffected : Z)
| R_ReadSubscription (r : QuerySubscriptionsResult.t)
| R_ReadSubscriptions (r : QuerySubscriptionsResult.t)
| R_CreateSubscription (RowsAffected : Z)
| R_DeleteSubscription (RowsAffected : Z)
| R_DeleteSubscriptions (RowsAffected : Z)
| R_TimeoutDeleteSubscriptions (RowsAffected : Z)
| R_ReadNotifications (r : QueryNotificationsResult.t)
| R_CreateNotifications (RowsAffected : Z)
| R_UpdateNotification (RowsAffected : Z)
| R_DeleteNotification (RowsAffected : Z)
| R_TimeoutCreateNotifications (RowsAffected : Z).

(** ** Small pieces of the Go library *)

(** [strings.ReplaceAll(s, old, new)] for one-byte [old] and [new]. *)
Fixpoint ReplaceAll (s : string) (old new : ascii) : string :=
  match s with
  | EmptyString => EmptyString
  | String c s' => String (if Ascii.eqb c old then new else c) (ReplaceAll s' old new)
  end.

Definition is_nil {A} (x : option A) : bool :=
  match x with
  | None => true
  | Some _ => false
  end.

(** The value behind a pointer that was asserted not to be nil. *)
Definition deref {A} (x : option A) (zero : A) : A :=
  match x with
  | Some a => a
  | None => zero
  end.

(** ** The methods of SqliteStoreWorker

    Each takes the transaction's view of the database and returns the new
    view with the result.  [fault] is what the driver answers to the
    statement of the command (from Exec, Query, Scan or RowsAffected):
    [None] when the driver has nothing to report of its own.  The one error
    that the statements below raise themselves is SQLITE_FULL, of an insert
    into promises or subscriptions for which no rowid is left; [stmt.Exec]
    returns it like any other error. *)
Section Store.
Context `{E : Env}.

Definition readPromise (fault : option Error) (tx : DB) (Id : string)
  : outcome (DB * Result) :=
  _ <- driver fault ;;
  let records := firstn 1 (PROMISE_SELECT_STATEMENT Id tx) in
  Ok (tx, R_ReadPromise
            (QueryPromisesResult.mk (Z.of_nat (List.length records)) 0 records)).

(** the mask of [searchPromises]: mask = mask | int(state), from 0 *)
Definition state_mask (states : list promise.State) : Z :=
  fold_left (fun mask state => Z.lor mask state) states 0.

Definition searchPromises (fault : option Error) (tx : DB) (Q : string)
  (States : option (list promise.State)) (Limit : Z) (SortId : option Z)
  : outcome (DB * Result) :=
  _ <- Assert (negb (String.eqb Q "")) "query cannot be empty" ;;
  _ <- Assert (negb (is_nil States)) "states cannot be empty" ;;
  let query := ReplaceAll Q "*" "%" in
  let mask := state_mask (deref States []) in
  _ <- driver fault ;;
  let records := PROMISE_SEARCH_STATEMENT SortId mask query Limit tx in
  Ok (tx, R_SearchPromises
            (QueryPromisesResult.mk (Z.of_nat (List.length records))
               (last (map PromiseRecord.SortId records) 0) records)).

Definition createPromise (fault : option Error) (tx : DB) (Id : string)
  (Param : Value.t) (Timeout : Z) (IdempotencyKey : option promise.IdempotencyKey)
  (Tags : option StringMap) (CreatedOn : Z) : outcome (DB * Result) :=
  _ <- Assert (negb (is_nil (Value.Headers Param))) "headers must not be nil" ;;
  _ <- Assert (negb (is_nil (Value.Data Param))) "data must not be nil" ;;
  _ <- Assert (negb (is_nil Tags)) "tags must not be nil" ;;
  headers <- json_Marshal (deref (Value.Headers Param) []) ;;
  tags <- json_Marshal (deref Tags []) ;;
  _ <- driver fault ;;
  '(tx', rowsAffected) <-
    PROMISE_INSERT_STATEMENT Id promise.Pending headers
      (deref (Value.Data Param) []) Timeout IdempotencyKey tags CreatedOn tx ;;
  Ok (tx', R_CreatePromise rowsAffected).

Definition updatePromise (fault : option Error) (tx : DB) (Id : string)
  (State : promise.State) (Value : Value.t)
  (IdempotencyKey : option promise.IdempotencyKey) (CompletedOn : Z)
  : outcome (DB * Result) :=
  _ <- Assert (promise.In State
                 (Z.lor (Z.lor (Z.lor promise.Resolved promise.Rejected)
                               promise.Canceled) promise.Timedout))
              "state must be canceled, resolved, rejected, or timedout" ;;
  _ <- Assert (negb (is_nil (Value.Headers Value))) "value headers must not be nil" ;;
  _ <- Assert (negb (is_nil (Value.Data Value))) "value data must not be nil" ;;
  headers <- json_Marshal (deref (Value.Headers Value) []) ;;
  _ <- driver fault ;;
  let '(tx', rowsAffected) :=
    PROMISE_UPDATE_STATMENT State headers (deref (Value.Data Value) [])
      IdempotencyKey CompletedOn Id tx in
  Ok (tx', R_UpdatePromise rowsAffected).

Definition timeoutPromises (fault : option Error) (tx : DB) (Time : Z)
  : outcome (DB * Result) :=
  _ <- Assert (0 <=? Time) "time must be non-negative" ;;
  _ <- driver fault ;;
  let '(tx', rowsAffected) := PROMISE_UPDATE_TIMEOUT_STATEMENT Time tx in
  Ok (tx', R_TimeoutPromises rowsAffected).

Definition readTimeouts (fault : option Error) (tx : DB) (N : Z)
  : outcome (DB * Result) :=
  _ <- driver fault ;;
  let records := TIMEOUT_SELECT_STATEMENT N tx in
  Ok (tx, R_ReadTimeouts
            (QueryTimeoutsResult.mk (Z.of_nat (List.length records)) records)).

Definition createTimeout (fault : option Error) (tx : DB) (Id : string)
  (Time : Z) : outcome (DB * Result) :=
  _ <- Assert (0 <=? Time) "time must be non-negative" ;;
  _ <- driver fault ;;
  let '(tx', rowsAffected) := TIMEOUT_INSERT_STATEMENT Id Time tx in
  Ok (tx', R_CreateTimeout rowsAffected).

Definition deleteTimeout (fault : option Error) (tx : DB) (Id : string)
  : outcome (DB * Result) :=
  _ <- driver fault ;;
  let '(tx', rowsAffected) := TIMEOUT_DELETE_STATEMENT Id tx in
  Ok (tx', R_DeleteTimeout rowsAffected).

Definition readSubscription (fault : option Error) (tx : DB)
  (Id PromiseId : string) : outcome (DB * Result) :=
  _ <- driver fault ;;
  let records := firstn 1 (SUBSCRIPTION_SELECT_STATEMENT Id PromiseId tx) in
  Ok (tx, R_ReadSubscription
            (QuerySubscriptionsResult.mk (Z.of_nat (List.length records)) 0 records)).

Definition readSubscriptions (fault : option Error) (tx : DB)
  (PromiseId : string) (Limit : Z) (SortId : option Z) : outcome (DB * Result) :=
  _ <- driver fault ;;
  let records := SUBSCRIPTION_SELECT_ALL_STATEMENT SortId PromiseId Limit tx in
  Ok (tx, R_ReadSubscriptions
            (QuerySubscriptionsResult.mk (Z.of_nat (List.length records))
               (last (map SubscriptionRecord.SortId records) 0) records)).

Definition createSubscription (fault : option Error) (tx : DB)
  (Id PromiseId Url : string) (RetryPolicy : option RetryPolicy.t)
  (CreatedOn : Z) : outcome (DB * Result) :=
  _ <- Assert (negb (is_nil RetryPolicy)) "retry policy must not be nil" ;;
  retryPolicy <- json_Marshal_RetryPolicy (deref RetryPolicy (RetryPolicy.mk 0 0)) ;;
  _ <- driver fault ;;
  '(tx', rowsAffected) <-
    SUBSCRIPTION_INSERT_STATEMENT Id PromiseId Url retryPolicy CreatedOn tx ;;
  Ok (tx', R_CreateSubscription rowsAffected).

Definition deleteSubscription (fault : option Error) (tx : DB)
  (Id PromiseId : string) : outcome (DB * Result) :=
  _ <- driver fault ;;
  let '(tx', rowsAffected) := SUBSCRIPTION_DELETE_STATEMENT Id PromiseId tx in
  Ok (tx', R_DeleteSubscription rowsAffected).

Definition deleteSubscriptions (fault : option Error) (tx : DB)
  (PromiseId : string) : outcome (DB * Result) :=
  _ <- driver fault ;;
  let '(tx', rowsAffected) := SUBSCRIPTION_DELETE_ALL_STATEMENT PromiseId tx in
  Ok (tx', R_DeleteSubscriptions rowsAffected).

Definition timeoutDeleteSubscriptions (fault : option Error) (tx : DB)
  (Time : Z) : outcome (DB * Result) :=
  _ <- Assert (0 <=? Time) "time must be non-negative" ;;
  _ <- driver fault ;;
  let '(tx', rowsAffected) := SUBSCRIPTION_DELETE_ALL_TIMEOUT_STATEMENT Time tx in
  Ok (tx', R_TimeoutDeleteSubscriptions rowsAffected).

Definition readNotifications (fault : option Error) (tx : DB) (N : Z)
  : outcome (DB * Result) :=
  _ <- driver fault ;;
  let records := NOTIFICATION_SELECT_STATEMENT N tx in
  Ok (tx, R_ReadNotifications
            (QueryNotificationsResult.mk (Z.of_nat (List.length records)) records)).

Definition createNotifications (fault : option Error) (tx : DB)
  (PromiseId : string) (Time : Z) : outcome (DB * Result) :=
  _ <- Assert (0 <=? Time) "time must be non-negative" ;;
  _ <- driver fault ;;
  let '(tx', rowsAffected) := NOTIFICATION_INSERT_STATEMENT Time PromiseId tx in
  Ok (tx', R_CreateNotifications rowsAffected).

Definition updateNotification (fault : option Error) (tx : DB)
  (Id PromiseId : string) (Time Attempt : Z) : outcome (DB * Result) :=
  _ <- driver fault ;;
  let '(tx', rowsAffected) :=
    NOTIFICATION_UPDATE_STATEMENT Time Attempt Id PromiseId tx in
  Ok (tx', R_UpdateNotification rowsAffected).

Definition deleteNotification (fault : option Error) (tx : DB)
  (Id PromiseId : string) : outcome (DB * Result) :=
  _ <- driver fault ;;
  let '(tx', rowsAffected) := NOTIFICATION_DELETE_STATEMENT Id PromiseId tx in
  Ok (tx', R_DeleteNotification rowsAffected).

Definition timeoutCreateNotifications (fault : option Error) (tx : DB)
  (Time : Z) : outcome (DB * Result) :=
  _ <- Assert (0 <=? Time) "time must be non-negative" ;;
  _ <- driver fault ;;
  let '(tx', rowsAffected) := NOTIFICATION_INSERT_TIMEOUT_STATEMENT Time Time tx in
  Ok (tx', R_TimeoutCreateNotifications rowsAffected).

(** The switch of [performCommands]. *)
Definition performCommand (fault : option Error) (tx : DB) (command : Command)
  : outcome (DB * Result) :=
  match command with
  | ReadPromise Id => readPromise fault tx Id
  | SearchPromises Q States Limit SortId =>
      searchPromises fault tx Q States Limit SortId
  | CreatePromise Id Param Timeout IdempotencyKey Tags CreatedOn =>
      createPromise fault tx Id Param Timeout IdempotencyKey Tags CreatedOn
  | UpdatePromise Id State Value IdempotencyKey CompletedOn =>
      updatePromise fault tx Id State Value IdempotencyKey CompletedOn
  | TimeoutPromises Time => timeoutPromises fault tx Time
  | ReadTimeouts N => readTimeouts fault tx N
  | CreateTimeout Id Time => createTimeout fault tx Id Time
  | DeleteTimeout Id => deleteTimeout fault tx Id
  | ReadSubscription Id PromiseId => readSubscription fault tx Id PromiseId
  | ReadSubscriptions PromiseId Limit SortId =>
      readSubscriptions fault tx PromiseId Limit SortId
  | CreateSubscription Id PromiseId Url RetryPolicy CreatedOn =>
      createSubscription fault tx Id PromiseId Url RetryPolicy CreatedOn
  | DeleteSubscription Id PromiseId => deleteSubscription fault tx Id PromiseId
  | DeleteSubscriptions PromiseId => deleteSubscriptions fault tx PromiseId
  | TimeoutDeleteSubscriptions Time => timeoutDeleteSubscriptions fault tx Time
  | ReadNotifications N => readNotifications fault tx N
  | CreateNotifications PromiseId Time => createNotifications fault tx PromiseId Time
  | UpdateNotification Id PromiseId Time Attempt =>
      updateNotification fault tx Id PromiseId Time Attempt
  | DeleteNotification Id PromiseId => deleteNotification fault tx Id PromiseId
  | TimeoutCreateNotifications Time => timeoutCreateNotifications fault tx Time
  end.

(** What the database driver answers during one [Execute]: an error or
    nothing at BeginTx, at the Prepare calls, at the statement of command
    [j] of transaction [i], at Rollback and at Commit.  [rollback_fault] is
    the answer of Rollback whatever the error before it was, also when the
    engine has given up the transaction by itself. *)
Record Driver := mkDriver {
  begin_fault : option Error;
  prepare_fault : option Error;
  command_fault : nat -> nat -> option Error;
  rollback_fault : option Error;
  commit_fault : option Error
}.

(** The driver with which nothing fails. *)
Definition healthy : Driver :=
  mkDriver None None (fun _ _ => None) None None.

(** for j, command := range transaction.Commands *)
Fixpoint performTransaction (d : Driver) (i j : nat) (tx : DB)
  (commands : list Command) : outcome (DB * list Result) :=
  match commands with
  | [] => Ok (tx, [])
  | command :: rest =>
      '(tx', result) <- performCommand (command_fault d i j) tx command ;;
      '(tx'', results) <- performTransaction d i (S j) tx' rest ;;
      Ok (tx'', result :: results)
  end.

(** for i, transaction := range transactions *)
Fixpoint performTransactions (d : Driver) (i : nat) (tx : DB)
  (transactions : list Transaction.t) : outcome (DB * list (list Result)) :=
  match transactions with
  | [] => Ok (tx, [])
  | transaction :: rest =>
      _ <- Assert (0 <? Z.of_nat (List.length (Transaction.Commands transaction)))
                  "expected a command" ;;
      '(tx', results_i) <-
        performTransaction d i 0 tx (Transaction.Commands transaction) ;;
      '(tx'', results) <- performTransactions d (S i) tx' rest ;;
      Ok (tx'', results_i :: results)
  end.

Definition performCommands (d : Driver) (tx : DB)
  (transactions : list Transaction.t) : outcome (DB * list (list Result)) :=
  _ <- driver (prepare_fault d) ;;
  performTransactions d 0 tx transactions.

(** [Execute]: the committed database after the call, and what the call
    returns.  A rolled back, uncommitted or abandoned transaction leaves the
    committed database as it was. *)
Definition Execute (d : Driver) (db : DB) (transactions : list Transaction.t)
  : DB * outcome (list (list Result)) :=
  if negb (0 <? Z.of_nat (List.length transactions))
  then (db, Panic "expected a transaction")
  else
    match begin_fault d with
    | Some err => (db, Err err)
    | None =>
        match performCommands d db transactions with
        | Err err =>
            match rollback_fault d with
            | Some err' => (db, Err err')
            | None => (db, Err err)
            end
        | Panic msg => (db, Panic msg)
        | Ok (tx, results) =>
            match commit_fault d with
            | Some err => (db, Err err)
            | None => (tx, Ok results)
            end
        end
    end.

End Store.

(** ** internal/kernel/t_api: requests and responses *)

(** The status codes, as the enumeration Status of the gRPC interface gives
    them. *)
Inductive ResponseStatus : Type :=
| ResponseOK
| ResponseCreated
| ResponseNoContent
| ResponseForbidden
| ResponseNotFound
| ResponseConflict.

Definition status_code (s : ResponseStatus) : Z :=
  match s with
  | ResponseOK => 200
  | ResponseCreated => 201
  | ResponseNoContent => 204
  | ResponseForbidden => 403
  | ResponseNotFound => 404
  | ResponseConflict => 409
  end.

Module ReadPromiseRequest.
Record t := mk {
  Id : string
}.
End ReadPromiseRequest.

Module RejectPromiseRequest.
Record t := mk {
  Id : string;
  IdempotencyKey : option promise.IdempotencyKey;
  Strict : bool;
  Value : Value.t
}.
End RejectPromiseRequest.

(** Modelled from the spec: t_api is declared outside the files embedded here;
    the fields are those of the request and response shapes of the spec that
    the coroutines use.  A request is its kind with the payload of that kind;
    the two kinds that the coroutines below serve. *)
Inductive Request : Type :=
| Req_ReadPromise (r : ReadPromiseRequest.t)
| Req_RejectPromise (r : RejectPromiseRequest.t).

Inductive Response : Type :=
| Res_ReadPromise (Status : ResponseStatus) (Promise : option Promise.t)
| Res_RejectPromise (Status : ResponseStatus) (Promise : option Promise.t).

(** ** internal/kernel/t_aio: submissions and completions *)

(** Modelled from the spec: a submission of kind Store carries one
    transaction. *)
Inductive Submission : Type :=
| StoreSubmission (Transaction : Transaction.t).

Module Completion.
(** [Store] is the pointer to the StoreCompletion, whose field is Results. *)
Record t := mk {
  Store : option (list Result)
}.
End Completion.

(** ** internal/kernel/scheduler: what a coroutine does *)

(** Modelled from the spec: the scheduler is outside the files embedded here.
    The body of a coroutine runs until it yields a submission ([c.Yield]),
    calls its response callback ([res]), adds a coroutine to the scheduler
    ([s.Add]), or panics.  The callback of a yield runs on a later tick,
    with the time [s.Time()] of that tick, the same for the whole callback,
    and the completion and error it is resumed with.  TimeoutPromise is
    known by its call only: the promise, the coroutine to retry with, and
    the callback for its outcome. *)
Inductive Coroutine : Type :=
| Co_ReadPromise (req : Request)
| Co_RejectPromise (req : Request)
| Co_TimeoutPromise (p : Promise.t) (retry : Coroutine)
    (res : option Error -> Effect)
with Effect : Type :=
| Yield (submission : Submission)
    (callback : Z -> option Completion.t -> option Error -> Effect)
| Respond (response : option Response) (err : option Error)
| Add (c : Coroutine)
| Crash (msg : string).

(** An error is passed to the response callback, a panic ends the process. *)
Definition or_fail (o : outcome Effect) : Effect :=
  match o with
  | Ok e => e
  | Err err => Respond None (Some err)
  | Panic msg => Crash msg
  end.

(** completion.Store.Results[0], after the assertion on completion.Store *)
Definition first_result (completion : option Completion.t) : outcome Result :=
  match completion with
  | None => Panic "nil pointer dereference"
  | Some c =>
      _ <- Assert (negb (is_nil (Completion.Store c))) "completion must not be nil" ;;
      match deref (Completion.Store c) [] with
      | [] => Panic "index out of range"
      | result :: _ => Ok result
      end
  end.

(** [result.Records[0]] *)
Definition first_record (r : QueryPromisesResult.t) : outcome PromiseRecord.t :=
  match QueryPromisesResult.Records r with
  | [] => Panic "index out of range"
  | record :: _ => Ok record
  end.

Definition read_submission (id : string) : Submission :=
  StoreSubmission (Transaction.mk [ReadPromise id]).

(** The snapshot that both coroutines answer with after a timeout. *)
Definition timedout_snapshot (p : Promise.t) (data : option bytes) : Promise.t :=
  Promise.mk (Promise.Id p) promise.Timedout (Promise.Param p)
    (Value.mk (Some []) data) (Promise.Timeout p)
    (Promise.IdempotencyKeyForCreate p) (Promise.IdempotencyKeyForComplete p)
    (Promise.Tags p) (Promise.CreatedOn p) (Some (Promise.Timeout p)).

Module coroutines.
Section Coroutines.
Context `{E : Env}.

(** *** ReadPromise *)

(** the callback given to TimeoutPromise *)
Definition ReadPromise_timedout (p : Promise.t) (err : option Error) : Effect :=
  match err with
  | Some e => Respond None (Some e)
  | None =>
      Respond (Some (Res_ReadPromise ResponseOK (Some (timedout_snapshot p None))))
              None
  end.

(** the callback of the yield *)
Definition ReadPromise_read (req : Request) (now : Z)
  (completion : option Completion.t) (err : option Error) : Effect :=
  match err with
  | Some e => Respond None (Some e)
  | None =>
      or_fail (
        r <- first_result completion ;;
        match r with
        | R_ReadPromise result =>
            _ <- Assert ((QueryPromisesResult.RowsReturned result =? 0)
                         || (QueryPromisesResult.RowsReturned result =? 1))
                        "result must return 0 or 1 rows" ;;
            if QueryPromisesResult.RowsReturned result =? 0
            then Ok (Respond (Some (Res_ReadPromise ResponseNotFound None)) None)
            else
              record <- first_record result ;;
              p <- PromiseRecord_Promise record ;;
              if (Promise.State p =? promise.Pending) && (Promise.Timeout p <=? now)
              then Ok (Add (Co_TimeoutPromise p (Co_ReadPromise req)
                              (ReadPromise_timedout p)))
              else Ok (Respond (Some (Res_ReadPromise ResponseOK (Some p))) None)
        | _ => Panic "nil pointer dereference"
        end)
  end.

Definition ReadPromise (req : Request) : Effect :=
  match req with
  | Req_ReadPromise r =>
      Yield (read_submission (ReadPromiseRequest.Id r)) (ReadPromise_read req)
  | _ => Crash "nil pointer dereference"
  end.

(** *** RejectPromise *)

(** The first lines of the body: nil headers and nil data of the request's
    value are replaced, in the request itself. *)
Definition default_value (r : RejectPromiseRequest.t) : RejectPromiseRequest.t :=
  RejectPromiseRequest.mk (RejectPromiseRequest.Id r)
    (RejectPromiseRequest.IdempotencyKey r) (RejectPromiseRequest.Strict r)
    (Value.mk
       (Some (deref (Value.Headers (RejectPromiseRequest.Value r)) []))
       (Some (deref (Value.Data (RejectPromiseRequest.Value r)) []))).

(** the callback given to TimeoutPromise *)
Definition RejectPromise_timedout (p : Promise.t) (err : option Error) : Effect :=
  match err with
  | Some e => Respond None (Some e)
  | None =>
      Respond (Some (Res_RejectPromise ResponseForbidden
                       (Some (timedout_snapshot p (Some [])))))
              None
  end.

(** the transaction that completes the promise *)
Definition reject_submission (r : RejectPromiseRequest.t) (completedOn : Z)
  : Submission :=
  StoreSubmission (Transaction.mk
    [ UpdatePromise (RejectPromiseRequest.Id r) promise.Rejected
        (RejectPromiseRequest.Value r) (RejectPromiseRequest.IdempotencyKey r)
        completedOn;
      CreateNotifications (RejectPromiseRequest.Id r) completedOn;
      DeleteSubscriptions (RejectPromiseRequest.Id r) ]).

Definition rejected_promise (r : RejectPromiseRequest.t) (p : Promise.t)
  (completedOn : Z) : Promise.t :=
  Promise.mk (Promise.Id p) promise.Rejected (Promise.Param p)
    (RejectPromiseRequest.Value r) (Promise.Timeout p)
    (Promise.IdempotencyKeyForCreate p) (RejectPromiseRequest.IdempotencyKey r)
    (Promise.Tags p) (Promise.CreatedOn p) (Some completedOn).

(** the callback of the second yield *)
Definition RejectPromise_updated (r : RejectPromiseRequest.t) (p : Promise.t)
  (completedOn : Z) (now : Z) (completion : option Completion.t)
  (err : option Error) : Effect :=
  match err with
  | Some e => Respond None (Some e)
  | None =>
      or_fail (
        res <- first_result completion ;;
        match res with
        | R_UpdatePromise RowsAffected =>
            _ <- Assert ((RowsAffected =? 0) || (RowsAffected =? 1))
                        "result must return 0 or 1 rows" ;;
            if RowsAffected =? 1
            then Ok (Respond (Some (Res_RejectPromise ResponseCreated
                                      (Some (rejected_promise r p completedOn))))
                             None)
            else Ok (Add (Co_RejectPromise (Req_RejectPromise r)))
        | _ => Panic "nil pointer dereference"
        end)
  end.

(** the status computed for a promise that is no longer pending *)
Definition completed_status (r : RejectPromiseRequest.t) (p : Promise.t)
  : ResponseStatus :=
  let strict := RejectPromiseRequest.Strict r
                && negb (Promise.State p =? promise.Rejected) in
  if negb strict
     && Match (Promise.IdempotencyKeyForComplete p)
              (RejectPromiseRequest.IdempotencyKey r)
  then ResponseOK
  else ResponseForbidden.

(** the callback of the first yield *)
Definition RejectPromise_read (r : RejectPromiseRequest.t) (now : Z)
  (completion : option Completion.t) (err : option Error) : Effect :=
  match err with
  | Some e => Respond None (Some e)
  | None =>
      or_fail (
        res <- first_result completion ;;
        match res with
        | R_ReadPromise result =>
            _ <- Assert ((QueryPromisesResult.RowsReturned result =? 0)
                         || (QueryPromisesResult.RowsReturned result =? 1))
                        "result must return 0 or 1 rows" ;;
            if QueryPromisesResult.RowsReturned result =? 0
            then Ok (Respond (Some (Res_RejectPromise ResponseNotFound None)) None)
            else
              record <- first_record result ;;
              p <- PromiseRecord_Promise record ;;
              if Promise.State p =? promise.Pending
              then
                if Promise.Timeout p <=? now
                then Ok (Add (Co_TimeoutPromise p
                                (Co_RejectPromise (Req_RejectPromise r))
                                (RejectPromise_timedout p)))
                else
                  let completedOn := now in
                  Ok (Yield (reject_submission r completedOn)
                            (RejectPromise_updated r p completedOn))
              else
                Ok (Respond (Some (Res_RejectPromise (completed_status r p)
                                     (Some p)))
                            None)
        | _ => Panic "nil pointer dereference"
        end)
  end.

Definition RejectPromise (req : Request) : Effect :=
  match req with
  | Req_RejectPromise r0 =>
      let r := default_value r0 in
      Yield (read_submission (RejectPromiseRequest.Id r)) (RejectPromise_read r)
  | _ => Crash "nil pointer dereference"
  end.

(** The body that the scheduler runs for a coroutine; TimeoutPromise is not
    among the files embedded here. *)
Definition body (c : Coroutine) : option Effect :=
  match c with
  | Co_ReadPromise req => Some (ReadPromise req)
  | Co_RejectPromise req => Some (RejectPromise req)
  | Co_TimeoutPromise _ _ _ => None
  end.

End Coroutines.
End coroutines.

(** ** An environment to run the model in *)

Definition lower (c : ascii) : ascii :=
  let n := nat_of_ascii c in
  if (Nat.leb 65 n && Nat.leb n 90)%bool then ascii_of_nat (n + 32) else c.

(** LIKE on ASCII text: % matches any run of bytes, _ one byte, and letters
    match without regard to case. *)
Fixpoint like (pat : string) : string -> bool :=
  match pat with
  | EmptyString => fun s => String.eqb s ""
  | String c pat' =>
      if Ascii.eqb c "%" then
        fix any (s : string) : bool :=
          like pat' s
          || match s with
             | EmptyString => false
             | String _ s' => any s'
             end
      else
        fun s =>
          match s with
          | EmptyString => false
          | String d s' =>
              (Ascii.eqb c "_" || Ascii.eqb (lower c) (lower d)) && like pat' s'
          end
  end.

Definition bytes_of_string (s : string) : bytes := list_byte_of_string s.

Definition promise_of (r : PromiseRecord.t) : Promise.t :=
  Promise.mk (PromiseRecord.Id r) (PromiseRecord.State r)
    (Value.mk (Some []) (PromiseRecord.ParamData r))
    (Value.mk (Some []) (PromiseRecord.ValueData r))
    (PromiseRecord.Timeout r) (PromiseRecord.IdempotencyKeyForCreate r)
    (PromiseRecord.IdempotencyKeyForComplete r) (Some [])
    (PromiseRecord.CreatedOn r) (PromiseRecord.CompletedOn r).

Definition sample_Promise (r : PromiseRecord.t) : outcome Promise.t :=
  Ok (promise_of r).

Definition sample_Match (stored requested : option promise.IdempotencyKey) : bool :=
  match stored, requested with
  | Some a, Some b => String.eqb a b
  | _, _ => false
  end.

Definition sample_env : Env := {|
  LIKE := fun x pat => like pat x;
  json_Marshal := fun m =>
    Ok (bytes_of_string
          (String.concat "," (map (fun kv => fst kv ++ ":" ++ snd kv)%string m)));
  json_Marshal_RetryPolicy := fun _ => Ok [];
  PromiseRecord_Promise := sample_Promise;
  Match := sample_Match
|}.

(** ** Notions used in the statements *)

(** The tables other than promises, and the counters, are the same. *)
Definition same_other_tables (db db' : DB) : Prop :=
  promises_seq db' = promises_seq db /\ timeouts db' = timeouts db
  /\ subscriptions db' = subscriptions db
  /\ subscriptions_seq db' = subscriptions_seq db
  /\ notifications db' = notifications db.

(** A pending promise with one subscription, for the examples. *)
Definition pending_p1 : PromiseRecord.t :=
  PromiseRecord.mk "p1" 1 (Some []) (Some []) None None 100 None None
    (Some []) (Some 0) None 1.

Definition sub_s1_p1 : SubscriptionRecord.t :=
  SubscriptionRecord.mk "s1" "p1" "http://x" (Some []) 2 1.

Definition db_pending : DB :=
  mkDB [pending_p1] 1 [TimeoutRecord.mk "p1" 100] [sub_s1_p1] 1 [].

(** Two rows of promises that agree on every column but state and
    completed_on. *)
Definition same_but_state_and_completed_on (r r' : PromiseRecord.t) : Prop :=
  PromiseRecord.Id r' = PromiseRecord.Id r
  /\ PromiseRecord.ParamHeaders r' = PromiseRecord.ParamHeaders r
  /\ PromiseRecord.ParamData r' = PromiseRecord.ParamData r
  /\ PromiseRecord.ValueHeaders r' = PromiseRecord.ValueHeaders r
  /\ PromiseRecord.ValueData r' = PromiseRecord.ValueData r
  /\ PromiseRecord.Timeout r' = PromiseRecord.Timeout r
  /\ PromiseRecord.IdempotencyKeyForCreate r' = PromiseRecord.IdempotencyKeyForCreate r
  /\ PromiseRecord.IdempotencyKeyForComplete r' = PromiseRecord.IdempotencyKeyForComplete r
  /\ PromiseRecord.Tags r' = PromiseRecord.Tags r
  /\ PromiseRecord.CreatedOn r' = PromiseRecord.CreatedOn r
  /\ PromiseRecord.SortId r' = PromiseRecord.SortId r.

(** The columns that PROMISE_UPDATE_STATMENT leaves alone. *)
Definition same_but_completion (r r' : PromiseRecord.t) : Prop :=
  PromiseRecord.Id r' = PromiseRecord.Id r
  /\ PromiseRecord.ParamHeaders r' = PromiseRecord.ParamHeaders r
  /\ PromiseRecord.ParamData r' = PromiseRecord.ParamData r
  /\ PromiseRecord.Timeout r' = PromiseRecord.Timeout r
  /\ PromiseRecord.IdempotencyKeyForCreate r' = PromiseRecord.IdempotencyKeyForCreate r
  /\ PromiseRecord.Tags r' = PromiseRecord.Tags r
  /\ PromiseRecord.CreatedOn r' = PromiseRecord.CreatedOn r
  /\ PromiseRecord.SortId r' = PromiseRecord.SortId r.

(** The value of a rejection request, and the request. *)
Definition sample_value : Value.t := Value.mk (Some [("k", "v")%string]) (Some []).

Definition reject_p1 : RejectPromiseRequest.t :=
  RejectPromiseRequest.mk "p1" (Some "ik"%string) false sample_value.

(** [db_pending] after the rejection of p1 at time 10 *)
Definition db_rejected : DB :=
  mkDB [PromiseRecord.mk "p1" 4 (Some []) (Some [])
          (Some (bytes_of_string "k:v")) (Some []) 100 None (Some "ik"%string)
          (Some []) (Some 0) (Some 10) 1]
       1 [TimeoutRecord.mk "p1" 100] [sub_s1_p1] 1 [].

(** Three promises: pending and due at 150, pending and not due, resolved. *)
Definition db_three : DB :=
  mkDB [ pending_p1;
         PromiseRecord.mk "p2" 1 (Some []) (Some []) None None 1000 None None
           (Some []) (Some 0) None 2;
         PromiseRecord.mk "p3" 2 (Some []) (Some []) (Some []) (Some []) 50 None
           None (Some []) (Some 0) (Some 7) 3 ]
       3 [] [] 0 [].

(** The completion of a read that found one record. *)
Definition read_completion (record : PromiseRecord.t) : option Completion.t :=
  Some (Completion.mk
          (Some [R_ReadPromise (QueryPromisesResult.mk 1 0 [record])])).

(** The completion of the rejecting transaction with [n] promises updated. *)
Definition update_completion (n : Z) : option Completion.t :=
  Some (Completion.mk
          (Some [R_UpdatePromise n; R_CreateNotifications 0; R_DeleteSubscriptions 0])).

(** A promise that was resolved with the idempotency key "ik". *)
Definition resolved_p3 : PromiseRecord.t :=
  PromiseRecord.mk "p3" 2 (Some []) (Some []) (Some []) (Some []) 50 None
    (Some "ik"%string) (Some []) (Some 0) (Some 7) 3.

(** [all_submissions P e]: whatever the coroutine is resumed with, every
    submission that the effect [e] yields satisfies [P]; this follows the
    callbacks of the yields and those handed to TimeoutPromise.  A coroutine
    that is added to the scheduler starts from its own body. *)
Fixpoint all_submissions (P : Submission -> Prop) (e : Effect) : Prop :=
  match e with
  | Yield s callback =>
      P s /\ forall now completion err, all_submissions P (callback now completion err)
  | Add c => all_callbacks P c
  | Respond _ _ => True
  | Crash _ => True
  end
with all_callbacks (P : Submission -> Prop) (c : Coroutine) : Prop :=
  match c with
  | Co_TimeoutPromise _ retry res =>
      all_callbacks P retry /\ forall err, all_submissions P (res err)
  | Co_ReadPromise _ => True
  | Co_RejectPromise _ => True
  end.

(** Every UpdatePromise command of the submission carries a value whose
    headers and data are not nil. *)
Definition update_values_not_nil (s : Submission) : Prop :=
  match s with
  | StoreSubmission t =>
      forall Id State Value IdempotencyKey CompletedOn,
        In (UpdatePromise Id State Value IdempotencyKey CompletedOn)
           (Transaction.Commands t) ->
        Value.Headers Value <> None /\ Value.Data Value <> None
  end.

(** A driver whose first statement fails and whose Rollback fails too. *)
Definition failing_driver : Driver :=
  mkDriver None None
    (fun i j => match i, j with
                | O, O => Some "disk I/O error"%string
                | _, _ => None
                end)
    (Some "cannot rollback"%string) None.

(** One result per command of each transaction. *)
Definition results_match (transactions : list Transaction.t)
  (results : list (list Result)) : Prop :=
  Forall2 (fun t rs => List.length rs = List.length (Transaction.Commands t))
          transactions results.

(** The transaction with which RejectPromise completes promise [r.Id]. *)
Definition reject_transaction (r : RejectPromiseRequest.t) (completedOn : Z)
  : Transaction.t :=
  Transaction.mk
    [ UpdatePromise (RejectPromiseRequest.Id r) promise.Rejected
        (RejectPromiseRequest.Value r) (RejectPromiseRequest.IdempotencyKey r)
        completedOn;
      CreateNotifications (RejectPromiseRequest.Id r) completedOn;
      DeleteSubscriptions (RejectPromiseRequest.Id r) ].

(** [db_pending] with a notification for (s1, p1) left from before, on its
    second attempt. *)
Definition stale_s1_p1 : NotificationRecord.t :=
  NotificationRecord.mk "s1" "p1" "http://x" (Some []) 12 1.

Definition db_stale : DB :=
  mkDB [pending_p1] 1 [TimeoutRecord.mk "p1" 100] [sub_s1_p1] 1 [stale_s1_p1].

(** The database after a lost race: p1 was completed at time 7 by another
    request, its notification for s1 is on its second attempt, and s1 was
    subscribed to p1 once more. *)
Definition db_raced : DB :=
  mkDB [PromiseRecord.mk "p1" 2 (Some []) (Some []) (Some []) (Some []) 100
          None (Some "other"%string) (Some []) (Some 0) (Some 7) 1]
       1 [] [SubscriptionRecord.mk "s1" "p1" "http://x" (Some []) 8 2] 2
       [stale_s1_p1].

(** [a] comes strictly before [b] in descending sort_id. *)
Definition sort_id_gt (a b : PromiseRecord.t) : Prop :=
  PromiseRecord.SortId b < PromiseRecord.SortId a.

(** The promise matches the state mask and the translated query. *)
Definition matches `{E : Env} (mask : Z) (query : string) (r : PromiseRecord.t) : bool :=
  negb (Z.land (PromiseRecord.State r) mask =? 0) && LIKE (PromiseRecord.Id r) query.

(** Paging through a search: each page is one SearchPromises command; the
    LastSortId of a page is the cursor of the next; the paging ends with the
    first page that has fewer rows than the limit.  [fuel] bounds the number
    of pages asked for. *)
Definition search_page `{E : Env} (db : DB) (Q : string)
  (States : option (list promise.State)) (Limit : Z) (cursor : option Z)
  : option QueryPromisesResult.t :=
  match searchPromises None db Q States Limit cursor with
  | Ok (_, R_SearchPromises r) => Some r
  | _ => None
  end.

Fixpoint paginate `{E : Env} (fuel : nat) (db : DB) (Q : string)
  (States : option (list promise.State)) (Limit : Z) (cursor : option Z)
  : option (list (list PromiseRecord.t)) :=
  match fuel with
  | O => None
  | S fuel' =>
      match search_page db Q States Limit cursor with
      | None => None
      | Some r =>
          if QueryPromisesResult.RowsReturned r <? Limit
          then Some [QueryPromisesResult.Records r]
          else
            match paginate fuel' db Q States Limit
                           (Some (QueryPromisesResult.LastSortId r)) with
            | Some pages => Some (QueryPromisesResult.Records r :: pages)
            | None => None
            end
      end
  end.

(** The cursor after the rows [seen]: none at the start, then the sort_id of
    the last row. *)
Definition cursor_after (seen : list PromiseRecord.t) : option Z :=
  match seen with
  | [] => None
  | _ :: _ => Some (last (map PromiseRecord.SortId seen) 0)
  end.

(** Modelled from the spec: the AIO layer and store.Process are not among the
    files embedded here.  The store subsystem executes the transaction of a
    submission and the coroutine is resumed with a completion that carries
    its results, or with the error. *)
Definition complete `{E : Env} (d : Driver) (db : DB) (s : Submission)
  : DB * option (option Completion.t * option Error) :=
  match s with
  | StoreSubmission t =>
      match Execute d db [t] with
      | (db', Ok (results :: _)) =>
          (db', Some (Some (Completion.mk (Some results)), None))
      | (db', Ok []) => (db', Some (Some (Completion.mk None), None))
      | (db', Err err) => (db', Some (None, Some err))
      | (db', Panic _) => (db', None)
      end
  end.

(** One coroutine run alone against the store, every callback at the time
    [now], until it responds, panics or reaches TimeoutPromise; [fuel]
    bounds the number of steps. *)
Fixpoint run `{E : Env} (fuel : nat) (now : Z) (d : Driver) (db : DB)
  (e : Effect) : DB * Effect :=
  match fuel with
  | O => (db, e)
  | S fuel' =>
      match e with
      | Yield s callback =>
          match complete d db s with
          | (db', Some (completion, err)) =>
              run fuel' now d db' (callback now completion err)
          | (db', None) => (db', Crash "store")
          end
      | Add c =>
          match coroutines.body c with
          | Some e' => run fuel' now d db e'
          | None => (db, e)
          end
      | _ => (db, e)
      end
  end.

(** All the key constraints of CREATE_TABLE_STATEMENT: those of [wf],
    timeouts PRIMARY KEY(id) and subscriptions.sort_id PRIMARY KEY. *)
Record constraints (db : DB) : Prop := mk_constraints {
  c_wf : wf db;
  c_timeout_id : NoDup (map TimeoutRecord.Id (timeouts db));
  c_subscription_sort_id : NoDup (map SubscriptionRecord.SortId (subscriptions db))
}.

(** The command only reads. *)
Definition is_read (c : Command) : bool :=
  match c with
  | ReadPromise _ | SearchPromises _ _ _ _ | ReadTimeouts _
  | ReadSubscription _ _ | ReadSubscriptions _ _ _ | ReadNotifications _ => true
  | _ => false
  end.

(** The row [r] of promises is still there as [r']: the columns that no
    statement sets are the same, and the whole row if it was not pending. *)
Definition persists (r r' : PromiseRecord.t) : Prop :=
  same_but_completion r r'
  /\ (PromiseRecord.State r <> promise.Pending -> r' = r).

(** The promise of the subscription is pending with timeout <= t. *)
Definition due (db : DB) (t : Z) (s : SubscriptionRecord.t) : Prop :=
  exists r, In r (promises db)
            /\ PromiseRecord.Id r = SubscriptionRecord.PromiseId s
            /\ PromiseRecord.State r = promise.Pending
            /\ PromiseRecord.Timeout r <= t.

(** The sweep with the promises timed out first, and with them last. *)
Definition sweep_promises_first (t : Z) : Transaction.t :=
  Transaction.mk
    [TimeoutPromises t; TimeoutCreateNotifications t; TimeoutDeleteSubscriptions t].

Definition sweep_promises_last (t : Z) : Transaction.t :=
  Transaction.mk
    [TimeoutCreateNotifications t; TimeoutDeleteSubscriptions t; TimeoutPromises t].

(** [all_responses P e]: whatever the coroutine is resumed with, every call of
    the response callback that the effect [e] makes satisfies [P]; this
    follows the callbacks of the yields and those handed to TimeoutPromise. *)
Fixpoint all_responses (P : option Response -> option Error -> Prop) (e : Effect)
  : Prop :=
  match e with
  | Yield _ callback =>
      forall now completion err, all_responses P (callback now completion err)
  | Respond response err => P response err
  | Add c => all_callback_responses P c
  | Crash _ => True
  end
with all_callback_responses (P : option Response -> option Error -> Prop)
  (c : Coroutine) : Prop :=
  match c with
  | Co_TimeoutPromise _ retry res =>
      all_callback_responses P retry /\ forall err, all_responses P (res err)
  | Co_ReadPromise _ => True
  | Co_RejectPromise _ => True
  end.

(** The callback gets an error alone, or a response alone. *)
Definition error_or_response (Q : Response -> Prop) (response : option Response)
  (err : option Error) : Prop :=
  match response, err with
  | None, Some _ => True
  | Some r, None => Q r
  | _, _ => False
  end.

(** The responses of ReadPromise: 404 without promise, or 200 with one. *)
Definition read_response (r : Response) : Prop :=
  match r with
  | Res_ReadPromise ResponseNotFound None => True
  | Res_ReadPromise ResponseOK (Some _) => True
  | _ => False
  end.

(** The responses of RejectPromise: 404 without promise, or 200, 201 or 403
    with one. *)
Definition reject_response (r : Response) : Prop :=
  match r with
  | Res_RejectPromise ResponseNotFound None => True
  | Res_RejectPromise ResponseOK (Some _) => True
  | Res_RejectPromise ResponseCreated (Some _) => True
  | Res_RejectPromise ResponseForbidden (Some _) => True
  | _ => False
  end.

(** The data model of the server for the notification channel: a
    subscription exists only while its promise is Pending, and notifications
    are made when the promise completes, so a promise that is still Pending
    has none. *)
Record data_model (db : DB) : Prop := mk_data_model {
  dm_subscription_pending :
    forall s, In s (subscriptions db) ->
      exists r, In r (promises db)
                /\ PromiseRecord.Id r = SubscriptionRecord.PromiseId s
                /\ PromiseRecord.State r = promise.Pending;
  dm_notification_completed :
    forall n r, In n (notifications db) -> In r (promises db) ->
      PromiseRecord.Id r = NotificationRecord.PromiseId n ->
      PromiseRecord.State r <> promise.Pending
}.

(** * Properties *)

(** ** Inversion of the outcome monad *)

Lemma bind_Ok {A B} (m : outcome A) (f : A -> outcome B) (b : B) :
  bind m f = Ok b -> exists a, m = Ok a /\ f a = Ok b.
Proof.
  destruct m as [a| |]; simpl; intros Hb; try discriminate.
  exists a; split; [reflexivity | exact Hb].
Qed.

Lemma Assert_Ok (c : bool) (msg : string) (u : unit) :
  Assert c msg = Ok u -> c = true.
Proof.
  unfold Assert; destruct c; [reflexivity | discriminate].
Qed.

Lemma driver_Ok (fault : option Error) (u : unit) :
  driver fault = Ok u -> fault = None.
Proof.
  destruct fault; [discriminate | reflexivity].
Qed.

Ltac invert_run :=
  repeat match goal with
  | H : bind _ _ = Ok _ |- _ => apply bind_Ok in H; destruct H as [? [? H]]
  | H : (let (_, _) := ?x in _) = Ok _ |- _ => destruct x
  | H : Ok _ = Ok _ |- _ => inversion H; subst; clear H
  end.

Ltac invert_bind H :=
  let a := fresh "a" in
  let Ha := fresh "Ha" in
  apply bind_Ok in H; destruct H as [a [Ha H]].

(** ** Rows selected by a unique key *)

Section UniqueKey.
Variable A : Type.
Variable key : A -> string.

Lemma filter_key_absent (g : A -> bool) (k : string) (rows : list A) :
  (forall r, In r rows -> key r <> k) ->
  filter (fun x => String.eqb (key x) k && g x) rows = [].
Proof.
  induction rows as [|x rows IH]; simpl; intros Habs; [reflexivity|].
  destruct (String.eqb_spec (key x) k) as [Heq|Hne].
  - exfalso. apply (Habs x); [left; reflexivity | exact Heq].
  - simpl. apply IH. intros r Hr. apply Habs. right; exact Hr.
Qed.

Lemma filter_key_unique (g : A -> bool) (k : string) (rows : list A) (r : A) :
  NoDup (map key rows) -> In r rows -> key r = k ->
  filter (fun x => String.eqb (key x) k && g x) rows = if g r then [r] else [].
Proof.
  induction rows as [|x rows IH]; simpl; intros Hnd Hin Hk; [contradiction|].
  inversion Hnd as [|? ? Hnotin Hnd']; subst.
  destruct Hin as [Hx|Hin].
  - subst x. rewrite String.eqb_refl. simpl.
    rewrite filter_key_absent.
    + destruct (g r); reflexivity.
    + intros r' Hr' Heq. apply Hnotin. rewrite <- Heq. apply in_map. exact Hr'.
  - destruct (String.eqb_spec (key x) (key r)) as [Heq|Hne].
    + exfalso. apply Hnotin. rewrite Heq. apply in_map. exact Hin.
    + simpl. apply IH; auto.
Qed.

Lemma map_if_false (w : A -> bool) (set : A -> A) (rows : list A) :
  filter w rows = [] -> map (fun r => if w r then set r else r) rows = rows.
Proof.
  induction rows as [|x rows IH]; simpl; [reflexivity|].
  destruct (w x) eqn:Hw; [discriminate|].
  intros Hf. rewrite IH by exact Hf. reflexivity.
Qed.

Lemma map_if_key (g : A -> bool) (set : A -> A) (k : string) (rows : list A) (r : A) :
  NoDup (map key rows) -> In r rows -> key r = k -> g r = true ->
  map (fun x => if String.eqb (key x) k && g x then set x else x) rows
  = map (fun x => if String.eqb (key x) k then set x else x) rows.
Proof.
  intros Hnd Hin Hk Hg. apply map_ext_in. intros x Hx.
  destruct (String.eqb_spec (key x) k) as [Heq|Hne]; simpl; [|reflexivity].
  assert (x = r) as ->; [|rewrite Hg; reflexivity].
  clear Hg. induction rows as [|y rows IH]; [contradiction|].
  simpl in Hnd. inversion Hnd as [|? ? Hnotin Hnd']; subst.
  destruct Hx as [Hx|Hx], Hin as [Hin|Hin]; subst.
  - reflexivity.
  - exfalso. apply Hnotin. rewrite Heq. apply in_map. exact Hin.
  - exfalso. apply Hnotin. rewrite <- Heq. apply in_map. exact Hx.
  - apply IH; assumption.
Qed.

End UniqueKey.

Lemma set_promises_same (db : DB) : set_promises db (promises db) = db.
Proof. destruct db; reflexivity. Qed.

Lemma set_promises_others (db : DB) (ps : list PromiseRecord.t) :
  same_other_tables db (set_promises db ps).
Proof. unfold same_other_tables; simpl; auto. Qed.

(** ** UpdatePromise: the compare-and-set on state = Pending *)

Section UpdatePromise.
Context `{E : Env}.

Lemma updatePromise_Ok (tx tx' : DB) (Id : string) (State : promise.State)
  (Value : Value.t) (IdempotencyKey : option promise.IdempotencyKey)
  (CompletedOn : Z) (fault : option Error) (result : Result) :
  updatePromise fault tx Id State Value IdempotencyKey CompletedOn = Ok (tx', result) ->
  exists headers data,
    json_Marshal (deref (Value.Headers Value) []) = Ok headers
    /\ Value.Data Value = Some data
    /\ (tx', result)
       = (let '(tx', n) :=
            PROMISE_UPDATE_STATMENT State headers data IdempotencyKey CompletedOn Id tx
          in (tx', R_UpdatePromise n)).
Proof.
  unfold updatePromise. intros H.
  invert_bind H. invert_bind H. invert_bind H. invert_bind H. invert_bind H.
  apply Assert_Ok in Ha1.
  destruct (Value.Data Value) as [data|]; [|discriminate].
  exists a2, data. split; [exact Ha2|]. split; [reflexivity|].
  change (deref (Some data) []) with data in H.
  destruct (PROMISE_UPDATE_STATMENT State a2 data IdempotencyKey CompletedOn Id tx).
  inversion H; reflexivity.
Qed.

(** A pending row with the given id is completed, and it alone. *)
Lemma update_pending (tx : DB) (id : string) (state : Z) (headers data : bytes)
  (ikey : option string) (completed_on : Z) (r : PromiseRecord.t) :
  NoDup (map PromiseRecord.Id (promises tx)) ->
  In r (promises tx) -> PromiseRecord.Id r = id -> PromiseRecord.State r = 1 ->
  PROMISE_UPDATE_STATMENT state headers data ikey completed_on id tx
  = (set_promises tx
       (map (fun x => if String.eqb (PromiseRecord.Id x) id
                      then set_completed state headers data ikey completed_on x
                      else x)
            (promises tx)), 1).
Proof.
  intros Hnd Hin Hid Hst. unfold PROMISE_UPDATE_STATMENT, UPDATE.
  rewrite (filter_key_unique _ PromiseRecord.Id
             (fun x => PromiseRecord.State x =? 1) id _ r Hnd Hin Hid).
  rewrite (map_if_key _ PromiseRecord.Id (fun x => PromiseRecord.State x =? 1)
             (set_completed state headers data ikey completed_on) id _ r
             Hnd Hin Hid)
    by (rewrite Hst; reflexivity).
  rewrite Hst. reflexivity.
Qed.

(** Without a pending row of the given id nothing changes. *)
Lemma update_not_pending (tx : DB) (id : string) (state : Z) (headers data : bytes)
  (ikey : option string) (completed_on : Z) :
  NoDup (map PromiseRecord.Id (promises tx)) ->
  (forall r, In r (promises tx) -> PromiseRecord.Id r = id ->
             PromiseRecord.State r <> 1) ->
  PROMISE_UPDATE_STATMENT state headers data ikey completed_on id tx = (tx, 0).
Proof.
  intros Hnd Hnone. unfold PROMISE_UPDATE_STATMENT, UPDATE.
  assert (filter (fun r => String.eqb (PromiseRecord.Id r) id
                           && (PromiseRecord.State r =? 1)) (promises tx) = [])
    as Hf.
  { destruct (filter _ (promises tx)) as [|x l] eqn:Hfl; [reflexivity|].
    exfalso.
    assert (In x (x :: l)) as Hx by (left; reflexivity).
    rewrite <- Hfl in Hx. apply filter_In in Hx. destruct Hx as [Hx Hw].
    apply andb_true_iff in Hw. destruct Hw as [Hi Hs].
    apply String.eqb_eq in Hi. apply Z.eqb_eq in Hs.
    exact (Hnone x Hx Hi Hs). }
  rewrite Hf, map_if_false by exact Hf.
  simpl. rewrite set_promises_same. reflexivity.
Qed.

End UpdatePromise.

Ltac prove_wf :=
  constructor; simpl; repeat constructor; simpl; intuition discriminate.

Section RejectAfterUpdate.
Context `{E : Env}.

(** C1. UpdatePromise changes a row of promises only if the row has the given
    id and is Pending: then it sets state, value headers and data,
    idempotency_key_for_complete and completed_on of that row and reports
    rowsAffected = 1; if no row has the id, or the row is no longer Pending,
    the database stays as it is and rowsAffected = 0.  RejectPromise, resumed
    without error on rowsAffected = 0, adds itself to the scheduler again,
    which starts with the read of the same id; on rowsAffected = 1 it
    responds 201 Created with the rejected promise: the promise that was
    read, with its id, param, timeout, create key, tags and createdOn, in
    state Rejected, with the value and the idempotency key of the request
    and with completedOn the time of the completion. *)
Theorem update_promise_compare_and_set
  (tx tx' : DB) (Id : string) (State : promise.State) (Value : Value.t)
  (IdempotencyKey : option promise.IdempotencyKey) (CompletedOn : Z)
  (fault : option Error) (result : Result) :
  wf tx ->
  updatePromise fault tx Id State Value IdempotencyKey CompletedOn = Ok (tx', result) ->
  (exists headers data,
     json_Marshal (deref (Value.Headers Value) []) = Ok headers
     /\ Value.Data Value = Some data
     /\ same_other_tables tx tx'
     /\ (forall r, In r (promises tx) -> PromiseRecord.Id r = Id ->
                   PromiseRecord.State r = promise.Pending ->
           result = R_UpdatePromise 1
           /\ promises tx'
              = map (fun x => if String.eqb (PromiseRecord.Id x) Id
                              then set_completed State headers data IdempotencyKey
                                                 CompletedOn x
                              else x)
                    (promises tx)
           /\ PromiseRecord.State (set_completed State headers data IdempotencyKey
                                                 CompletedOn r) = State
           /\ PromiseRecord.ValueHeaders (set_completed State headers data
                                            IdempotencyKey CompletedOn r) = Some headers
           /\ PromiseRecord.ValueData (set_completed State headers data
                                         IdempotencyKey CompletedOn r) = Some data
           /\ PromiseRecord.IdempotencyKeyForComplete
                (set_completed State headers data IdempotencyKey CompletedOn r)
              = IdempotencyKey
           /\ PromiseRecord.CompletedOn (set_completed State headers data
                                           IdempotencyKey CompletedOn r)
              = Some CompletedOn
           /\ same_but_completion r (set_completed State headers data IdempotencyKey
                                                   CompletedOn r))
     /\ ((forall r, In r (promises tx) -> PromiseRecord.Id r = Id ->
                    PromiseRecord.State r <> promise.Pending) ->
         result = R_UpdatePromise 0 /\ tx' = tx))
  /\ (forall (r : RejectPromiseRequest.t) (p : Promise.t) (completedOn now : Z)
             (rest : list Result),
        coroutines.RejectPromise_updated r p completedOn now
          (Some (Completion.mk (Some (R_UpdatePromise 0 :: rest)))) None
        = Add (Co_RejectPromise (Req_RejectPromise r))
        /\ (exists callback,
              coroutines.body (Co_RejectPromise (Req_RejectPromise r))
              = Some (Yield (StoreSubmission
                               (Transaction.mk
                                  [ReadPromise (RejectPromiseRequest.Id r)]))
                            callback))
        /\ coroutines.RejectPromise_updated r p completedOn now
             (Some (Completion.mk (Some (R_UpdatePromise 1 :: rest)))) None
           = Respond (Some (Res_RejectPromise ResponseCreated
                              (Some (Promise.mk
                                       (Promise.Id p)
                                       promise.Rejected
                                       (Promise.Param p)
                                       (RejectPromiseRequest.Value r)
                                       (Promise.Timeout p)
                                       (Promise.IdempotencyKeyForCreate p)
                                       (RejectPromiseRequest.IdempotencyKey r)
                                       (Promise.Tags p)
                                       (Promise.CreatedOn p)
                                       (Some completedOn)))))
                     None
        /\ coroutines.rejected_promise r p completedOn
           = Promise.mk (Promise.Id p) promise.Rejected (Promise.Param p)
               (RejectPromiseRequest.Value r) (Promise.Timeout p)
               (Promise.IdempotencyKeyForCreate p)
               (RejectPromiseRequest.IdempotencyKey r) (Promise.Tags p)
               (Promise.CreatedOn p) (Some completedOn)
        /\ status_code ResponseCreated = 201
        /\ Promise.State (coroutines.rejected_promise r p completedOn)
           = promise.Rejected
        /\ Promise.Value (coroutines.rejected_promise r p completedOn)
           = RejectPromiseRequest.Value r
        /\ Promise.CompletedOn (coroutines.rejected_promise r p completedOn)
           = Some completedOn).
Proof.
  intros Hwf Hupd. split.
  - pose proof Hupd as Heq. apply updatePromise_Ok in Heq.
    destruct Heq as (headers & data & Hh & Hd & Heq).
    exists headers, data. split; [exact Hh|]. split; [exact Hd|].
    assert (same_other_tables tx tx') as Hsame.
    { unfold PROMISE_UPDATE_STATMENT in Heq.
      destruct (UPDATE _ _ (promises tx)) as [rows n].
      inversion Heq; subst. apply set_promises_others. }
    split; [exact Hsame|]. split.
    + intros r Hin Hid Hst.
      rewrite (update_pending tx Id State headers data IdempotencyKey CompletedOn r
                 (wf_promise_id _ Hwf) Hin Hid Hst) in Heq.
      inversion Heq; subst.
      repeat split; reflexivity.
    + intros Hnone.
      rewrite (update_not_pending tx Id State headers data IdempotencyKey CompletedOn
                 (wf_promise_id _ Hwf) Hnone) in Heq.
      inversion Heq; subst. split; reflexivity.
  - intros r p completedOn now rest. repeat split.
    exists (coroutines.RejectPromise_read (coroutines.default_value r)).
    reflexivity.
Qed.

End RejectAfterUpdate.

Lemma update_promise_compare_and_set_witness :
  wf db_pending
  /\ updatePromise (E := sample_env) None db_pending "p1" promise.Rejected
       sample_value (Some "ik"%string) 10
     = Ok (db_rejected, R_UpdatePromise 1)
  /\ same_other_tables db_pending db_rejected
  /\ coroutines.RejectPromise_updated (coroutines.default_value reject_p1)
       (promise_of pending_p1) 10 11
       (Some (Completion.mk (Some [R_UpdatePromise 1; R_CreateNotifications 1;
                                   R_DeleteSubscriptions 1])))
       None
     = Respond (Some (Res_RejectPromise ResponseCreated
                        (Some (Promise.mk "p1" promise.Rejected
                                 (Value.mk (Some []) (Some []))
                                 (RejectPromiseRequest.Value
                                    (coroutines.default_value reject_p1))
                                 100 None
                                 (RejectPromiseRequest.IdempotencyKey reject_p1)
                                 (Some []) (Some 0) (Some 10)))))
               None.
Proof.
  assert (wf db_pending) as Hwf by prove_wf.
  assert (updatePromise (E := sample_env) None db_pending "p1" promise.Rejected
            sample_value (Some "ik"%string) 10
          = Ok (db_rejected, R_UpdatePromise 1)) as Hupd by reflexivity.
  split; [exact Hwf|]. split; [exact Hupd|].
  destruct (update_promise_compare_and_set (E := sample_env) _ _ _ _ _ _ _ _ _ Hwf Hupd)
    as [(headers & data & _ & _ & Hsame & _) Hco].
  split; [exact Hsame|].
  destruct (Hco (coroutines.default_value reject_p1) (promise_of pending_p1) 10 11
                [R_CreateNotifications 1; R_DeleteSubscriptions 1])
    as (_ & _ & Hcreated & _).
  exact Hcreated.
Defined.

(** ** TimeoutPromises *)

Section TimeoutPromises.

Lemma set_timedout_columns (r : PromiseRecord.t) :
  PromiseRecord.State (set_timedout r) = promise.Timedout
  /\ PromiseRecord.CompletedOn (set_timedout r) = Some (PromiseRecord.Timeout r)
  /\ same_but_state_and_completed_on r (set_timedout r).
Proof.
  unfold same_but_state_and_completed_on. simpl. repeat split; reflexivity.
Qed.

(** C2. TimeoutPromises(t) with t >= 0 goes through and, row by row, turns a
    record that is Pending with timeout <= t into one with state Timedout
    (stored as 8) and completed_on equal to its own timeout, leaves every
    other record as it is, and reports as rowsAffected the number of records
    it turned. *)
Theorem timeout_promises_updates_due_pending (tx : DB) (t : Z) :
  0 <= t ->
  exists tx',
    timeoutPromises None tx t
    = Ok (tx', R_TimeoutPromises
                 (Z.of_nat (List.length
                    (filter (fun r => (PromiseRecord.State r =? promise.Pending)
                                      && (PromiseRecord.Timeout r <=? t))
                            (promises tx)))))
    /\ same_other_tables tx tx'
    /\ List.length (promises tx') = List.length (promises tx)
    /\ promise.Timedout = 8
    /\ forall i r, nth_error (promises tx) i = Some r ->
         exists r', nth_error (promises tx') i = Some r'
           /\ (PromiseRecord.State r = promise.Pending /\ PromiseRecord.Timeout r <= t ->
               PromiseRecord.State r' = promise.Timedout
               /\ PromiseRecord.CompletedOn r' = Some (PromiseRecord.Timeout r)
               /\ same_but_state_and_completed_on r r')
           /\ (~ (PromiseRecord.State r = promise.Pending /\ PromiseRecord.Timeout r <= t) ->
               r' = r).
Proof.
  intros Ht.
  exists (set_promises tx
            (map (fun r => if pending_and_due t r then set_timedout r else r)
                 (promises tx))).
  split.
  { unfold timeoutPromises, Assert.
    replace (0 <=? t) with true by (symmetry; apply Z.leb_le; exact Ht).
    reflexivity. }
  split; [apply set_promises_others|].
  split; [simpl; apply length_map|].
  split; [reflexivity|].
  intros i r Hi. simpl.
  exists (if pending_and_due t r then set_timedout r else r).
  split.
  { rewrite nth_error_map, Hi. reflexivity. }
  unfold pending_and_due, promise.Pending. split.
  - intros [Hs Hd].
    replace (PromiseRecord.State r =? 1) with true by (symmetry; apply Z.eqb_eq; exact Hs).
    replace (PromiseRecord.Timeout r <=? t) with true by (symmetry; apply Z.leb_le; exact Hd).
    simpl. apply set_timedout_columns.
  - intros Hnot.
    destruct (Z.eqb_spec (PromiseRecord.State r) 1) as [Hs|Hs]; simpl; [|reflexivity].
    destruct (Z.leb_spec (PromiseRecord.Timeout r) t) as [Hd|Hd]; [|reflexivity].
    exfalso. apply Hnot. split; assumption.
Qed.

End TimeoutPromises.

Lemma timeout_promises_updates_due_pending_witness :
  0 <= 150
  /\ exists tx',
       timeoutPromises None db_three 150
       = Ok (tx', R_TimeoutPromises 1).
Proof.
  assert (0 <= 150) as Ht by lia.
  split; [exact Ht|].
  destruct (timeout_promises_updates_due_pending db_three 150 Ht)
    as (tx' & Hrun & _).
  exists tx'. exact Hrun.
Defined.

(** ** The coroutines after the read *)

Section AfterRead.
Context `{E : Env}.

(** The transaction of the read leaves the database as it is. *)
Lemma read_transaction_reads_only (d : Driver) (db : DB) (id : string) :
  fst (Execute d db [Transaction.mk [ReadPromise id]]) = db.
Proof.
  unfold Execute, performCommands. simpl.
  destruct (begin_fault d); [reflexivity|].
  destruct (prepare_fault d); simpl; [destruct (rollback_fault d); reflexivity|].
  destruct (command_fault d 0 0); simpl;
    [destruct (rollback_fault d); reflexivity|].
  destruct (commit_fault d); reflexivity.
Qed.

(** C3. RejectPromise on a promise that the read finds completed yields
    nothing more: after the read, whose transaction writes nothing, it
    responds at once, with the stored promise as it is; the status is 200 OK
    exactly when the stored
    idempotencyKeyForComplete matches the request's key and (strict is false
    or the stored state is Rejected), and 403 Forbidden otherwise. *)
Theorem reject_completed_promise_status
  (r0 : RejectPromiseRequest.t) (now : Z) (record : PromiseRecord.t)
  (p : Promise.t) :
  PromiseRecord_Promise record = Ok p ->
  Promise.State p <> promise.Pending ->
  exists status,
    coroutines.RejectPromise (Req_RejectPromise r0)
    = Yield (read_submission (RejectPromiseRequest.Id r0))
            (coroutines.RejectPromise_read (coroutines.default_value r0))
    /\ coroutines.RejectPromise_read (coroutines.default_value r0) now
         (read_completion record) None
       = Respond (Some (Res_RejectPromise status (Some p))) None
    /\ (status = ResponseOK <->
        Match (Promise.IdempotencyKeyForComplete p)
              (RejectPromiseRequest.IdempotencyKey r0) = true
        /\ (RejectPromiseRequest.Strict r0 = false
            \/ Promise.State p = promise.Rejected))
    /\ (status <> ResponseOK -> status = ResponseForbidden)
    /\ status_code ResponseOK = 200 /\ status_code ResponseForbidden = 403
    /\ read_submission (RejectPromiseRequest.Id r0)
       = StoreSubmission (Transaction.mk [ReadPromise (RejectPromiseRequest.Id r0)])
    /\ (forall d db,
          fst (Execute d db
                 [Transaction.mk [ReadPromise (RejectPromiseRequest.Id r0)]])
          = db).
Proof.
  intros Hp Hst.
  exists (coroutines.completed_status (coroutines.default_value r0) p).
  split; [reflexivity|]. split.
  { unfold coroutines.RejectPromise_read, read_completion. simpl.
    rewrite Hp. simpl.
    destruct (Z.eqb_spec (Promise.State p) promise.Pending) as [Heq|Hne];
      [contradiction | reflexivity]. }
  unfold coroutines.completed_status. simpl.
  destruct (RejectPromiseRequest.Strict r0);
    destruct (Z.eqb_spec (Promise.State p) promise.Rejected) as [Hr|Hr];
    destruct (Match (Promise.IdempotencyKeyForComplete p)
                    (RejectPromiseRequest.IdempotencyKey r0));
    simpl; repeat split; try reflexivity; try discriminate; try tauto;
    intros; try apply read_transaction_reads_only;
    try discriminate; try tauto; intuition discriminate.
Qed.

(** C5. ReadPromise on a promise that the read finds: if it is Pending and
    Time() >= its timeout, the coroutine adds TimeoutPromise to the scheduler
    (with itself as the retry) and responds only from the callback it hands
    over: when TimeoutPromise reports no error, 200 OK with a snapshot of the
    promise whose state is Timedout, whose completedOn is the promise's
    timeout and whose value has empty headers and no data; when it reports
    an error, that error and no response.  Otherwise it responds 200 OK with
    the stored promise as it is. *)
Theorem read_promise_times_out_lazily
  (r : ReadPromiseRequest.t) (now : Z) (record : PromiseRecord.t) (p : Promise.t) :
  PromiseRecord_Promise record = Ok p ->
  coroutines.ReadPromise (Req_ReadPromise r)
  = Yield (StoreSubmission
             (Transaction.mk [ReadPromise (ReadPromiseRequest.Id r)]))
          (coroutines.ReadPromise_read (Req_ReadPromise r))
  /\ (Promise.State p = promise.Pending /\ Promise.Timeout p <= now ->
      exists res snapshot,
        coroutines.ReadPromise_read (Req_ReadPromise r) now (read_completion record) None
        = Add (Co_TimeoutPromise p (Co_ReadPromise (Req_ReadPromise r)) res)
        /\ res None = Respond (Some (Res_ReadPromise ResponseOK (Some snapshot))) None
        /\ (forall err, res (Some err) = Respond None (Some err))
        /\ snapshot
           = Promise.mk (Promise.Id p) promise.Timedout (Promise.Param p)
               (Value.mk (Some []) None) (Promise.Timeout p)
               (Promise.IdempotencyKeyForCreate p)
               (Promise.IdempotencyKeyForComplete p) (Promise.Tags p)
               (Promise.CreatedOn p) (Some (Promise.Timeout p))
        /\ Promise.State snapshot = promise.Timedout
        /\ Promise.CompletedOn snapshot = Some (Promise.Timeout p)
        /\ Promise.Id snapshot = Promise.Id p
        /\ status_code ResponseOK = 200)
  /\ (Promise.State p <> promise.Pending \/ now < Promise.Timeout p ->
      coroutines.ReadPromise_read (Req_ReadPromise r) now (read_completion record) None
      = Respond (Some (Res_ReadPromise ResponseOK (Some p))) None).
Proof.
  intros Hp. split; [reflexivity|].
  unfold coroutines.ReadPromise_read, read_completion. simpl. rewrite Hp. simpl.
  split.
  - intros [Hs Ht].
    exists (coroutines.ReadPromise_timedout p), (timedout_snapshot p None).
    rewrite Hs. simpl.
    replace (Promise.Timeout p <=? now) with true
      by (symmetry; apply Z.leb_le; exact Ht).
    repeat split; reflexivity.
  - intros [Hs|Ht].
    + destruct (Z.eqb_spec (Promise.State p) promise.Pending) as [Heq|Hne];
        [contradiction | reflexivity].
    + replace (Promise.Timeout p <=? now) with false
        by (symmetry; apply Z.leb_gt; exact Ht).
      rewrite andb_false_r. reflexivity.
Qed.

(** C6. RejectPromise on a promise that the read finds Pending with
    Time() >= its timeout does not yield the rejecting transaction: it adds
    TimeoutPromise to the scheduler, giving it a new RejectPromise of the
    same request as the coroutine to retry with, and, when TimeoutPromise
    reports no error, responds 403 Forbidden with a snapshot whose state is
    Timedout, whose completedOn is the promise's timeout and whose value has
    empty headers and empty data. *)
Theorem reject_due_promise_times_out
  (r0 : RejectPromiseRequest.t) (now : Z) (record : PromiseRecord.t) (p : Promise.t) :
  PromiseRecord_Promise record = Ok p ->
  Promise.State p = promise.Pending ->
  Promise.Timeout p <= now ->
  exists res snapshot,
    coroutines.RejectPromise (Req_RejectPromise r0)
    = Yield (read_submission (RejectPromiseRequest.Id r0))
            (coroutines.RejectPromise_read (coroutines.default_value r0))
    /\ coroutines.RejectPromise_read (coroutines.default_value r0) now
         (read_completion record) None
       = Add (Co_TimeoutPromise p
                (Co_RejectPromise (Req_RejectPromise (coroutines.default_value r0)))
                res)
    /\ coroutines.body
         (Co_RejectPromise (Req_RejectPromise (coroutines.default_value r0)))
       = Some (coroutines.RejectPromise (Req_RejectPromise r0))
    /\ res None = Respond (Some (Res_RejectPromise ResponseForbidden (Some snapshot))) None
    /\ (forall err, res (Some err) = Respond None (Some err))
    /\ status_code ResponseForbidden = 403
    /\ Promise.State snapshot = promise.Timedout
    /\ Promise.CompletedOn snapshot = Some (Promise.Timeout p)
    /\ Promise.Value snapshot = Value.mk (Some []) (Some [])
    /\ Promise.Id snapshot = Promise.Id p.
Proof.
  intros Hp Hs Ht.
  exists (coroutines.RejectPromise_timedout p), (timedout_snapshot p (Some [])).
  split; [reflexivity|]. split.
  { unfold coroutines.RejectPromise_read, read_completion. simpl.
    rewrite Hp. simpl. rewrite Hs. simpl.
    replace (Promise.Timeout p <=? now) with true
      by (symmetry; apply Z.leb_le; exact Ht).
    reflexivity. }
  split.
  { simpl. destruct r0 as [id ik strict [h d]]. reflexivity. }
  repeat split; reflexivity.
Qed.

End AfterRead.

Lemma reject_completed_promise_status_witness :
  PromiseRecord_Promise (Env := sample_env) resolved_p3 = Ok (promise_of resolved_p3)
  /\ Promise.State (promise_of resolved_p3) <> promise.Pending
  /\ exists status,
       coroutines.RejectPromise_read (E := sample_env)
         (coroutines.default_value reject_p1) 60 (read_completion resolved_p3) None
       = Respond (Some (Res_RejectPromise status (Some (promise_of resolved_p3)))) None.
Proof.
  assert (PromiseRecord_Promise (Env := sample_env) resolved_p3
          = Ok (promise_of resolved_p3)) as Hp by reflexivity.
  assert (Promise.State (promise_of resolved_p3) <> promise.Pending) as Hs
    by (simpl; discriminate).
  split; [exact Hp|]. split; [exact Hs|].
  destruct (reject_completed_promise_status (E := sample_env) reject_p1 60
              resolved_p3 (promise_of resolved_p3) Hp Hs)
    as (status & _ & Hrun & _).
  exists status. exact Hrun.
Defined.

Lemma read_promise_times_out_lazily_witness :
  PromiseRecord_Promise (Env := sample_env) pending_p1 = Ok (promise_of pending_p1)
  /\ (exists res,
        coroutines.ReadPromise_read (E := sample_env)
          (Req_ReadPromise (ReadPromiseRequest.mk "p1")) 150
          (read_completion pending_p1) None
        = Add (Co_TimeoutPromise (promise_of pending_p1)
                 (Co_ReadPromise (Req_ReadPromise (ReadPromiseRequest.mk "p1")))
                 res)
        /\ res None
           = Respond (Some (Res_ReadPromise ResponseOK
                              (Some (Promise.mk "p1" promise.Timedout
                                       (Value.mk (Some []) (Some []))
                                       (Value.mk (Some []) None) 100 None None
                                       (Some []) (Some 0) (Some 100)))))
                     None
        /\ res (Some "disk I/O error"%string)
           = Respond None (Some "disk I/O error"%string))
  /\ coroutines.ReadPromise_read (E := sample_env)
       (Req_ReadPromise (ReadPromiseRequest.mk "p1")) 50 (read_completion pending_p1) None
     = Respond (Some (Res_ReadPromise ResponseOK (Some (promise_of pending_p1)))) None.
Proof.
  assert (PromiseRecord_Promise (Env := sample_env) pending_p1
          = Ok (promise_of pending_p1)) as Hp by reflexivity.
  split; [exact Hp|]. split.
  - destruct (read_promise_times_out_lazily (E := sample_env)
                (ReadPromiseRequest.mk "p1") 150 pending_p1 (promise_of pending_p1) Hp)
      as (_ & Hdue & _).
    destruct Hdue as (res & snapshot & Hrun & Hok & Herr & Hsnap & _).
    + split; [reflexivity | simpl; lia].
    + exists res. split; [exact Hrun|]. split; [|apply Herr].
      rewrite Hok, Hsnap. reflexivity.
  - destruct (read_promise_times_out_lazily (E := sample_env)
                (ReadPromiseRequest.mk "p1") 50 pending_p1 (promise_of pending_p1) Hp)
      as (_ & _ & Hstored).
    apply Hstored. right. simpl. lia.
Defined.

Lemma reject_due_promise_times_out_witness :
  PromiseRecord_Promise (Env := sample_env) pending_p1 = Ok (promise_of pending_p1)
  /\ Promise.State (promise_of pending_p1) = promise.Pending
  /\ Promise.Timeout (promise_of pending_p1) <= 150
  /\ exists res,
       coroutines.RejectPromise_read (E := sample_env)
         (coroutines.default_value reject_p1) 150 (read_completion pending_p1) None
       = Add (Co_TimeoutPromise (promise_of pending_p1)
                (Co_RejectPromise (Req_RejectPromise (coroutines.default_value reject_p1)))
                res).
Proof.
  assert (PromiseRecord_Promise (Env := sample_env) pending_p1
          = Ok (promise_of pending_p1)) as Hp by reflexivity.
  assert (Promise.State (promise_of pending_p1) = promise.Pending) as Hs
    by reflexivity.
  assert (Promise.Timeout (promise_of pending_p1) <= 150) as Ht by (simpl; lia).
  split; [exact Hp|]. split; [exact Hs|]. split; [exact Ht|].
  destruct (reject_due_promise_times_out (E := sample_env) reject_p1 150
              pending_p1 (promise_of pending_p1) Hp Hs Ht)
    as (res & snapshot & _ & Hrun & _).
  exists res. exact Hrun.
Defined.

(** ** The value of the request is never nil at the store *)

Section ValueNotNil.
Context `{E : Env}.

Ltac case_split :=
  match goal with
  | |- context [match ?x with _ => _ end] => destruct x eqn:?; simpl
  end.

Lemma read_submission_no_update (id : string) :
  update_values_not_nil (read_submission id).
Proof.
  simpl. intros Id State Value IdempotencyKey CompletedOn [Hin|[]]. discriminate.
Qed.

Lemma reject_submission_not_nil (r0 : RejectPromiseRequest.t) (completedOn : Z) :
  update_values_not_nil
    (coroutines.reject_submission (coroutines.default_value r0) completedOn).
Proof.
  simpl. intros Id State Value IdempotencyKey CompletedOn [Hin|[Hin|[Hin|[]]]];
    try discriminate.
  inversion Hin; subst. simpl. split; discriminate.
Qed.

Lemma RejectPromise_updated_leaf (P : Submission -> Prop)
  (r : RejectPromiseRequest.t) (p : Promise.t) (completedOn now : Z)
  (completion : option Completion.t) (err : option Error) :
  all_submissions P (coroutines.RejectPromise_updated r p completedOn now completion err).
Proof.
  unfold coroutines.RejectPromise_updated, first_result, Assert.
  repeat (simpl; try exact I; case_split).
  all: exact I.
Qed.

Lemma RejectPromise_read_not_nil (r0 : RejectPromiseRequest.t) (now : Z)
  (completion : option Completion.t) (err : option Error) :
  all_submissions update_values_not_nil
    (coroutines.RejectPromise_read (coroutines.default_value r0) now completion err).
Proof.
  unfold coroutines.RejectPromise_read.
  destruct err as [e|]; [exact I|].
  destruct (first_result completion) as [res| |]; simpl; try exact I.
  destruct res; simpl; try exact I.
  unfold Assert.
  destruct ((QueryPromisesResult.RowsReturned r =? 0)
            || (QueryPromisesResult.RowsReturned r =? 1)); simpl; [|exact I].
  destruct (QueryPromisesResult.RowsReturned r =? 0); simpl; [exact I|].
  destruct (first_record r) as [record| |]; simpl; try exact I.
  destruct (PromiseRecord_Promise record) as [p| |]; simpl; try exact I.
  destruct (Promise.State p =? promise.Pending); simpl; [|exact I].
  destruct (Promise.Timeout p <=? now); simpl.
  - split; [exact I|]. intros [e|]; exact I.
  - split; [apply reject_submission_not_nil|].
    intros now' completion' err'. apply RejectPromise_updated_leaf.
Qed.

(** C10. RejectPromise first replaces nil headers and nil data of the
    request's value, so that, for every request and however the coroutine is
    resumed, each UpdatePromise command it submits has headers and data that
    are not nil; on such a command the two assertions of updatePromise on the
    value pass: the method behaves as its remainder, the assertion on the
    state followed by the statement. *)
Theorem reject_promise_value_never_nil (req : Request) :
  all_submissions update_values_not_nil (coroutines.RejectPromise req)
  /\ (forall r0 callback,
        coroutines.RejectPromise (Req_RejectPromise r0)
        = Yield (read_submission (RejectPromiseRequest.Id r0)) callback ->
        callback = coroutines.RejectPromise_read (coroutines.default_value r0)
        /\ Value.Headers (RejectPromiseRequest.Value (coroutines.default_value r0))
           = Some (match Value.Headers (RejectPromiseRequest.Value r0) with
                   | Some headers => headers
                   | None => []
                   end)
        /\ Value.Data (RejectPromiseRequest.Value (coroutines.default_value r0))
           = Some (match Value.Data (RejectPromiseRequest.Value r0) with
                   | Some data => data
                   | None => []
                   end))
  /\ (forall Id State Value IdempotencyKey CompletedOn fault tx,
        Value.Headers Value <> None /\ Value.Data Value <> None ->
        Assert (negb (is_nil (Value.Headers Value))) "value headers must not be nil"
        = Ok tt
        /\ Assert (negb (is_nil (Value.Data Value))) "value data must not be nil"
           = Ok tt
        /\ updatePromise fault tx Id State Value IdempotencyKey CompletedOn
           = (_ <- Assert (promise.In State
                             (Z.lor (Z.lor (Z.lor promise.Resolved promise.Rejected)
                                           promise.Canceled) promise.Timedout))
                          "state must be canceled, resolved, rejected, or timedout" ;;
              headers <- json_Marshal (deref (Value.Headers Value) []) ;;
              _ <- driver fault ;;
              let '(tx', rowsAffected) :=
                PROMISE_UPDATE_STATMENT State headers (deref (Value.Data Value) [])
                  IdempotencyKey CompletedOn Id tx in
              Ok (tx', R_UpdatePromise rowsAffected))).
Proof.
  split; [|split].
  - destruct req as [r|r0]; simpl; [exact I|].
    split; [apply read_submission_no_update|].
    intros now completion err. apply RejectPromise_read_not_nil.
  - intros r0 callback Heq. simpl in Heq. inversion Heq; subst.
    simpl. repeat split; reflexivity.
  - intros Id State Value IdempotencyKey CompletedOn fault tx [Hh Hd].
    unfold updatePromise.
    destruct (Value.Headers Value) as [h|]; [|contradiction].
    destruct (Value.Data Value) as [d|]; [|contradiction].
    simpl. repeat split.
Qed.

End ValueNotNil.

(** ** Execute: one database transaction for the whole call *)

Section Atomicity.
Context `{E : Env}.

Lemma performTransaction_app (d : Driver) (i : nat) (pre rest : list Command) :
  forall (j : nat) (tx : DB),
    performTransaction d i j tx (pre ++ rest)
    = ('(tx', r1) <- performTransaction d i j tx pre ;;
       '(tx'', r2) <- performTransaction d i (j + List.length pre) tx' rest ;;
       Ok (tx'', r1 ++ r2)).
Proof.
  induction pre as [|c pre IH]; intros j tx; simpl.
  - rewrite Nat.add_0_r.
    destruct (performTransaction d i j tx rest) as [[tx' r]| |]; reflexivity.
  - destruct (performCommand (command_fault d i j) tx c) as [[tx1 r1]| |];
      simpl; try reflexivity.
    rewrite IH. rewrite <- Nat.add_succ_comm.
    destruct (performTransaction d i (S j) tx1 pre) as [[tx2 r2]| |];
      simpl; try reflexivity.
    destruct (performTransaction d i _ tx2 rest) as [[tx3 r3]| |]; reflexivity.
Qed.

Lemma performTransactions_app (d : Driver) (pre rest : list Transaction.t) :
  forall (i : nat) (tx : DB),
    performTransactions d i tx (pre ++ rest)
    = ('(tx', r1) <- performTransactions d i tx pre ;;
       '(tx'', r2) <- performTransactions d (i + List.length pre) tx' rest ;;
       Ok (tx'', r1 ++ r2)).
Proof.
  induction pre as [|t pre IH]; intros i tx; simpl.
  - rewrite Nat.add_0_r.
    destruct (performTransactions d i tx rest) as [[tx' r]| |]; reflexivity.
  - destruct (Assert _ _) as [u| |]; simpl; try reflexivity.
    destruct (performTransaction d i 0 tx (Transaction.Commands t))
      as [[tx1 r1]| |]; simpl; try reflexivity.
    rewrite IH. rewrite <- Nat.add_succ_comm.
    destruct (performTransactions d (S i) tx1 pre) as [[tx2 r2]| |];
      simpl; try reflexivity.
    destruct (performTransactions d _ tx2 rest) as [[tx3 r3]| |]; reflexivity.
Qed.

(** A command that returns an error makes the loops return it. *)
Lemma failing_command_fails (d : Driver) (db tx1 tx2 : DB)
  (before after : list Transaction.t) (t : Transaction.t)
  (pre post : list Command) (command : Command)
  (res1 : list (list Result)) (res2 : list Result) (err : Error) :
  Transaction.Commands t = pre ++ command :: post ->
  performTransactions d 0 db before = Ok (tx1, res1) ->
  performTransaction d (List.length before) 0 tx1 pre = Ok (tx2, res2) ->
  performCommand (command_fault d (List.length before) (List.length pre)) tx2 command
  = Err err ->
  performTransactions d 0 db (before ++ t :: after) = Err err.
Proof.
  intros Hc Hbefore Hpre Hcmd.
  rewrite performTransactions_app, Hbefore. simpl.
  rewrite Hc, length_app. simpl.
  replace (0 <? Z.of_nat (List.length pre + S (List.length post))) with true
    by (symmetry; apply Z.ltb_lt; lia).
  simpl. rewrite performTransaction_app, Hpre. simpl. rewrite Hcmd. reflexivity.
Qed.

Lemma performTransaction_results (d : Driver) (i : nat) (commands : list Command) :
  forall (j : nat) (tx tx' : DB) (results : list Result),
    performTransaction d i j tx commands = Ok (tx', results) ->
    List.length results = List.length commands.
Proof.
  induction commands as [|c commands IH]; intros j tx tx' results H; simpl in H.
  - inversion H; reflexivity.
  - invert_bind H. destruct a as [tx1 r1]. invert_bind H. destruct a as [tx2 r2].
    inversion H; subst. simpl. f_equal. eapply IH; eassumption.
Qed.

Lemma performTransactions_results (d : Driver) (transactions : list Transaction.t) :
  forall (i : nat) (tx tx' : DB) (results : list (list Result)),
    performTransactions d i tx transactions = Ok (tx', results) ->
    results_match transactions results.
Proof.
  induction transactions as [|t transactions IH]; intros i tx tx' results H;
    simpl in H.
  - inversion H; constructor.
  - invert_bind H. invert_bind H. destruct a0 as [tx1 r1].
    invert_bind H. destruct a0 as [tx2 r2]. inversion H; subst.
    constructor.
    + eapply performTransaction_results; eassumption.
    + eapply IH; eassumption.
Qed.

(** [Execute] either commits the effect of every command, or leaves the
    database as it was and returns no results. *)
Lemma Execute_commits_or_keeps (d : Driver) (db db' : DB)
  (transactions : list Transaction.t) (out : outcome (list (list Result))) :
  Execute d db transactions = (db', out) ->
  (exists results,
     out = Ok results
     /\ begin_fault d = None /\ prepare_fault d = None /\ commit_fault d = None
     /\ performTransactions d 0 db transactions = Ok (db', results)
     /\ results_match transactions results)
  \/ (db' = db /\ forall results, out <> Ok results).
Proof.
  unfold Execute, performCommands. intros H.
  destruct (negb (0 <? Z.of_nat (List.length transactions)));
    [inversion H; right; split; [reflexivity | discriminate]|].
  destruct (begin_fault d);
    [inversion H; right; split; [reflexivity | discriminate]|].
  destruct (prepare_fault d); simpl in H.
  { destruct (rollback_fault d); inversion H; right;
      (split; [reflexivity | discriminate]). }
  destruct (performTransactions d 0 db transactions) as [[tx results]| |] eqn:Hp.
  - destruct (commit_fault d).
    + inversion H; right; split; [reflexivity | discriminate].
    + inversion H; subst. left. exists results.
      repeat split; try reflexivity.
      eapply performTransactions_results; eassumption.
  - destruct (rollback_fault d); inversion H; right;
      (split; [reflexivity | discriminate]).
  - inversion H; right; split; [reflexivity | discriminate].
Qed.

End Atomicity.

Section ExecuteAtomic.
Context `{E : Env}.

(** C7, as the code has it.  One [Execute] runs the commands of all its
    transactions in a single database transaction.  It returns results only
    if BeginTx, every command and Commit succeeded, and then the database is
    the one the commands produced in order, with one result per command; in
    every other case it returns no results and the database is as before.
    If a command returns an error, Execute returns an error and no results
    and the database is unchanged: the error is the command's when Rollback
    succeeds, and Rollback's own error when Rollback fails.  RejectPromise
    submits UpdatePromise, CreateNotifications and DeleteSubscriptions as one
    transaction, so either all three are applied, in this order, or none. *)
Theorem execute_all_or_nothing (d : Driver) (db : DB)
  (transactions : list Transaction.t) :
  (forall db' out,
     Execute d db transactions = (db', out) ->
     (exists results,
        out = Ok results
        /\ begin_fault d = None /\ prepare_fault d = None /\ commit_fault d = None
        /\ performTransactions d 0 db transactions = Ok (db', results)
        /\ results_match transactions results)
     \/ (db' = db /\ forall results, out <> Ok results))
  /\ (forall before t after pre command post tx1 res1 tx2 res2 err,
        transactions = before ++ t :: after ->
        Transaction.Commands t = pre ++ command :: post ->
        begin_fault d = None ->
        prepare_fault d = None ->
        performTransactions d 0 db before = Ok (tx1, res1) ->
        performTransaction d (List.length before) 0 tx1 pre = Ok (tx2, res2) ->
        performCommand (command_fault d (List.length before) (List.length pre))
                       tx2 command = Err err ->
        Execute d db transactions
        = (db, Err (match rollback_fault d with
                    | Some err' => err'
                    | None => err
                    end)))
  /\ (forall tx results,
        transactions <> [] ->
        begin_fault d = None -> prepare_fault d = None -> commit_fault d = None ->
        performTransactions d 0 db transactions = Ok (tx, results) ->
        Execute d db transactions = (tx, Ok results))
  /\ (forall r completedOn,
        coroutines.reject_submission r completedOn
        = StoreSubmission (Transaction.mk
            [ UpdatePromise (RejectPromiseRequest.Id r) promise.Rejected
                (RejectPromiseRequest.Value r)
                (RejectPromiseRequest.IdempotencyKey r) completedOn;
              CreateNotifications (RejectPromiseRequest.Id r) completedOn;
              DeleteSubscriptions (RejectPromiseRequest.Id r) ])
        /\ forall db' out,
             Execute d db
               [Transaction.mk
                  [ UpdatePromise (RejectPromiseRequest.Id r) promise.Rejected
                      (RejectPromiseRequest.Value r)
                      (RejectPromiseRequest.IdempotencyKey r) completedOn;
                    CreateNotifications (RejectPromiseRequest.Id r) completedOn;
                    DeleteSubscriptions (RejectPromiseRequest.Id r) ]]
             = (db', out) ->
             (db' = db /\ forall results, out <> Ok results)
             \/ (exists tx1 tx2 r1 r2 r3,
                   updatePromise (command_fault d 0 0) db (RejectPromiseRequest.Id r)
                     promise.Rejected (RejectPromiseRequest.Value r)
                     (RejectPromiseRequest.IdempotencyKey r) completedOn
                   = Ok (tx1, r1)
                   /\ createNotifications (command_fault d 0 1) tx1
                        (RejectPromiseRequest.Id r) completedOn
                      = Ok (tx2, r2)
                   /\ deleteSubscriptions (command_fault d 0 2) tx2
                        (RejectPromiseRequest.Id r)
                      = Ok (db', r3)
                   /\ out = Ok [[r1; r2; r3]])).
Proof.
  split; [|split; [|split]].
  - intros db' out. apply Execute_commits_or_keeps.
  - intros before t after pre command post tx1 res1 tx2 res2 err
           Ht Hc Hb Hp Hbefore Hpre Hcmd.
    unfold Execute, performCommands. subst transactions.
    rewrite length_app. simpl.
    replace (0 <? Z.of_nat (List.length before + S (List.length after))) with true
      by (symmetry; apply Z.ltb_lt; lia).
    simpl. rewrite Hb, Hp. simpl.
    rewrite (failing_command_fails d db tx1 tx2 before after t pre post command
               res1 res2 err Hc Hbefore Hpre Hcmd).
    destruct (rollback_fault d); reflexivity.
  - intros tx results Hne Hb Hp Hc Hrun.
    unfold Execute, performCommands.
    destruct transactions as [|t ts]; [contradiction|].
    replace (0 <? Z.of_nat (List.length (t :: ts))) with true
      by (symmetry; apply Z.ltb_lt; simpl List.length; lia).
    rewrite Hb, Hp. unfold driver. unfold bind at 1. cbv beta iota.
    rewrite Hrun, Hc. reflexivity.
  - intros r completedOn. split; [reflexivity|].
    intros db' out Hex.
    apply Execute_commits_or_keeps in Hex.
    destruct Hex as [(results & Hout & _ & _ & _ & Hrun & _)|Hnothing];
      [|left; exact Hnothing].
    right.
    cbn [performTransactions performTransaction performCommand
         Transaction.Commands] in Hrun.
    invert_run.
    do 5 eexists. repeat split; eassumption.
Qed.

End ExecuteAtomic.

(** The error of a failing command is not always the one that Execute
    returns: when Rollback fails as well, Execute returns Rollback's error. *)
Lemma execute_returns_rollback_error :
  performCommand (E := sample_env) (command_fault failing_driver 0 0) db_pending
    (ReadPromise "p1")
  = Err "disk I/O error"%string
  /\ Execute (E := sample_env) failing_driver db_pending
       [Transaction.mk [ReadPromise "p1"]]
     = (db_pending, Err "cannot rollback"%string)
  /\ "cannot rollback"%string <> "disk I/O error"%string.
Proof.
  split; [reflexivity|]. split; [reflexivity|]. discriminate.
Qed.

(** ** Completion: notifications for the subscriptions, then their deletion *)

Section Notifications.

Lemma same_notif_key_spec (n m : NotificationRecord.t) :
  same_notif_key n m = true <-> notif_key m = notif_key n.
Proof.
  unfold same_notif_key, notif_key. rewrite andb_true_iff, !String.eqb_eq.
  split; [intros [H1 H2]; congruence | intros H; inversion H; auto].
Qed.

Lemma no_conflict (n : NotificationRecord.t) (rows : list NotificationRecord.t) :
  existsb (same_notif_key n) rows = false <->
  forall m, In m rows -> notif_key m <> notif_key n.
Proof.
  split.
  - intros Hex m Hm Hk.
    assert (existsb (same_notif_key n) rows = true) as Ht.
    { apply existsb_exists. exists m. split; [exact Hm|].
      apply same_notif_key_spec. exact Hk. }
    congruence.
  - intros Hall. destruct (existsb (same_notif_key n) rows) eqn:Hex; [|reflexivity].
    apply existsb_exists in Hex. destruct Hex as [m [Hm Hk]].
    apply same_notif_key_spec in Hk. exfalso. exact (Hall m Hm Hk).
Qed.

(** One insertion keeps the rows, adds at most the new row, and keeps the
    keys distinct. *)
Lemma insert_notification_rows (acc : list NotificationRecord.t * Z)
  (n : NotificationRecord.t) :
  (existsb (same_notif_key n) (fst acc) = true
   /\ insert_notification acc n = (fst acc, snd acc + 0))
  \/ (existsb (same_notif_key n) (fst acc) = false
      /\ insert_notification acc n = (fst acc ++ [n], snd acc + 1)).
Proof.
  unfold insert_notification, INSERT_OR_NOTHING.
  destruct (existsb (same_notif_key n) (fst acc)); [left | right]; split; reflexivity.
Qed.

Lemma insert_notifications_keeps (news : list NotificationRecord.t) :
  forall (acc : list NotificationRecord.t * Z) (m : NotificationRecord.t),
    In m (fst acc) -> In m (fst (fold_left insert_notification news acc)).
Proof.
  induction news as [|n news IH]; intros acc m Hm; simpl; [exact Hm|].
  apply IH.
  destruct (insert_notification_rows acc n) as [[_ ->]|[_ ->]]; simpl;
    [exact Hm | apply in_or_app; left; exact Hm].
Qed.

Lemma insert_notifications_NoDup (news : list NotificationRecord.t) :
  forall (acc : list NotificationRecord.t * Z),
    NoDup (map notif_key (fst acc)) ->
    NoDup (map notif_key (fst (fold_left insert_notification news acc))).
Proof.
  induction news as [|n news IH]; intros acc Hnd; simpl; [exact Hnd|].
  apply IH.
  destruct (insert_notification_rows acc n) as [[_ ->]|[Hnew ->]]; simpl;
    [exact Hnd|].
  rewrite map_app. simpl.
  rewrite (no_conflict n (fst acc)) in Hnew.
  assert (~ In (notif_key n) (map notif_key (fst acc))) as Hnotin.
  { intros Hin. apply in_map_iff in Hin. destruct Hin as [m [Hk Hm]].
    exact (Hnew m Hm Hk). }
  clear Hnew. induction (map notif_key (fst acc)) as [|k ks IHks]; simpl.
  - constructor; [intros [] | constructor].
  - inversion Hnd as [|? ? Hk Hks]; subst. constructor.
    + intros Hin. apply in_app_or in Hin. destruct Hin as [Hin|[Hin|[]]].
      * exact (Hk Hin).
      * apply Hnotin. left. symmetry. exact Hin.
    + apply IHks; [exact Hks|]. intros Hin. apply Hnotin. right. exact Hin.
Qed.

(** A new row whose key is free, among new rows of distinct keys, is
    inserted as it is. *)
Lemma insert_notifications_adds (news : list NotificationRecord.t) :
  forall (acc : list NotificationRecord.t * Z) (n : NotificationRecord.t),
    NoDup (map notif_key news) ->
    In n news ->
    (forall m, In m (fst acc) -> notif_key m <> notif_key n) ->
    In n (fst (fold_left insert_notification news acc)).
Proof.
  induction news as [|a news IH]; intros acc n Hnd Hn Hfree; simpl;
    [contradiction|].
  simpl in Hnd. inversion Hnd as [|? ? Ha Hnd']; subst.
  destruct Hn as [Heq|Hn].
  - subst a. apply insert_notifications_keeps.
    destruct (insert_notification_rows acc n) as [[Hold _]|[_ ->]]; simpl.
    + exfalso. apply existsb_exists in Hold. destruct Hold as [m [Hm Hk]].
      apply same_notif_key_spec in Hk. exact (Hfree m Hm Hk).
    + apply in_or_app. right. left. reflexivity.
  - apply IH; [exact Hnd' | exact Hn |].
    intros m Hm.
    destruct (insert_notification_rows acc a) as [[_ Hstep]|[_ Hstep]];
      rewrite Hstep in Hm; simpl in Hm.
    + apply Hfree. exact Hm.
    + apply in_app_or in Hm. destruct Hm as [Hm|[Hm|[]]].
      * apply Hfree. exact Hm.
      * subst m. intros Hk. apply Ha. rewrite Hk. apply in_map. exact Hn.
Qed.

(** Each new row finds a row of its key in the table afterwards. *)
Lemma insert_notifications_covers (news : list NotificationRecord.t) :
  forall (acc : list NotificationRecord.t * Z) (n : NotificationRecord.t),
    In n news ->
    exists n', In n' (fst (fold_left insert_notification news acc))
               /\ notif_key n' = notif_key n.
Proof.
  induction news as [|a news IH]; intros acc n Hn; simpl; [contradiction|].
  destruct Hn as [Heq|Hn]; [subst a | apply IH; exact Hn].
  destruct (insert_notification_rows acc n) as [[Hold Hstep]|[_ Hstep]];
    rewrite Hstep.
  - apply existsb_exists in Hold. destruct Hold as [m [Hm Hk]].
    apply same_notif_key_spec in Hk. exists m. split; [|exact Hk].
    apply insert_notifications_keeps. exact Hm.
  - exists n. split; [|reflexivity].
    apply insert_notifications_keeps. simpl. apply in_or_app. right. left.
    reflexivity.
Qed.

Lemma NoDup_key_eq (rows : list NotificationRecord.t) (n m : NotificationRecord.t) :
  NoDup (map notif_key rows) -> In n rows -> In m rows ->
  notif_key m = notif_key n -> m = n.
Proof.
  induction rows as [|x rows IH]; intros Hnd Hn Hm Hk; [contradiction|].
  simpl in Hnd. inversion Hnd as [|? ? Hx Hnd']; subst.
  destruct Hn as [Hn|Hn], Hm as [Hm|Hm]; subst.
  - reflexivity.
  - exfalso. apply Hx. rewrite <- Hk. apply in_map. exact Hm.
  - exfalso. apply Hx. rewrite Hk. apply in_map. exact Hn.
  - apply IH; assumption.
Qed.

(** When every new key is free and the new rows have different keys, all of
    them are inserted, in their order. *)
Lemma insert_notifications_all_new (news : list NotificationRecord.t) :
  forall acc : list NotificationRecord.t * Z,
    NoDup (map notif_key news) ->
    (forall n m, In n news -> In m (fst acc) -> notif_key m <> notif_key n) ->
    fold_left insert_notification news acc
    = (fst acc ++ news, snd acc + Z.of_nat (List.length news)).
Proof.
  induction news as [|n news IH]; intros acc Hnd Hfree.
  - simpl. rewrite app_nil_r, Z.add_0_r. destruct acc; reflexivity.
  - simpl fold_left. inversion Hnd as [|? ? Hn Hnd']; subst.
    destruct (insert_notification_rows acc n) as [[Hex _]|[_ Hins]].
    + exfalso. apply existsb_exists in Hex. destruct Hex as [m [Hm Hk]].
      apply same_notif_key_spec in Hk.
      exact (Hfree n m (or_introl eq_refl) Hm Hk).
    + rewrite Hins, IH.
      * cbn [fst snd]. rewrite <- app_assoc. simpl app.
        f_equal. simpl List.length. lia.
      * exact Hnd'.
      * cbn [fst]. intros n' m Hn' Hm. apply in_app_or in Hm.
        destruct Hm as [Hm|[<-|[]]].
        -- apply Hfree; [right; exact Hn' | exact Hm].
        -- intros Hk. apply Hn. rewrite Hk. apply in_map. exact Hn'.
Qed.

End Notifications.

Section RejectNotifies.
Context `{E : Env}.

Lemma NoDup_map_filter {K R} (key : R -> K) (keep : R -> bool) :
  forall rows : list R,
    NoDup (map key rows) -> NoDup (map key (filter keep rows)).
Proof.
  intros rows. induction rows as [|x rows IH]; simpl; intros Hnd; [constructor|].
  inversion Hnd as [|? ? Hx Hnd']; subst.
  destruct (keep x); simpl; [|apply IH; exact Hnd'].
  constructor; [|apply IH; exact Hnd'].
  intros Hin. apply Hx. apply in_map_iff in Hin. destruct Hin as [y [Hy Hin]].
  apply filter_In in Hin. rewrite <- Hy. apply in_map. tauto.
Qed.

Lemma updatePromise_frame (fault : option Error) (tx tx' : DB) (Id : string)
  (State : promise.State) (Value : Value.t)
  (IdempotencyKey : option promise.IdempotencyKey) (CompletedOn : Z)
  (result : Result) :
  updatePromise fault tx Id State Value IdempotencyKey CompletedOn = Ok (tx', result) ->
  same_other_tables tx tx'.
Proof.
  intros H. apply updatePromise_Ok in H.
  destruct H as (headers & data & _ & _ & Heq).
  unfold PROMISE_UPDATE_STATMENT in Heq.
  destruct (UPDATE _ _ (promises tx)) as [rows n].
  inversion Heq; subst. apply set_promises_others.
Qed.

Lemma createNotifications_Ok (fault : option Error) (tx tx' : DB)
  (PromiseId : string) (Time : Z) (result : Result) :
  createNotifications fault tx PromiseId Time = Ok (tx', result) ->
  subscriptions tx' = subscriptions tx
  /\ notifications tx'
     = fst (insert_notifications
              (map (notification_of Time)
                   (filter (fun s => String.eqb (SubscriptionRecord.PromiseId s)
                                                PromiseId)
                           (subscriptions tx)))
              (notifications tx)).
Proof.
  unfold createNotifications, NOTIFICATION_INSERT_STATEMENT. intros H.
  invert_bind H. invert_bind H.
  destruct (insert_notifications _ (notifications tx)) as [rows n].
  inversion H; subst. simpl. split; reflexivity.
Qed.

Lemma deleteSubscriptions_Ok (fault : option Error) (tx tx' : DB)
  (PromiseId : string) (result : Result) :
  deleteSubscriptions fault tx PromiseId = Ok (tx', result) ->
  notifications tx' = notifications tx
  /\ subscriptions tx'
     = filter (fun s => negb (String.eqb (SubscriptionRecord.PromiseId s) PromiseId))
              (subscriptions tx).
Proof.
  unfold deleteSubscriptions, SUBSCRIPTION_DELETE_ALL_STATEMENT, DELETE. intros H.
  invert_bind H. inversion H; subst. simpl. split; reflexivity.
Qed.

(** What the transaction does on any database with unique keys.  When it
    commits, no subscription of p remains (the other subscriptions are
    untouched), and for each subscription s of p that existed there is
    exactly one notification keyed (s.id, p).  That row is the one made of
    s, with attempt = 0 and time equal to the completion time, when no
    notification had this key before the transaction; a notification that
    already had the key is kept as it was, since the insertion is ON
    CONFLICT DO NOTHING. *)
Lemma reject_transaction_notifications (d : Driver) (db db' : DB)
  (results : list (list Result)) (r : RejectPromiseRequest.t) (completedOn : Z) :
  wf db ->
  Execute d db [reject_transaction r completedOn] = (db', Ok results) ->
  coroutines.reject_submission r completedOn
  = StoreSubmission (reject_transaction r completedOn)
  /\ (forall s, In s (subscriptions db') ->
                SubscriptionRecord.PromiseId s <> RejectPromiseRequest.Id r)
  /\ subscriptions db'
     = filter (fun s => negb (String.eqb (SubscriptionRecord.PromiseId s)
                                         (RejectPromiseRequest.Id r)))
              (subscriptions db)
  /\ NoDup (map notif_key (notifications db'))
  /\ (forall m, In m (notifications db) -> In m (notifications db'))
  /\ (forall s, In s (subscriptions db) ->
        SubscriptionRecord.PromiseId s = RejectPromiseRequest.Id r ->
        exists n,
          In n (notifications db')
          /\ notif_key n = (SubscriptionRecord.Id s, RejectPromiseRequest.Id r)
          /\ (forall n', In n' (notifications db') ->
                notif_key n' = (SubscriptionRecord.Id s, RejectPromiseRequest.Id r) ->
                n' = n)
          /\ ((forall m, In m (notifications db) ->
                 notif_key m <> (SubscriptionRecord.Id s, RejectPromiseRequest.Id r)) ->
              n = notification_of completedOn s
              /\ NotificationRecord.Attempt n = 0
              /\ NotificationRecord.Time n = completedOn)
          /\ (forall m, In m (notifications db) ->
                notif_key m = (SubscriptionRecord.Id s, RejectPromiseRequest.Id r) ->
                n = m)).
Proof.
  intros Hwf Hex. split; [reflexivity|].
  apply Execute_commits_or_keeps in Hex.
  destruct Hex as [(results' & Hout & _ & _ & _ & Hrun & _)|[_ Hno]];
    [|exfalso; exact (Hno results eq_refl)].
  cbn [performTransactions performTransaction performCommand
       Transaction.Commands reject_transaction] in Hrun.
  invert_run.
  match goal with
  | Hu : updatePromise _ _ _ _ _ _ _ = Ok _,
    Hc : createNotifications _ _ _ _ = Ok _,
    Hd : deleteSubscriptions _ _ _ = Ok _ |- _ =>
      apply updatePromise_frame in Hu;
      destruct Hu as (_ & _ & Hsubs1 & _ & Hnot1);
      apply createNotifications_Ok in Hc; destruct Hc as [Hsubs2 Hnot2];
      apply deleteSubscriptions_Ok in Hd; destruct Hd as [Hnot3 Hsubs3]
  end.
  rewrite Hsubs2, Hsubs1 in Hsubs3.
  rewrite Hnot2, Hsubs1, Hnot1 in Hnot3.
  set (id := RejectPromiseRequest.Id r) in *.
  set (selected := filter (fun s => String.eqb (SubscriptionRecord.PromiseId s) id)
                          (subscriptions db)) in *.
  set (news := map (notification_of completedOn) selected) in *.
  unfold insert_notifications in Hnot3.
  assert (NoDup (map notif_key news)) as Hnews.
  { unfold news. rewrite map_map.
    change (fun x => notif_key (notification_of completedOn x)) with sub_key.
    apply NoDup_map_filter. exact (wf_subscription_key _ Hwf). }
  assert (NoDup (map notif_key (notifications db'))) as Hnd.
  { rewrite Hnot3. apply insert_notifications_NoDup.
    exact (wf_notification_key _ Hwf). }
  split.
  { intros s Hs. rewrite Hsubs3 in Hs. apply filter_In in Hs.
    destruct Hs as [_ Hneq]. apply negb_true_iff in Hneq.
    apply String.eqb_neq in Hneq. exact Hneq. }
  split; [exact Hsubs3|]. split; [exact Hnd|]. split.
  { intros m Hm. rewrite Hnot3. apply insert_notifications_keeps. exact Hm. }
  intros s Hs Hp.
  assert (In (notification_of completedOn s) news) as Hin.
  { unfold news. apply in_map. unfold selected. apply filter_In.
    split; [exact Hs|]. apply String.eqb_eq. exact Hp. }
  assert (notif_key (notification_of completedOn s) = (SubscriptionRecord.Id s, id))
    as Hkey.
  { unfold notif_key, notification_of. simpl. rewrite Hp. reflexivity. }
  destruct (insert_notifications_covers news (notifications db, 0)
              (notification_of completedOn s) Hin) as [n [Hn Hk]].
  rewrite <- Hnot3 in Hn. rewrite Hkey in Hk.
  exists n. split; [exact Hn|]. split; [exact Hk|]. split.
  { intros n' Hn' Hk'. apply (NoDup_key_eq (notifications db')); try assumption.
    rewrite Hk, Hk'. reflexivity. }
  split.
  - intros Hfree.
    assert (In (notification_of completedOn s) (notifications db')) as Hnew.
    { rewrite Hnot3. apply insert_notifications_adds; try assumption.
      simpl. intros m Hm. rewrite Hkey. apply Hfree. exact Hm. }
    assert (n = notification_of completedOn s) as ->.
    { symmetry.
      apply (NoDup_key_eq (notifications db')); try assumption.
      rewrite Hk, Hkey. reflexivity. }
    repeat split; reflexivity.
  - intros m Hm Hkm. symmetry.
    apply (NoDup_key_eq (notifications db')); try assumption.
    + rewrite Hnot3. apply insert_notifications_keeps. exact Hm.
    + rewrite Hk, Hkm. reflexivity.
Qed.

(** The three commands of the transaction, one by one. *)
Lemma updatePromise_run (fault : option Error) (tx tx' : DB) (Id : string)
  (State : promise.State) (Value : Value.t)
  (IdempotencyKey : option promise.IdempotencyKey) (CompletedOn : Z)
  (result : Result) :
  updatePromise fault tx Id State Value IdempotencyKey CompletedOn = Ok (tx', result) ->
  exists headers data,
    promises tx'
    = map (fun x => if String.eqb (PromiseRecord.Id x) Id
                       && (PromiseRecord.State x =? 1)
                    then set_completed State headers data IdempotencyKey
                                       CompletedOn x
                    else x)
          (promises tx)
    /\ result
       = R_UpdatePromise
           (Z.of_nat (List.length
              (filter (fun x => String.eqb (PromiseRecord.Id x) Id
                                && (PromiseRecord.State x =? 1))
                      (promises tx)))).
Proof.
  intros H. apply updatePromise_Ok in H.
  destruct H as (headers & data & _ & _ & Heq).
  exists headers, data.
  unfold PROMISE_UPDATE_STATMENT, UPDATE in Heq.
  inversion Heq; subst. split; reflexivity.
Qed.

Lemma createNotifications_run (fault : option Error) (tx tx' : DB)
  (PromiseId : string) (Time : Z) (result : Result) :
  createNotifications fault tx PromiseId Time = Ok (tx', result) ->
  promises tx' = promises tx
  /\ result
     = R_CreateNotifications
         (snd (insert_notifications
                 (map (notification_of Time)
                      (filter (fun s => String.eqb (SubscriptionRecord.PromiseId s)
                                                   PromiseId)
                              (subscriptions tx)))
                 (notifications tx))).
Proof.
  unfold createNotifications, NOTIFICATION_INSERT_STATEMENT. intros H.
  invert_bind H. invert_bind H.
  destruct (insert_notifications _ (notifications tx)) as [rows n].
  inversion H; subst. simpl. split; reflexivity.
Qed.

Lemma deleteSubscriptions_run (fault : option Error) (tx tx' : DB)
  (PromiseId : string) (result : Result) :
  deleteSubscriptions fault tx PromiseId = Ok (tx', result) ->
  promises tx' = promises tx
  /\ result
     = R_DeleteSubscriptions
         (Z.of_nat (List.length
            (filter (fun s => String.eqb (SubscriptionRecord.PromiseId s) PromiseId)
                    (subscriptions tx)))).
Proof.
  unfold deleteSubscriptions, SUBSCRIPTION_DELETE_ALL_STATEMENT, DELETE. intros H.
  invert_bind H. inversion H; subst. simpl. split; reflexivity.
Qed.

(** Under the data model the subscriptions of a promise find their keys
    free: the promise is Pending, so it has no notification yet. *)
Lemma subscription_key_free (db : DB) (time : Z) (s : SubscriptionRecord.t)
  (m : NotificationRecord.t) :
  data_model db -> In s (subscriptions db) -> In m (notifications db) ->
  notif_key m <> notif_key (notification_of time s).
Proof.
  intros Hdm Hs Hm Hk.
  destruct (dm_subscription_pending _ Hdm s Hs) as (r & Hr & Hid & Hst).
  apply (dm_notification_completed _ Hdm m r Hm Hr); [|exact Hst].
  unfold notif_key, notification_of in Hk. simpl in Hk.
  inversion Hk as [[H1 H2]]. rewrite H2. exact Hid.
Qed.

(** The transaction on the view [tx] that it finds, at any place of a
    batch. *)
Lemma reject_transaction_step (d : Driver) (i : nat) (tx tx' : DB)
  (res : list Result) (r : RejectPromiseRequest.t) (completedOn : Z) :
  wf tx ->
  data_model tx ->
  performTransaction d i 0 tx (Transaction.Commands (reject_transaction r completedOn))
  = Ok (tx', res) ->
  (forall s, In s (subscriptions tx') ->
             SubscriptionRecord.PromiseId s <> RejectPromiseRequest.Id r)
  /\ subscriptions tx'
     = filter (fun s => negb (String.eqb (SubscriptionRecord.PromiseId s)
                                         (RejectPromiseRequest.Id r)))
              (subscriptions tx)
  /\ notifications tx'
     = notifications tx
       ++ map (notification_of completedOn)
              (filter (fun s => String.eqb (SubscriptionRecord.PromiseId s)
                                           (RejectPromiseRequest.Id r))
                      (subscriptions tx))
  /\ (forall s, In s (subscriptions tx) ->
        SubscriptionRecord.PromiseId s = RejectPromiseRequest.Id r ->
        exists n,
          In n (notifications tx')
          /\ n = NotificationRecord.mk (SubscriptionRecord.Id s)
                   (RejectPromiseRequest.Id r) (SubscriptionRecord.Url s)
                   (SubscriptionRecord.RetryPolicy s) completedOn 0
          /\ NotificationRecord.Attempt n = 0
          /\ NotificationRecord.Time n = completedOn
          /\ (forall n', In n' (notifications tx') ->
                notif_key n' = (SubscriptionRecord.Id s, RejectPromiseRequest.Id r) ->
                n' = n)
          /\ ~ In n (notifications tx))
  /\ (exists n,
        res
        = [R_UpdatePromise n;
           R_CreateNotifications
             (Z.of_nat (List.length
                (filter (fun s => String.eqb (SubscriptionRecord.PromiseId s)
                                             (RejectPromiseRequest.Id r))
                        (subscriptions tx))));
           R_DeleteSubscriptions
             (Z.of_nat (List.length
                (filter (fun s => String.eqb (SubscriptionRecord.PromiseId s)
                                             (RejectPromiseRequest.Id r))
                        (subscriptions tx))))]
        /\ ((exists s, In s (subscriptions tx)
                       /\ SubscriptionRecord.PromiseId s = RejectPromiseRequest.Id r) ->
            n = 1))
  /\ data_model tx'.
Proof.
  intros Hwf Hdm Hrun.
  cbn [performTransaction performCommand Transaction.Commands reject_transaction]
    in Hrun.
  invert_run.
  match goal with
  | Hu : updatePromise _ _ _ _ _ _ _ = Ok (?t1, _),
    Hc : createNotifications _ _ _ _ = Ok (?t2, _),
    Hd : deleteSubscriptions _ _ _ = Ok _ |- _ =>
      pose proof (updatePromise_frame _ _ _ _ _ _ _ _ _ Hu)
        as (_ & _ & Hsubs1 & _ & Hnot1);
      pose proof (createNotifications_Ok _ _ _ _ _ _ Hc) as [Hsubs2 Hnot2];
      pose proof (deleteSubscriptions_Ok _ _ _ _ _ Hd) as [Hnot3 Hsubs];
      apply updatePromise_run in Hu; destruct Hu as (headers & data & Hp1 & Hr1);
      apply createNotifications_run in Hc; destruct Hc as [Hp2 Hr2];
      apply deleteSubscriptions_run in Hd; destruct Hd as [Hp3 Hr3]
  end.
  rewrite Hsubs1, Hnot1 in Hnot2, Hr2. rewrite Hsubs2, Hsubs1 in Hr3, Hsubs.
  rewrite Hnot2 in Hnot3. rewrite Hp2, Hp1 in Hp3. subst.
  set (id := RejectPromiseRequest.Id r) in *.
  set (selected := filter (fun s => String.eqb (SubscriptionRecord.PromiseId s) id)
                          (subscriptions tx)) in *.
  assert (forall s, In s selected <->
                    In s (subscriptions tx) /\ SubscriptionRecord.PromiseId s = id)
    as Hsel.
  { intros s. unfold selected. rewrite filter_In, String.eqb_eq. reflexivity. }
  assert (insert_notifications (map (notification_of completedOn) selected)
            (notifications tx)
          = (notifications tx ++ map (notification_of completedOn) selected,
             Z.of_nat (List.length selected))) as Hins.
  { unfold insert_notifications.
    rewrite insert_notifications_all_new.
    - simpl. rewrite length_map. reflexivity.
    - rewrite map_map.
      change (fun x => notif_key (notification_of completedOn x)) with sub_key.
      apply NoDup_map_filter. exact (wf_subscription_key _ Hwf).
    - simpl. intros n m Hn Hm. apply in_map_iff in Hn.
      destruct Hn as [s [<- Hs]]. apply Hsel in Hs.
      apply (subscription_key_free tx); tauto. }
  assert (NoDup (map notif_key (notifications tx'))) as Hnd.
  { rewrite Hnot3. unfold insert_notifications.
    apply insert_notifications_NoDup. exact (wf_notification_key _ Hwf). }
  rewrite Hins in Hnot3. simpl in Hnot3. rewrite Hins. simpl.
  split.
  { intros s Hs. rewrite Hsubs in Hs. apply filter_In in Hs.
    destruct Hs as [_ Hne]. apply negb_true_iff, String.eqb_neq in Hne. exact Hne. }
  split; [exact Hsubs|]. split; [exact Hnot3|].
  split; [|split].
  - intros s Hs Hp.
    exists (notification_of completedOn s).
    assert (In (notification_of completedOn s) (notifications tx')) as Hin.
    { rewrite Hnot3. apply in_or_app. right. apply in_map. apply Hsel. tauto. }
    assert (notif_key (notification_of completedOn s) = (SubscriptionRecord.Id s, id))
      as Hkey.
    { unfold notif_key, notification_of. simpl. rewrite Hp. reflexivity. }
    split; [exact Hin|]. split.
    { unfold notification_of. rewrite Hp. reflexivity. }
    split; [reflexivity|]. split; [reflexivity|]. split.
    + intros n' Hn' Hk'. apply (NoDup_key_eq (notifications tx')); try assumption.
      rewrite Hk', Hkey. reflexivity.
    + intros Hold.
      exact (subscription_key_free tx completedOn s _ Hdm Hs Hold eq_refl).
  - eexists. split; [reflexivity|].
    intros [s [Hs Hp]].
    destruct (dm_subscription_pending _ Hdm s Hs) as (row & Hrow & Hid & Hst).
    rewrite Hp in Hid.
    rewrite (filter_key_unique _ PromiseRecord.Id
               (fun x => PromiseRecord.State x =? 1) id _ row
               (wf_promise_id _ Hwf) Hrow Hid).
    rewrite Hst. reflexivity.
  - constructor.
    + intros s Hs. rewrite Hsubs in Hs. apply filter_In in Hs.
      destruct Hs as [Hs Hne]. apply negb_true_iff, String.eqb_neq in Hne.
      destruct (dm_subscription_pending _ Hdm s Hs) as (row & Hrow & Hid & Hst).
      exists row. split; [|split; assumption].
      rewrite Hp3. apply in_map_iff. exists row. split; [|exact Hrow].
      replace (String.eqb (PromiseRecord.Id row) id) with false; [reflexivity|].
      symmetry. apply String.eqb_neq. rewrite Hid. exact Hne.
    + intros n row' Hn Hrow' Hid Hst.
      rewrite Hp3 in Hrow'. apply in_map_iff in Hrow'.
      destruct Hrow' as [row [Hf Hrow]].
      destruct (String.eqb (PromiseRecord.Id row) id
                && (PromiseRecord.State row =? 1)) eqn:Hw.
      * subst row'. simpl in Hst. discriminate.
      * subst row'. rewrite Hnot3 in Hn. apply in_app_or in Hn.
        destruct Hn as [Hn|Hn].
        -- exact (dm_notification_completed _ Hdm n row Hn Hrow Hid Hst).
        -- apply in_map_iff in Hn. destruct Hn as [s [<- Hs]].
           apply Hsel in Hs. destruct Hs as [_ Hp]. simpl in Hid.
           rewrite Hp in Hid.
           apply andb_false_iff in Hw. destruct Hw as [Hw|Hw].
           ++ apply String.eqb_neq in Hw. exact (Hw Hid).
           ++ apply Z.eqb_neq in Hw. exact (Hw Hst).
Qed.

(** C4. When the transaction with which RejectPromise completes promise p
    commits, on a database with unique keys that follows the data model, no
    subscription of p remains (the other subscriptions are untouched), and
    for each subscription s of p that existed there is exactly one
    notification keyed (s.id, p): the one made of s, with attempt = 0 and
    time equal to the completion time, which was not there before.  These
    are the only notifications added, as many as p had subscriptions, and
    if p had a subscription the update of the promise went through
    (rowsAffected = 1).  The transaction is UpdatePromise, then
    CreateNotifications, then DeleteSubscriptions, and the database follows
    the data model afterwards.  When Execute runs the transaction in a batch
    with others, all in one database transaction, the same holds between
    the view the transaction finds and the view it leaves to those after
    it. *)
Theorem rejection_notifies_each_subscription (d : Driver) (db db' : DB)
  (results : list (list Result)) (r : RejectPromiseRequest.t) (completedOn : Z) :
  wf db ->
  data_model db ->
  Execute d db [reject_transaction r completedOn] = (db', Ok results) ->
  coroutines.reject_submission r completedOn
  = StoreSubmission
      (Transaction.mk
         [ UpdatePromise (RejectPromiseRequest.Id r) promise.Rejected
             (RejectPromiseRequest.Value r) (RejectPromiseRequest.IdempotencyKey r)
             completedOn;
           CreateNotifications (RejectPromiseRequest.Id r) completedOn;
           DeleteSubscriptions (RejectPromiseRequest.Id r) ])
  /\ (forall s, In s (subscriptions db') ->
                SubscriptionRecord.PromiseId s <> RejectPromiseRequest.Id r)
  /\ subscriptions db'
     = filter (fun s => negb (String.eqb (SubscriptionRecord.PromiseId s)
                                         (RejectPromiseRequest.Id r)))
              (subscriptions db)
  /\ notifications db'
     = notifications db
       ++ map (notification_of completedOn)
              (filter (fun s => String.eqb (SubscriptionRecord.PromiseId s)
                                           (RejectPromiseRequest.Id r))
                      (subscriptions db))
  /\ (forall s, In s (subscriptions db) ->
        SubscriptionRecord.PromiseId s = RejectPromiseRequest.Id r ->
        exists n,
          In n (notifications db')
          /\ n = NotificationRecord.mk (SubscriptionRecord.Id s)
                   (RejectPromiseRequest.Id r) (SubscriptionRecord.Url s)
                   (SubscriptionRecord.RetryPolicy s) completedOn 0
          /\ NotificationRecord.Attempt n = 0
          /\ NotificationRecord.Time n = completedOn
          /\ (forall n', In n' (notifications db') ->
                notif_key n' = (SubscriptionRecord.Id s, RejectPromiseRequest.Id r) ->
                n' = n)
          /\ ~ In n (notifications db))
  /\ (exists n,
        results
        = [[R_UpdatePromise n;
            R_CreateNotifications
              (Z.of_nat (List.length
                 (filter (fun s => String.eqb (SubscriptionRecord.PromiseId s)
                                              (RejectPromiseRequest.Id r))
                         (subscriptions db))));
            R_DeleteSubscriptions
              (Z.of_nat (List.length
                 (filter (fun s => String.eqb (SubscriptionRecord.PromiseId s)
                                              (RejectPromiseRequest.Id r))
                         (subscriptions db))))]]
        /\ ((exists s, In s (subscriptions db)
                       /\ SubscriptionRecord.PromiseId s = RejectPromiseRequest.Id r) ->
            n = 1))
  /\ data_model db'
  /\ (forall (before after : list Transaction.t) (db0 db1 : DB)
             (results1 : list (list Result)),
        Execute d db0 (before ++ reject_transaction r completedOn :: after)
        = (db1, Ok results1) ->
        exists tx tx' res_before res res_after,
          performTransactions d 0 db0 before = Ok (tx, res_before)
          /\ performTransaction d (List.length before) 0 tx
               (Transaction.Commands (reject_transaction r completedOn))
             = Ok (tx', res)
          /\ performTransactions d (S (List.length before)) tx' after
             = Ok (db1, res_after)
          /\ results1 = res_before ++ res :: res_after
          /\ (wf tx -> data_model tx ->
              subscriptions tx'
              = filter (fun s => negb (String.eqb (SubscriptionRecord.PromiseId s)
                                                  (RejectPromiseRequest.Id r)))
                       (subscriptions tx)
              /\ notifications tx'
                 = notifications tx
                   ++ map (notification_of completedOn)
                          (filter (fun s => String.eqb (SubscriptionRecord.PromiseId s)
                                                       (RejectPromiseRequest.Id r))
                                  (subscriptions tx))
              /\ data_model tx')).
Proof.
  intros Hwf Hdm Hex. split; [reflexivity|].
  assert (exists res,
            performTransaction d 0 0 db
              (Transaction.Commands (reject_transaction r completedOn))
            = Ok (db', res)
            /\ results = [res]) as (res & Hstep & ->).
  { apply Execute_commits_or_keeps in Hex.
    destruct Hex as [(results' & Hout & _ & _ & _ & Hrun & _)|[_ Hno]];
      [|exfalso; exact (Hno results eq_refl)].
    inversion Hout; subst results'. clear Hout.
    cbn [performTransactions] in Hrun.
    apply bind_Ok in Hrun. destruct Hrun as [u [_ Hrun]].
    apply bind_Ok in Hrun. destruct Hrun as [[tx1 r1] [Hstep Hrun]].
    cbn [bind] in Hrun. inversion Hrun; subst.
    exists r1. split; [exact Hstep | reflexivity]. }
  destruct (reject_transaction_step d 0 db db' res r completedOn Hwf Hdm Hstep)
    as (Hgone & Hsubs & Hnot & Hper & (n & -> & Hone) & Hdm').
  split; [exact Hgone|]. split; [exact Hsubs|]. split; [exact Hnot|].
  split; [exact Hper|]. split.
  { exists n. split; [reflexivity | exact Hone]. }
  split; [exact Hdm'|].
  intros before after db0 db1 results1 Hex1.
  apply Execute_commits_or_keeps in Hex1.
  destruct Hex1 as [(results' & Hout & _ & _ & _ & Hrun & _)|[_ Hno]];
    [|exfalso; exact (Hno results1 eq_refl)].
  inversion Hout; subst results'. clear Hout.
  rewrite performTransactions_app in Hrun.
  apply bind_Ok in Hrun. destruct Hrun as [[tx res_before] [Hbefore Hrun]].
  apply bind_Ok in Hrun. destruct Hrun as [[tx2 res2] [Hrest Hrun]].
  inversion Hrun; subst. clear Hrun.
  cbn [performTransactions] in Hrest. simpl Nat.add in Hrest.
  apply bind_Ok in Hrest. destruct Hrest as [u [_ Hrest]].
  apply bind_Ok in Hrest. destruct Hrest as [[tx' res'] [Hstep' Hrest]].
  apply bind_Ok in Hrest. destruct Hrest as [[tx3 res_after] [Hafter Hrest]].
  inversion Hrest; subst. clear Hrest.
  exists tx, tx', res_before, res', res_after.
  split; [exact Hbefore|]. split; [exact Hstep'|]. split; [exact Hafter|].
  split; [reflexivity|].
  intros Hwf1 Hdm1.
  destruct (reject_transaction_step d _ tx tx' res' r completedOn Hwf1 Hdm1 Hstep')
    as (_ & Hsubs1 & Hnot1 & _ & _ & Hdm1').
  split; [exact Hsubs1|]. split; [exact Hnot1 | exact Hdm1'].
Qed.

End RejectNotifies.

Lemma rejection_notifies_each_subscription_witness :
  wf db_pending
  /\ data_model db_pending
  /\ (exists db',
        Execute (E := sample_env) healthy db_pending [reject_transaction reject_p1 10]
        = (db', Ok [[R_UpdatePromise 1; R_CreateNotifications 1;
                     R_DeleteSubscriptions 1]])
        /\ subscriptions db' = []
        /\ notifications db'
           = [NotificationRecord.mk "s1" "p1" "http://x" (Some []) 10 0]).
Proof.
  assert (wf db_pending) as Hwf by prove_wf.
  assert (data_model db_pending) as Hdm.
  { constructor.
    - intros s [<-|[]]. exists pending_p1.
      split; [left; reflexivity|]. split; reflexivity.
    - intros n row []. }
  split; [exact Hwf|]. split; [exact Hdm|].
  exists (fst (Execute (E := sample_env) healthy db_pending
                 [reject_transaction reject_p1 10])).
  assert (Execute (E := sample_env) healthy db_pending
            [reject_transaction reject_p1 10]
          = (fst (Execute (E := sample_env) healthy db_pending
                    [reject_transaction reject_p1 10]),
             Ok [[R_UpdatePromise 1; R_CreateNotifications 1;
                  R_DeleteSubscriptions 1]])) as Hex by reflexivity.
  split; [exact Hex|].
  destruct (rejection_notifies_each_subscription (E := sample_env) healthy
              db_pending _ _ reject_p1 10 Hwf Hdm Hex)
    as (_ & _ & Hsubs & Hnot & _).
  rewrite Hsubs, Hnot. split; reflexivity.
Defined.

(** The store does not enforce the data model by itself, and the conclusion
    depends on it.  With a notification already keyed (s1, p1) while p1 is
    still pending ([db_stale]), or with a subscription on a promise that is
    no longer pending ([db_raced]), the insertion is skipped for the key
    that is taken: the row found after the commit is the old one, on attempt
    1 and with its old time. *)
Remark taken_key_keeps_old_notification :
  (wf db_stale /\ ~ data_model db_stale
   /\ In sub_s1_p1 (subscriptions db_stale)
   /\ SubscriptionRecord.PromiseId sub_s1_p1 = RejectPromiseRequest.Id reject_p1
   /\ exists db',
        Execute (E := sample_env) healthy db_stale [reject_transaction reject_p1 10]
        = (db', Ok [[R_UpdatePromise 1; R_CreateNotifications 0;
                     R_DeleteSubscriptions 1]])
        /\ notifications db' = [stale_s1_p1])
  /\ (wf db_raced /\ ~ data_model db_raced
      /\ exists db',
           Execute (E := sample_env) healthy db_raced [reject_transaction reject_p1 10]
           = (db', Ok [[R_UpdatePromise 0; R_CreateNotifications 0;
                        R_DeleteSubscriptions 1]])
           /\ notifications db' = [stale_s1_p1]).
Proof.
  split.
  - split; [prove_wf|]. split.
    { intros Hdm.
      apply (dm_notification_completed _ Hdm stale_s1_p1 pending_p1);
        [left; reflexivity | left; reflexivity | reflexivity | reflexivity]. }
    split; [left; reflexivity|]. split; [reflexivity|].
    eexists. split; reflexivity.
  - split; [prove_wf|]. split.
    { intros Hdm.
      destruct (dm_subscription_pending _ Hdm _ (or_introl eq_refl))
        as (row & [<-|[]] & _ & Hst). discriminate. }
    eexists. split; reflexivity.
Qed.

(** ** SearchPromises *)

Section Sorting.

Lemma insert_by_In {A} (leb : A -> A -> bool) (a x : A) (l : list A) :
  In x (insert_by leb a l) <-> x = a \/ In x l.
Proof.
  induction l as [|y l IH]; simpl.
  - intuition.
  - destruct (leb a y); simpl; [intuition|]. rewrite IH. intuition.
Qed.

Lemma ORDER_BY_In {A} (leb : A -> A -> bool) (x : A) (l : list A) :
  In x (ORDER_BY leb l) <-> In x l.
Proof.
  induction l as [|a l IH]; simpl; [reflexivity|].
  rewrite insert_by_In, IH. intuition.
Qed.

Lemma insert_sorted (a : PromiseRecord.t) (l : list PromiseRecord.t) :
  StronglySorted sort_id_gt l ->
  (forall y, In y l -> PromiseRecord.SortId y <> PromiseRecord.SortId a) ->
  StronglySorted sort_id_gt (insert_by sort_id_desc a l).
Proof.
  induction l as [|y l IH]; simpl; intros Hs Hne.
  - constructor; constructor.
  - inversion Hs as [|? ? Hs' Hy]; subst.
    unfold sort_id_desc at 1.
    destruct (Z.leb_spec (PromiseRecord.SortId y) (PromiseRecord.SortId a)) as [Hle|Hgt].
    + constructor; [exact Hs|].
      assert (PromiseRecord.SortId y < PromiseRecord.SortId a) as Hlt.
      { specialize (Hne y (or_introl eq_refl)). lia. }
      constructor; [exact Hlt|].
      rewrite Forall_forall in *. intros z Hz. specialize (Hy z Hz).
      unfold sort_id_gt in *. lia.
    + constructor.
      * apply IH; [exact Hs'|]. intros z Hz. apply Hne. right. exact Hz.
      * rewrite Forall_forall in *. intros z Hz.
        apply insert_by_In in Hz. destruct Hz as [Hz|Hz].
        -- subst z. exact Hgt.
        -- apply Hy. exact Hz.
Qed.

(** ORDER BY sort_id DESC over rows of distinct sort_id is strictly
    descending. *)
Lemma ORDER_BY_sorted (l : list PromiseRecord.t) :
  NoDup (map PromiseRecord.SortId l) ->
  StronglySorted sort_id_gt (ORDER_BY sort_id_desc l).
Proof.
  induction l as [|a l IH]; simpl; intros Hnd; [constructor|].
  inversion Hnd as [|? ? Ha Hnd']; subst.
  apply insert_sorted; [apply IH; exact Hnd'|].
  intros y Hy Heq. apply ORDER_BY_In in Hy. apply Ha. rewrite <- Heq.
  apply in_map. exact Hy.
Qed.

Lemma firstn_In {A} (k : nat) (l : list A) (x : A) :
  In x (firstn k l) -> In x l.
Proof.
  revert k. induction l as [|a l IH]; intros k Hx; destruct k; simpl in Hx;
    try contradiction.
  destruct Hx as [Hx|Hx]; [left; exact Hx | right; eapply IH; exact Hx].
Qed.

Lemma sorted_firstn (k : nat) (l : list PromiseRecord.t) :
  StronglySorted sort_id_gt l -> StronglySorted sort_id_gt (firstn k l).
Proof.
  revert k. induction l as [|x l IH]; intros k Hs; destruct k; simpl;
    try constructor.
  - inversion Hs; subst. apply IH. assumption.
  - inversion Hs as [|? ? _ Hx]; subst. rewrite Forall_forall in *.
    intros z Hz. apply Hx. eapply firstn_In; eassumption.
Qed.

Lemma sorted_filter (p : PromiseRecord.t -> bool) (l : list PromiseRecord.t) :
  StronglySorted sort_id_gt l -> StronglySorted sort_id_gt (filter p l).
Proof.
  induction l as [|x l IH]; simpl; intros Hs; [constructor|].
  inversion Hs as [|? ? Hs' Hx]; subst.
  destruct (p x); [|apply IH; exact Hs'].
  constructor; [apply IH; exact Hs'|].
  rewrite Forall_forall in *. intros z Hz. apply filter_In in Hz. apply Hx, Hz.
Qed.

(** Two strictly descending lists with the same rows are the same list. *)
Lemma sorted_unique (l1 : list PromiseRecord.t) :
  forall l2,
    StronglySorted sort_id_gt l1 -> StronglySorted sort_id_gt l2 ->
    (forall x, In x l1 <-> In x l2) -> l1 = l2.
Proof.
  induction l1 as [|x t1 IH]; intros l2 H1 H2 Hsame.
  - destruct l2 as [|y t2]; [reflexivity|].
    exfalso. apply (Hsame y). left. reflexivity.
  - destruct l2 as [|y t2]; [exfalso; apply (Hsame x); left; reflexivity|].
    inversion H1 as [|? ? H1' Hx]; subst. inversion H2 as [|? ? H2' Hy]; subst.
    rewrite Forall_forall in Hx, Hy.
    assert (x = y) as ->.
    { destruct (proj1 (Hsame x) (or_introl eq_refl)) as [Hxy|Hxy]; [auto|].
      destruct (proj2 (Hsame y) (or_introl eq_refl)) as [Hyx|Hyx]; [auto|].
      specialize (Hx y Hyx). specialize (Hy x Hxy). unfold sort_id_gt in *. lia. }
    f_equal. apply IH; try assumption.
    intros z. split; intros Hz.
    + destruct (proj1 (Hsame z) (or_intror Hz)) as [Heq|Hin]; [|exact Hin].
      subst z. specialize (Hx y Hz). unfold sort_id_gt in Hx. lia.
    + destruct (proj2 (Hsame z) (or_intror Hz)) as [Heq|Hin]; [|exact Hin].
      subst z. specialize (Hy y Hz). unfold sort_id_gt in Hy. lia.
Qed.

Lemma sorted_app (l1 l2 : list PromiseRecord.t) :
  StronglySorted sort_id_gt (l1 ++ l2) ->
  forall x y, In x l1 -> In y l2 -> sort_id_gt x y.
Proof.
  induction l1 as [|a l1 IH]; simpl; intros Hs x y Hx Hy; [contradiction|].
  inversion Hs as [|? ? Hs' Ha]; subst.
  destruct Hx as [Hx|Hx].
  - subst a. rewrite Forall_forall in Ha. apply Ha. apply in_or_app. right. exact Hy.
  - apply IH; assumption.
Qed.

Lemma sorted_NoDup (l : list PromiseRecord.t) :
  StronglySorted sort_id_gt l -> NoDup l.
Proof.
  induction l as [|x l IH]; intros Hs; [constructor|].
  inversion Hs as [|? ? Hs' Hx]; subst. constructor; [|apply IH; exact Hs'].
  intros Hin. rewrite Forall_forall in Hx. specialize (Hx x Hin).
  unfold sort_id_gt in Hx. lia.
Qed.

End Sorting.

Section SearchPromises.
Context `{E : Env}.

Lemma ReplaceAll_length (s : string) (old new : ascii) :
  String.length (ReplaceAll s old new) = String.length s.
Proof.
  induction s as [|c s IH]; simpl; [reflexivity | rewrite IH; reflexivity].
Qed.

Lemma ReplaceAll_get (s : string) (old new : ascii) :
  forall i,
    String.get i (ReplaceAll s old new)
    = option_map (fun c => if Ascii.eqb c old then new else c) (String.get i s).
Proof.
  induction s as [|c s IH]; intros i; simpl; [reflexivity|].
  destruct i; [reflexivity | apply IH].
Qed.

Lemma fold_lor_testbit (states : list promise.State) :
  forall (mask i : Z),
    Z.testbit (fold_left (fun mask state => Z.lor mask state) states mask) i
    = Z.testbit mask i || existsb (fun s => Z.testbit s i) states.
Proof.
  induction states as [|s states IH]; intros mask i; simpl.
  - rewrite orb_false_r. reflexivity.
  - rewrite IH, Z.lor_spec, orb_assoc. reflexivity.
Qed.

(** The mask has exactly the bits of the listed states. *)
Lemma state_mask_testbit (states : list promise.State) (i : Z) :
  Z.testbit (state_mask states) i = existsb (fun s => Z.testbit s i) states.
Proof.
  unfold state_mask. rewrite fold_lor_testbit, Z.bits_0. reflexivity.
Qed.

Lemma searchPromises_runs (tx : DB) (Q : string) (states : list promise.State)
  (Limit : Z) (SortId : option Z) :
  Q <> ""%string ->
  searchPromises None tx Q (Some states) Limit SortId
  = Ok (tx, R_SearchPromises
              (QueryPromisesResult.mk
                 (Z.of_nat (List.length
                    (PROMISE_SEARCH_STATEMENT SortId (state_mask states)
                       (ReplaceAll Q "*" "%") Limit tx)))
                 (last (map PromiseRecord.SortId
                         (PROMISE_SEARCH_STATEMENT SortId (state_mask states)
                            (ReplaceAll Q "*" "%") Limit tx)) 0)
                 (PROMISE_SEARCH_STATEMENT SortId (state_mask states)
                    (ReplaceAll Q "*" "%") Limit tx))).
Proof.
  intros HQ. unfold searchPromises.
  destruct (String.eqb_spec Q "") as [Heq|Hne]; [contradiction|].
  reflexivity.
Qed.

Lemma search_where_spec (cursor : option Z) (mask : Z) (query : string)
  (r : PromiseRecord.t) :
  search_where cursor mask query r = true <->
  (forall c, cursor = Some c -> PromiseRecord.SortId r < c)
  /\ Z.land (PromiseRecord.State r) mask <> 0
  /\ LIKE (PromiseRecord.Id r) query = true.
Proof.
  unfold search_where, before_cursor.
  rewrite !andb_true_iff, negb_true_iff, Z.eqb_neq.
  destruct cursor as [c|].
  - rewrite Z.ltb_lt. split.
    + intros [[Hc Hm] Hl]. repeat split; try assumption.
      intros c' Hc'. inversion Hc'; subst. exact Hc.
    + intros [Hc [Hm Hl]]. repeat split; try assumption. apply Hc. reflexivity.
  - split.
    + intros [[_ Hm] Hl]. repeat split; try assumption. intros c Hc. discriminate.
    + intros [_ [Hm Hl]]. repeat split; assumption.
Qed.

Lemma LIMIT_In {A} (n : Z) (rows : list A) (x : A) :
  In x (LIMIT n rows) -> In x rows.
Proof.
  unfold LIMIT. destruct (n <? 0); [auto | apply firstn_In].
Qed.

Lemma LIMIT_length {A} (n : Z) (rows : list A) :
  0 <= n -> Z.of_nat (List.length (LIMIT n rows)) <= n.
Proof.
  intros Hn. unfold LIMIT.
  replace (n <? 0) with false by (symmetry; apply Z.ltb_ge; exact Hn).
  pose proof (firstn_le_length (Z.to_nat n) rows). lia.
Qed.

Lemma LIMIT_all {A} (n : Z) (rows : list A) :
  n < 0 \/ Z.of_nat (List.length (LIMIT n rows)) < n -> LIMIT n rows = rows.
Proof.
  unfold LIMIT. destruct (Z.ltb_spec n 0) as [Hneg|Hpos]; [reflexivity|].
  intros [Hn|Hlen]; [lia|].
  apply firstn_all2. rewrite length_firstn in Hlen. lia.
Qed.

(** C8, as the code has it.  A SearchPromises command with a non-empty
    query q and a state list that is not nil goes through: the store
    replaces every '*' of q by '%', ORs the states into the mask m, and
    returns records of the table that each satisfy (state & m) != 0 and
    id LIKE the translated pattern, and sort_id < cursor when a cursor is
    given, in strictly descending sort_id.  With a limit n >= 0 at most n
    records are returned; a negative limit puts no bound (LIMIT of SQLite).
    If the limit did not cut the result, every matching record is in it. *)
Theorem search_promises_page (tx : DB) (Q : string)
  (states : list promise.State) (Limit : Z) (SortId : option Z) :
  Q <> ""%string ->
  wf tx ->
  exists records,
    searchPromises None tx Q (Some states) Limit SortId
    = Ok (tx, R_SearchPromises
                (QueryPromisesResult.mk (Z.of_nat (List.length records))
                   (last (map PromiseRecord.SortId records) 0) records))
    /\ String.length (ReplaceAll Q "*" "%") = String.length Q
    /\ (forall i, String.get i (ReplaceAll Q "*" "%")
                  = option_map (fun c => if Ascii.eqb c "*" then "%"%char else c)
                               (String.get i Q))
    /\ (forall i, Z.testbit (state_mask states) i
                  = existsb (fun s => Z.testbit s i) states)
    /\ (0 <= Limit -> Z.of_nat (List.length records) <= Limit)
    /\ (forall r, In r records ->
          In r (promises tx)
          /\ Z.land (PromiseRecord.State r) (state_mask states) <> 0
          /\ LIKE (PromiseRecord.Id r) (ReplaceAll Q "*" "%") = true
          /\ (forall c, SortId = Some c -> PromiseRecord.SortId r < c))
    /\ StronglySorted sort_id_gt records
    /\ (Limit < 0 \/ Z.of_nat (List.length records) < Limit ->
        forall r, In r (promises tx) ->
          Z.land (PromiseRecord.State r) (state_mask states) <> 0 ->
          LIKE (PromiseRecord.Id r) (ReplaceAll Q "*" "%") = true ->
          (forall c, SortId = Some c -> PromiseRecord.SortId r < c) ->
          In r records).
Proof.
  intros HQ Hwf.
  exists (PROMISE_SEARCH_STATEMENT SortId (state_mask states)
            (ReplaceAll Q "*" "%") Limit tx).
  split; [apply searchPromises_runs; exact HQ|].
  split; [apply ReplaceAll_length|].
  split; [apply ReplaceAll_get|].
  split; [apply state_mask_testbit|].
  unfold PROMISE_SEARCH_STATEMENT.
  split; [apply LIMIT_length|].
  assert (StronglySorted sort_id_gt
            (ORDER_BY sort_id_desc
               (filter (search_where SortId (state_mask states) (ReplaceAll Q "*" "%"))
                       (promises tx)))) as Hsorted.
  { apply ORDER_BY_sorted. apply NoDup_map_filter.
    exact (wf_promise_sort_id _ Hwf). }
  split.
  { intros r Hr. apply LIMIT_In, ORDER_BY_In, filter_In in Hr.
    destruct Hr as [Hin Hw]. apply search_where_spec in Hw.
    destruct Hw as [Hc [Hm Hl]]. repeat split; assumption. }
  split.
  { unfold LIMIT. destruct (Limit <? 0); [exact Hsorted|].
    apply sorted_firstn. exact Hsorted. }
  intros Hcut r Hin Hm Hl Hc.
  rewrite LIMIT_all by exact Hcut.
  apply ORDER_BY_In, filter_In. split; [exact Hin|].
  apply search_where_spec. repeat split; assumption.
Qed.

End SearchPromises.

Lemma search_promises_page_witness :
  "p*"%string <> ""%string
  /\ wf db_three
  /\ exists records,
       searchPromises (E := sample_env) None db_three "p*"
         (Some [promise.Pending; promise.Resolved]) 2 None
       = Ok (db_three,
             R_SearchPromises
               (QueryPromisesResult.mk (Z.of_nat (List.length records))
                  (last (map PromiseRecord.SortId records) 0) records))
       /\ Z.of_nat (List.length records) <= 2.
Proof.
  assert ("p*"%string <> ""%string) as HQ by discriminate.
  assert (wf db_three) as Hwf by prove_wf.
  split; [exact HQ|]. split; [exact Hwf|].
  destruct (search_promises_page (E := sample_env) db_three "p*"
              [promise.Pending; promise.Resolved] 2 None HQ Hwf)
    as (records & Hrun & _ & _ & _ & Hlen & _).
  exists records. split; [exact Hrun|]. apply Hlen. lia.
Defined.

(** With a negative limit the search returns every matching record: three
    records for the limit -1. *)
Lemma search_negative_limit_unbounded :
  (exists records,
     searchPromises (E := sample_env) None db_three "*"
       (Some [promise.Pending; promise.Resolved]) (-1) None
     = Ok (db_three, R_SearchPromises (QueryPromisesResult.mk 3 1 records))
     /\ List.length records = 3%nat)
  /\ ~ (3 <= -1).
Proof.
  split; [|lia].
  eexists. split; reflexivity.
Qed.

(** ** Paging through a search *)

Section Pagination.
Context `{E : Env}.

Variable tx : DB.
Variable mask : Z.
Variable query : string.
Hypothesis tx_wf : wf tx.

(** every matching row, in descending sort_id *)
Let matching : list PromiseRecord.t :=
  ORDER_BY sort_id_desc (filter (search_where None mask query) (promises tx)).

Lemma matching_sorted : StronglySorted sort_id_gt matching.
Proof.
  apply ORDER_BY_sorted, NoDup_map_filter. exact (wf_promise_sort_id _ tx_wf).
Qed.

Lemma matching_In (r : PromiseRecord.t) :
  In r matching <-> In r (promises tx) /\ matches mask query r = true.
Proof.
  unfold matching. rewrite ORDER_BY_In, filter_In. reflexivity.
Qed.

(** The rows below a cursor, sorted, are the sorted rows below the cursor. *)
Lemma rows_below_cursor (c : Z) :
  ORDER_BY sort_id_desc (filter (search_where (Some c) mask query) (promises tx))
  = filter (fun r => PromiseRecord.SortId r <? c) matching.
Proof.
  apply sorted_unique.
  - apply ORDER_BY_sorted, NoDup_map_filter. exact (wf_promise_sort_id _ tx_wf).
  - apply sorted_filter, matching_sorted.
  - intros x. unfold matching.
    rewrite ORDER_BY_In, !filter_In, ORDER_BY_In, filter_In.
    unfold search_where, before_cursor. rewrite !andb_true_iff. simpl. tauto.
Qed.

Lemma last_app_nonempty {A} (l1 l2 : list A) (d : A) :
  l2 <> [] -> last (l1 ++ l2) d = last l2 d.
Proof.
  intros Hne. induction l1 as [|a l1 IH]; [reflexivity|].
  simpl. rewrite IH. destruct (l1 ++ l2) eqn:Happ; [|reflexivity].
  apply app_eq_nil in Happ. destruct Happ as [_ Hl2]. contradiction.
Qed.

(** Below the sort_id of the last row seen are the rows not yet seen. *)
Lemma filter_below_last (seen rest : list PromiseRecord.t) :
  StronglySorted sort_id_gt (seen ++ rest) ->
  seen <> [] ->
  filter (fun r => PromiseRecord.SortId r <? last (map PromiseRecord.SortId seen) 0)
         (seen ++ rest)
  = rest.
Proof.
  intros Hs Hne.
  destruct (exists_last Hne) as [seen' [z Hz]]. subst seen.
  rewrite map_app. simpl. rewrite last_last.
  rewrite filter_app.
  assert (filter (fun r => PromiseRecord.SortId r <? PromiseRecord.SortId z)
                 (seen' ++ [z]) = []) as ->.
  { rewrite filter_app. simpl. rewrite Z.ltb_irrefl, app_nil_r.
    rewrite <- app_assoc in Hs.
    assert (forall a, In a seen' ->
              (PromiseRecord.SortId a <? PromiseRecord.SortId z) = false) as Hall.
    { intros a Ha. apply Z.ltb_ge.
      assert (sort_id_gt a z) as Hgt.
      { apply (sorted_app seen' ([z] ++ rest) Hs); [exact Ha | left; reflexivity]. }
      unfold sort_id_gt in Hgt. lia. }
    clear Hs Hne. induction seen' as [|a seen' IH]; [reflexivity|].
    simpl. rewrite (Hall a (or_introl eq_refl)).
    apply IH. intros b Hb. apply Hall. right. exact Hb. }
  simpl.
  assert (forall b, In b rest ->
            (PromiseRecord.SortId b <? PromiseRecord.SortId z) = true) as Hall.
  { intros b Hb. apply Z.ltb_lt.
    apply (sorted_app (seen' ++ [z]) rest Hs);
      [apply in_or_app; right; left; reflexivity | exact Hb]. }
  clear Hs Hne. induction rest as [|b rest IH]; [reflexivity|].
  simpl. rewrite (Hall b (or_introl eq_refl)). f_equal.
  apply IH. intros c Hc. apply Hall. right. exact Hc.
Qed.

(** A page asked with the cursor after the rows seen is the next rows. *)
Lemma next_page (seen rest : list PromiseRecord.t) (limit : Z) :
  matching = seen ++ rest ->
  0 <= limit ->
  PROMISE_SEARCH_STATEMENT (cursor_after seen) mask query limit tx
  = firstn (Z.to_nat limit) rest.
Proof.
  intros Hm Hl. unfold PROMISE_SEARCH_STATEMENT, LIMIT.
  replace (limit <? 0) with false by (symmetry; apply Z.ltb_ge; exact Hl).
  f_equal. destruct seen as [|a seen].
  - simpl in *. exact Hm.
  - unfold cursor_after. rewrite rows_below_cursor, Hm.
    apply filter_below_last; [|discriminate].
    rewrite <- Hm. apply matching_sorted.
Qed.

End Pagination.

Section PaginationRuns.
Context `{E : Env}.

Lemma paginate_enumerates (tx : DB) (Q : string) (states : list promise.State)
  (Limit : Z) :
  wf tx -> Q <> ""%string -> 1 <= Limit ->
  forall (fuel : nat) (seen rest : list PromiseRecord.t),
    ORDER_BY sort_id_desc
      (filter (search_where None (state_mask states) (ReplaceAll Q "*" "%"))
              (promises tx))
    = seen ++ rest ->
    (List.length rest < fuel)%nat ->
    exists pages,
      paginate fuel tx Q (Some states) Limit (cursor_after seen) = Some pages
      /\ List.concat pages = rest
      /\ Forall (fun page => Z.of_nat (List.length page) <= Limit) pages.
Proof.
  intros Hwf HQ HL.
  induction fuel as [|fuel IH]; intros seen rest Hm Hfuel; [lia|].
  cbn [paginate]. unfold search_page.
  rewrite searchPromises_runs by exact HQ.
  rewrite (next_page tx (state_mask states) (ReplaceAll Q "*" "%") Hwf seen rest Limit Hm)
    by lia.
  cbn [QueryPromisesResult.RowsReturned QueryPromisesResult.Records
       QueryPromisesResult.LastSortId].
  set (k := Z.to_nat Limit).
  assert (Z.of_nat (List.length (firstn k rest)) <= Limit) as Hpage.
  { pose proof (firstn_le_length k rest). lia. }
  destruct (Z.ltb_spec (Z.of_nat (List.length (firstn k rest))) Limit) as [Hlt|Hge].
  - exists [firstn k rest]. split; [reflexivity|].
    assert (firstn k rest = rest) as Hall.
    { apply firstn_all2. rewrite length_firstn in Hlt. lia. }
    split; [simpl; rewrite app_nil_r; exact Hall|].
    constructor; [exact Hpage | constructor].
  - assert (k <= List.length rest)%nat as Hk.
    { rewrite length_firstn in Hge. lia. }
    assert (firstn k rest <> []) as Hne.
    { intros Hnil. rewrite Hnil in Hge. simpl in Hge. lia. }
    assert (Some (last (map PromiseRecord.SortId (firstn k rest)) 0)
            = cursor_after (seen ++ firstn k rest)) as Hcur.
    { unfold cursor_after.
      destruct (seen ++ firstn k rest) as [|a l] eqn:Happ.
      - apply app_eq_nil in Happ. destruct Happ as [_ Hnil]. contradiction.
      - rewrite <- Happ, map_app. rewrite last_app_nonempty; [reflexivity|].
        intros Hnil. apply map_eq_nil in Hnil. contradiction. }
    rewrite Hcur.
    destruct (IH (seen ++ firstn k rest) (skipn k rest)) as (pages & Hrun & Hcat & Hlen).
    { rewrite <- app_assoc, firstn_skipn. exact Hm. }
    { rewrite length_skipn. lia. }
    rewrite Hrun. exists (firstn k rest :: pages).
    split; [reflexivity|]. split.
    + simpl. rewrite Hcat. apply firstn_skipn.
    + constructor; [exact Hpage | exact Hlen].
Qed.

(** The pages do not depend on the fuel, once it is enough. *)
Lemma paginate_deterministic (tx : DB) (Q : string) (states : list promise.State)
  (Limit : Z) :
  forall (fuel fuel' : nat) (cursor : option Z)
         (pages pages' : list (list PromiseRecord.t)),
    paginate fuel tx Q (Some states) Limit cursor = Some pages ->
    paginate fuel' tx Q (Some states) Limit cursor = Some pages' ->
    pages = pages'.
Proof.
  induction fuel as [|fuel IH]; intros fuel' cursor pages pages' H H';
    [discriminate|].
  destruct fuel' as [|fuel']; [discriminate|].
  cbn [paginate] in H, H'.
  destruct (search_page tx Q (Some states) Limit cursor) as [r|]; [|discriminate].
  destruct (QueryPromisesResult.RowsReturned r <? Limit); [congruence|].
  destruct (paginate fuel tx Q (Some states) Limit
              (Some (QueryPromisesResult.LastSortId r))) as [p|] eqn:Ep;
    [|discriminate].
  destruct (paginate fuel' tx Q (Some states) Limit
              (Some (QueryPromisesResult.LastSortId r))) as [p'|] eqn:Ep';
    [|discriminate].
  inversion H; inversion H'; subst. f_equal.
  exact (IH fuel' _ p p' Ep Ep').
Qed.

Lemma filter_length_le {A} (p : A -> bool) (l : list A) :
  (List.length (filter p l) <= List.length l)%nat.
Proof.
  induction l as [|x l IH]; simpl; [lia|]. destruct (p x); simpl; lia.
Qed.

Lemma ORDER_BY_length {A} (leb : A -> A -> bool) (l : list A) :
  List.length (ORDER_BY leb l) = List.length l.
Proof.
  induction l as [|a l IH]; simpl; [reflexivity|].
  rewrite <- IH. generalize (ORDER_BY leb l). intros s.
  induction s as [|y s IHs]; simpl; [reflexivity|].
  destruct (leb a y); simpl; [reflexivity | rewrite IHs; reflexivity].
Qed.

Lemma NoDup_map_on {A B} (f : A -> B) (rows l : list A) :
  NoDup (map f rows) -> NoDup l -> (forall x, In x l -> In x rows) ->
  NoDup (map f l).
Proof.
  intros Hrows Hl Hsub. induction l as [|x l IH]; simpl; [constructor|].
  inversion Hl as [|? ? Hx Hl']; subst. constructor.
  - intros Hin. apply in_map_iff in Hin. destruct Hin as [y [Hfy Hy]].
    assert (y = x) as Heq; [|subst y; contradiction].
    assert (In x rows) as Hxr by (apply Hsub; left; reflexivity).
    assert (In y rows) as Hyr by (apply Hsub; right; exact Hy).
    clear - Hrows Hfy Hxr Hyr.
    induction rows as [|r rows IHr]; [contradiction|].
    simpl in Hrows. inversion Hrows as [|? ? Hr Hrows']; subst.
    destruct Hxr as [Hxr|Hxr], Hyr as [Hyr|Hyr]; subst.
    + reflexivity.
    + exfalso. apply Hr. rewrite <- Hfy. apply in_map. exact Hyr.
    + exfalso. apply Hr. rewrite Hfy. apply in_map. exact Hxr.
    + apply IHr; assumption.
  - apply IH; [exact Hl'|]. intros y Hy. apply Hsub. right. exact Hy.
Qed.

(** C9, as the code has it.  For a limit n >= 1 and any store contents,
    asking SearchPromises page after page with the same query, states and
    limit, from no cursor and then with the LastSortId of the page before,
    ends with a page of fewer than n rows, after at most as many pages as
    there are promises plus one; the pages together hold exactly the
    promises that match the state mask and the translated query, and no id
    twice: each matching id is in exactly one page. *)
Theorem paging_enumerates_each_match_once (tx : DB) (Q : string)
  (states : list promise.State) (Limit : Z) :
  wf tx -> Q <> ""%string -> 1 <= Limit ->
  exists pages,
    (forall fuel, (List.length (promises tx) < fuel)%nat ->
       paginate fuel tx Q (Some states) Limit None = Some pages)
    /\ (forall r, In r (List.concat pages) <->
          In r (promises tx)
          /\ matches (state_mask states) (ReplaceAll Q "*" "%") r = true)
    /\ NoDup (map PromiseRecord.Id (List.concat pages))
    /\ Forall (fun page => Z.of_nat (List.length page) <= Limit) pages.
Proof.
  intros Hwf HQ HL.
  set (all := ORDER_BY sort_id_desc
                (filter (search_where None (state_mask states) (ReplaceAll Q "*" "%"))
                        (promises tx))).
  assert (List.length all <= List.length (promises tx))%nat as Hlen.
  { unfold all. rewrite ORDER_BY_length. apply filter_length_le. }
  destruct (paginate_enumerates tx Q states Limit Hwf HQ HL
              (S (List.length (promises tx))) [] all eq_refl) as (pages & Hrun & Hcat & Hpages);
    [lia|].
  exists pages. split.
  { intros fuel Hfuel.
    destruct (paginate_enumerates tx Q states Limit Hwf HQ HL fuel [] all eq_refl)
      as (pages' & Hrun' & Hcat' & _); [lia|].
    change (cursor_after []) with (@None Z) in Hrun, Hrun'.
    rewrite Hrun'. f_equal.
    exact (paginate_deterministic tx Q states Limit _ _ _ _ _ Hrun' Hrun). }
  rewrite Hcat. split.
  { intros r. apply (matching_In tx (state_mask states) (ReplaceAll Q "*" "%")). }
  split; [|exact Hpages].
  apply (NoDup_map_on PromiseRecord.Id (promises tx)).
  - exact (wf_promise_id _ Hwf).
  - apply sorted_NoDup.
    apply (matching_sorted tx (state_mask states) (ReplaceAll Q "*" "%") Hwf).
  - intros x Hx.
    apply (matching_In tx (state_mask states) (ReplaceAll Q "*" "%")) in Hx. tauto.
Qed.

End PaginationRuns.

Lemma paging_enumerates_each_match_once_witness :
  wf db_three
  /\ "*"%string <> ""%string
  /\ 1 <= 2
  /\ exists pages,
       paginate (E := sample_env) 4 db_three "*"
         (Some [promise.Pending; promise.Resolved]) 2 None = Some pages
       /\ NoDup (map PromiseRecord.Id (List.concat pages)).
Proof.
  assert (wf db_three) as Hwf by prove_wf.
  assert ("*"%string <> ""%string) as HQ by discriminate.
  assert (1 <= 2) as HL by lia.
  split; [exact Hwf|]. split; [exact HQ|]. split; [exact HL|].
  destruct (paging_enumerates_each_match_once (E := sample_env) db_three "*"
              [promise.Pending; promise.Resolved] 2 Hwf HQ HL)
    as (pages & Hrun & _ & Hnd & _).
  exists pages. split; [|exact Hnd].
  apply Hrun. simpl. lia.
Defined.

(** With the limit 0 every page is empty and none is shorter than the limit:
    the next cursor is 0 and the paging never ends, so that the matching
    promise p1 is in no page. *)
Lemma paging_with_limit_zero_never_ends :
  In pending_p1 (promises db_three)
  /\ matches (E := sample_env) (state_mask [promise.Pending; promise.Resolved])
       (ReplaceAll "*" "*" "%") pending_p1 = true
  /\ search_page (E := sample_env) db_three "*"
       (Some [promise.Pending; promise.Resolved]) 0 None
     = Some (QueryPromisesResult.mk 0 0 [])
  /\ search_page (E := sample_env) db_three "*"
       (Some [promise.Pending; promise.Resolved]) 0 (Some 0)
     = Some (QueryPromisesResult.mk 0 0 [])
  /\ (forall fuel,
        paginate (E := sample_env) fuel db_three "*"
          (Some [promise.Pending; promise.Resolved]) 0 None = None).
Proof.
  split; [left; reflexivity|]. split; [reflexivity|].
  split; [reflexivity|]. split; [reflexivity|].
  assert (forall fuel,
            paginate (E := sample_env) fuel db_three "*"
              (Some [promise.Pending; promise.Resolved]) 0 (Some 0) = None) as Hloop.
  { induction fuel as [|fuel IH]; [reflexivity|].
    cbn [paginate].
    replace (search_page (E := sample_env) db_three "*"
               (Some [promise.Pending; promise.Resolved]) 0 (Some 0))
      with (Some (QueryPromisesResult.mk 0 0 [])) by reflexivity.
    cbn [QueryPromisesResult.RowsReturned QueryPromisesResult.LastSortId].
    change (0 <? 0) with false. cbv iota. rewrite IH. reflexivity. }
  intros [|fuel]; [reflexivity|].
  cbn [paginate].
  replace (search_page (E := sample_env) db_three "*"
             (Some [promise.Pending; promise.Resolved]) 0 None)
    with (Some (QueryPromisesResult.mk 0 0 [])) by reflexivity.
  cbn [QueryPromisesResult.RowsReturned QueryPromisesResult.LastSortId].
  change (0 <? 0) with false. cbv iota. rewrite Hloop. reflexivity.
Qed.

(** ** The coroutines run against the store *)

#[local] Existing Instance sample_env.

(** Rejecting the pending p1 at time 10: 201 Created, the subscription s1 is
    gone and its notification is there with time 10 and attempt 0. *)
Example reject_pending_p1 :
  exists db' p,
    run (E := sample_env) 3 10 healthy db_pending
      (coroutines.RejectPromise (Req_RejectPromise reject_p1))
    = (db', Respond (Some (Res_RejectPromise ResponseCreated (Some p))) None)
    /\ Promise.State p = promise.Rejected
    /\ Promise.CompletedOn p = Some 10
    /\ map PromiseRecord.State (promises db') = [promise.Rejected]
    /\ subscriptions db' = []
    /\ notifications db'
       = [NotificationRecord.mk "s1" "p1" "http://x" (Some []) 10 0].
Proof.
  do 2 eexists. repeat split; reflexivity.
Qed.

(** Rejecting p1 at time 150, after its timeout 100: nothing is written and
    the coroutine hands over to TimeoutPromise. *)
Example reject_due_p1 :
  exists res,
    run (E := sample_env) 3 150 healthy db_pending
      (coroutines.RejectPromise (Req_RejectPromise reject_p1))
    = (db_pending,
       Add (Co_TimeoutPromise (promise_of (PromiseRecord.with_SortId pending_p1 0))
              (Co_RejectPromise (Req_RejectPromise (coroutines.default_value reject_p1)))
              res))
    /\ res None
       = Respond (Some (Res_RejectPromise ResponseForbidden
                          (Some (timedout_snapshot
                                   (promise_of (PromiseRecord.with_SortId pending_p1 0))
                                   (Some [])))))
                 None.
Proof.
  eexists. split; reflexivity.
Qed.

(** Rejecting with the key of the first completion a promise that is already
    rejected: 200 OK with the stored promise, and no write. *)
Example reject_again_idempotent :
  run (E := sample_env) 3 20 healthy db_rejected
    (coroutines.RejectPromise (Req_RejectPromise reject_p1))
  = (db_rejected,
     Respond (Some (Res_RejectPromise ResponseOK
                      (Some (promise_of
                               (PromiseRecord.with_SortId
                                  (hd pending_p1 (promises db_rejected)) 0)))))
             None).
Proof.
  reflexivity.
Qed.

(** * Further properties of the store *)

(** ** The key constraints are kept *)

Ltac invert_cmd :=
  repeat match goal with
  | H : bind _ _ = Ok _ |- _ => apply bind_Ok in H; destruct H as [? [? H]]
  | H : (let (_, _) := ?x in _) = Ok _ |- _ => destruct x eqn:?
  | H : Ok _ = Ok _ |- _ => inversion H; subst; clear H
  end.

Section Keys.
Variables R K : Type.
Variable key : R -> K.

Lemma UPDATE_keys (where_ : R -> bool) (set : R -> R) (rows : list R) :
  (forall r, key (set r) = key r) ->
  map key (fst (UPDATE where_ set rows)) = map key rows.
Proof.
  intros Hset. unfold UPDATE. simpl. rewrite map_map. apply map_ext.
  intros r. destruct (where_ r); [apply Hset | reflexivity].
Qed.

Lemma NoDup_snoc (ks : list K) (k : K) :
  NoDup ks -> ~ In k ks -> NoDup (ks ++ [k]).
Proof.
  induction ks as [|a ks IH]; simpl; intros Hnd Hk.
  - constructor; [intros [] | constructor].
  - inversion Hnd as [|? ? Ha Hnd']; subst. constructor.
    + intros Hin. apply in_app_or in Hin. destruct Hin as [Hin|[Hin|[]]].
      * exact (Ha Hin).
      * apply Hk. left. symmetry. exact Hin.
    + apply IH; [exact Hnd'|]. intros Hin. apply Hk. right. exact Hin.
Qed.

Lemma INSERT_keys (conflict : R -> bool) (row : R) (rows : list R) :
  (forall r, In r rows -> conflict r = false -> key r <> key row) ->
  NoDup (map key rows) ->
  NoDup (map key (fst (INSERT_OR_NOTHING conflict row rows))).
Proof.
  intros Hc Hnd. unfold INSERT_OR_NOTHING.
  destruct (existsb conflict rows) eqn:Hex; simpl; [exact Hnd|].
  rewrite map_app. simpl. apply NoDup_snoc; [exact Hnd|].
  intros Hin. apply in_map_iff in Hin. destruct Hin as [r [Hk Hr]].
  apply (Hc r Hr); [|exact Hk].
  destruct (conflict r) eqn:Hcr; [|reflexivity].
  assert (existsb conflict rows = true) as Ht
    by (apply existsb_exists; exists r; split; assumption).
  congruence.
Qed.

Lemma DELETE_keys (where_ : R -> bool) (rows : list R) :
  NoDup (map key rows) -> NoDup (map key (fst (DELETE where_ rows))).
Proof.
  intros Hnd. unfold DELETE. simpl. apply NoDup_map_filter. exact Hnd.
Qed.

End Keys.

Lemma largest_rowid_bounds (rowids : list Z) (m : Z) :
  largest_rowid rowids = Some m -> forall x, In x rowids -> x <= m.
Proof.
  destruct rowids as [|a l]; simpl; intros Hm x Hx; [contradiction|].
  inversion Hm; subst. clear Hm. revert a x Hx.
  induction l as [|b l IH]; simpl; intros a x Hx.
  - destruct Hx as [Hx|[]]. subst. lia.
  - destruct Hx as [Hx|[Hx|Hx]].
    + subst. pose proof (IH x x (or_introl eq_refl)). lia.
    + subst. lia.
    + pose proof (IH a x (or_intror Hx)). lia.
Qed.

(** The rowid that AUTOINCREMENT takes is above the counter and above every
    rowid of the table, and it is a rowid: at most MAX_ROWID. *)
Lemma next_rowid_Ok (seq : Z) (rowids : list Z) (v : Z) :
  next_rowid seq rowids = Ok v ->
  seq < v /\ v <= MAX_ROWID /\ forall x, In x rowids -> x < v.
Proof.
  unfold next_rowid.
  destruct (largest_rowid rowids) as [m|] eqn:Hm.
  - pose proof (largest_rowid_bounds rowids m Hm) as Hle.
    destruct (Z.leb_spec MAX_ROWID seq); simpl; [discriminate|].
    destruct (Z.leb_spec MAX_ROWID m); simpl; [discriminate|].
    intros Hv. inversion Hv; subst.
    split; [lia|]. split; [lia|].
    intros x Hx. specialize (Hle x Hx). lia.
  - destruct rowids; [|discriminate].
    destruct (Z.leb_spec MAX_ROWID seq); simpl; [discriminate|].
    intros Hv. inversion Hv; subst. unfold MAX_ROWID in *.
    split; [lia|]. split; [lia|]. intros x [].
Qed.

Lemma largest_rowid_In (rowids : list Z) (m : Z) :
  largest_rowid rowids = Some m -> In m rowids.
Proof.
  destruct rowids as [|a l]; [discriminate|]. simpl. intros Hm.
  inversion Hm; subst. clear. revert a.
  induction l as [|b l IH]; simpl; intros a; [left; reflexivity|].
  destruct (Z.max_spec b (fold_right Z.max a l)) as [[_ ->]|[_ ->]].
  - destruct (IH a) as [Ha|Ha]; [left; exact Ha | right; right; exact Ha].
  - right. left. reflexivity.
Qed.

(** No rowid is left exactly when the counter or a rowid of the table has
    reached MAX_ROWID. *)
Lemma next_rowid_full (seq : Z) (rowids : list Z) :
  next_rowid seq rowids = Err SQLITE_FULL
  <-> MAX_ROWID <= seq \/ exists x, In x rowids /\ MAX_ROWID <= x.
Proof.
  unfold next_rowid.
  destruct (largest_rowid rowids) as [m|] eqn:Hm.
  - pose proof (largest_rowid_bounds rowids m Hm) as Hle.
    pose proof (largest_rowid_In rowids m Hm) as Hin.
    destruct (Z.leb_spec MAX_ROWID seq); simpl.
    + split; [intros _; left; assumption | reflexivity].
    + destruct (Z.leb_spec MAX_ROWID m); simpl.
      * split; [intros _; right; exists m; split; assumption | reflexivity].
      * split; [discriminate|]. intros [Hs|[x [Hx Hmax]]]; [lia|].
        specialize (Hle x Hx). lia.
  - destruct rowids; [|discriminate].
    destruct (Z.leb_spec MAX_ROWID seq); simpl.
    + split; [intros _; left; assumption | reflexivity].
    + split; [discriminate|]. intros [Hs|[x [[] _]]]. lia.
Qed.

(** Below MAX_ROWID a rowid is left. *)
Lemma next_rowid_left (seq : Z) (rowids : list Z) :
  seq < MAX_ROWID -> (forall x, In x rowids -> x < MAX_ROWID) ->
  exists v, next_rowid seq rowids = Ok v.
Proof.
  intros Hseq Hrows. unfold next_rowid.
  destruct (Z.leb_spec MAX_ROWID seq); [lia|]. simpl.
  destruct (largest_rowid rowids) as [m|] eqn:Hm; [|eexists; reflexivity].
  pose proof (Hrows m (largest_rowid_In rowids m Hm)).
  destruct (Z.leb_spec MAX_ROWID m); [lia|]. eexists; reflexivity.
Qed.

(** When no row is above the counter, as after inserts that all took their
    rowid from it, the rowid taken is the counter plus one. *)
Lemma next_rowid_counter (seq : Z) (rowids : list Z) (v : Z) :
  next_rowid seq rowids = Ok v ->
  0 <= seq -> (forall x, In x rowids -> x <= seq) -> v = seq + 1.
Proof.
  unfold next_rowid. intros Hv Hseq Hrows.
  destruct ((MAX_ROWID <=? seq) || _); [discriminate|].
  inversion Hv; subst. clear Hv.
  destruct (largest_rowid rowids) as [m|] eqn:Hm; [|lia].
  pose proof (Hrows m (largest_rowid_In rowids m Hm)). lia.
Qed.

(** Right after an insert that took the rowid [seq], the next one is
    [seq + 1]. *)
Lemma next_rowid_after (seq : Z) (rowids : list Z) (v : Z) :
  next_rowid seq rowids = Ok v ->
  In seq rowids -> (forall x, In x rowids -> x <= seq) -> v = seq + 1.
Proof.
  unfold next_rowid. intros Hv Hin Hrows.
  destruct ((MAX_ROWID <=? seq) || _); [discriminate|].
  inversion Hv; subst. clear Hv.
  destruct (largest_rowid rowids) as [m|] eqn:Hm.
  - pose proof (Hrows m (largest_rowid_In rowids m Hm)). lia.
  - destruct rowids; [contradiction | discriminate].
Qed.

Lemma INSERT_fresh_rowid {R} (rowid : R -> Z) (conflict : R -> bool) (seq : Z)
  (row : R) (rows : list R) :
  next_rowid seq (map rowid rows) = Ok (rowid row) ->
  NoDup (map rowid rows) ->
  NoDup (map rowid (fst (INSERT_OR_NOTHING conflict row rows))).
Proof.
  intros Hrow Hnd. unfold INSERT_OR_NOTHING.
  destruct (existsb conflict rows); simpl; [exact Hnd|].
  rewrite map_app. simpl. apply NoDup_snoc; [exact Hnd|].
  intros Hin. apply next_rowid_Ok in Hrow. destruct Hrow as (_ & _ & Hfresh).
  apply Hfresh in Hin. lia.
Qed.

(** What an insert into promises that goes through has done: it has taken
    a rowid, which the counter holds afterwards, and has added the row unless
    a row had the id. *)
Lemma PROMISE_INSERT_Ok (id : string) (state : Z) (ph pd : bytes) (timeout : Z)
  (ik : option string) (tags : bytes) (created_on : Z) (db db' : DB) (n : Z) :
  PROMISE_INSERT_STATEMENT id state ph pd timeout ik tags created_on db
  = Ok (db', n) ->
  exists sort_id,
    next_rowid (promises_seq db) (map PromiseRecord.SortId (promises db))
    = Ok sort_id
    /\ (promises db', n)
       = INSERT_OR_NOTHING (fun r => String.eqb (PromiseRecord.Id r) id)
           (PromiseRecord.mk id state (Some ph) (Some pd) None None timeout ik
              None (Some tags) (Some created_on) None sort_id)
           (promises db)
    /\ promises_seq db' = sort_id
    /\ timeouts db' = timeouts db
    /\ subscriptions db' = subscriptions db
    /\ subscriptions_seq db' = subscriptions_seq db
    /\ notifications db' = notifications db.
Proof.
  unfold PROMISE_INSERT_STATEMENT. intros H.
  apply bind_Ok in H. destruct H as [sort_id [Hid H]].
  exists sort_id. split; [exact Hid|].
  destruct (INSERT_OR_NOTHING _ _ (promises db)) as [rows n'].
  inversion H; subst. simpl. repeat split; reflexivity.
Qed.

Lemma SUBSCRIPTION_INSERT_Ok (id promise_id url : string) (retry_policy : bytes)
  (created_on : Z) (db db' : DB) (n : Z) :
  SUBSCRIPTION_INSERT_STATEMENT id promise_id url retry_policy created_on db
  = Ok (db', n) ->
  exists sort_id,
    next_rowid (subscriptions_seq db)
               (map SubscriptionRecord.SortId (subscriptions db))
    = Ok sort_id
    /\ (subscriptions db', n)
       = INSERT_OR_NOTHING
           (fun r => String.eqb (SubscriptionRecord.Id r) id
                     && String.eqb (SubscriptionRecord.PromiseId r) promise_id)
           (SubscriptionRecord.mk id promise_id url (Some retry_policy)
              created_on sort_id)
           (subscriptions db)
    /\ subscriptions_seq db' = sort_id
    /\ promises db' = promises db
    /\ promises_seq db' = promises_seq db
    /\ timeouts db' = timeouts db
    /\ notifications db' = notifications db.
Proof.
  unfold SUBSCRIPTION_INSERT_STATEMENT. intros H.
  apply bind_Ok in H. destruct H as [sort_id [Hid H]].
  exists sort_id. split; [exact Hid|].
  destruct (INSERT_OR_NOTHING _ _ (subscriptions db)) as [rows n'].
  inversion H; subst. simpl. repeat split; reflexivity.
Qed.

Section ConstraintsKept.
Context `{E : Env}.

Lemma insert_notifications_keys (news rows : list NotificationRecord.t) :
  NoDup (map notif_key rows) ->
  NoDup (map notif_key (fst (insert_notifications news rows))).
Proof.
  intros Hnd. unfold insert_notifications.
  apply insert_notifications_NoDup. exact Hnd.
Qed.

Ltac split_constraints H :=
  destruct H as [[Hpid Hpsid Hsk Hnk] Htid Hssid];
  repeat constructor; simpl; try assumption.

Lemma PROMISE_INSERT_constraints (id : string) (state : Z) (ph pd : bytes)
  (timeout : Z) (ik : option string) (tags : bytes) (created_on : Z) (db : DB) :
  forall db' n,
    PROMISE_INSERT_STATEMENT id state ph pd timeout ik tags created_on db
    = Ok (db', n) ->
    constraints db -> constraints db'.
Proof.
  intros db' n Hst H. unfold PROMISE_INSERT_STATEMENT in Hst.
  apply bind_Ok in Hst. destruct Hst as [sort_id [Hid Hst]].
  match type of Hst with
  | context [INSERT_OR_NOTHING ?c ?row ?rows] =>
      pose proof (INSERT_keys _ _ PromiseRecord.Id c row rows) as Hk;
      pose proof (INSERT_fresh_rowid PromiseRecord.SortId c (promises_seq db)
                    row rows Hid) as Hs;
      destruct (INSERT_OR_NOTHING c row rows) as [rows' n']
  end.
  inversion Hst; subst. simpl in *. split_constraints H.
  - apply Hk; [|exact Hpid].
    intros r _ Hc Heq. simpl in Heq. rewrite Heq, String.eqb_refl in Hc.
    discriminate.
  - apply Hs. exact Hpsid.
Qed.

Lemma PROMISE_UPDATE_constraints (state : Z) (vh vd : bytes) (ik : option string)
  (completed_on : Z) (id : string) (db : DB) :
  constraints db ->
  constraints (fst (PROMISE_UPDATE_STATMENT state vh vd ik completed_on id db)).
Proof.
  intros H. unfold PROMISE_UPDATE_STATMENT.
  match goal with
  | |- context [UPDATE ?w ?s ?rows] =>
      pose proof (UPDATE_keys _ _ PromiseRecord.Id w s rows (fun _ => eq_refl)) as Hk;
      pose proof (UPDATE_keys _ _ PromiseRecord.SortId w s rows (fun _ => eq_refl)) as Hs;
      destruct (UPDATE w s rows) as [rows' n]
  end.
  simpl in *. split_constraints H.
  - rewrite Hk. exact Hpid.
  - rewrite Hs. exact Hpsid.
Qed.

Lemma PROMISE_UPDATE_TIMEOUT_constraints (time : Z) (db : DB) :
  constraints db -> constraints (fst (PROMISE_UPDATE_TIMEOUT_STATEMENT time db)).
Proof.
  intros H. unfold PROMISE_UPDATE_TIMEOUT_STATEMENT.
  match goal with
  | |- context [UPDATE ?w ?s ?rows] =>
      pose proof (UPDATE_keys _ _ PromiseRecord.Id w s rows (fun _ => eq_refl)) as Hk;
      pose proof (UPDATE_keys _ _ PromiseRecord.SortId w s rows (fun _ => eq_refl)) as Hs;
      destruct (UPDATE w s rows) as [rows' n]
  end.
  simpl in *. split_constraints H.
  - rewrite Hk. exact Hpid.
  - rewrite Hs. exact Hpsid.
Qed.

Lemma TIMEOUT_INSERT_constraints (id : string) (time : Z) (db : DB) :
  constraints db -> constraints (fst (TIMEOUT_INSERT_STATEMENT id time db)).
Proof.
  intros H. unfold TIMEOUT_INSERT_STATEMENT.
  match goal with
  | |- context [INSERT_OR_NOTHING ?c ?row ?rows] =>
      pose proof (INSERT_keys _ _ TimeoutRecord.Id c row rows) as Hk;
      destruct (INSERT_OR_NOTHING c row rows) as [rows' n]
  end.
  simpl in *. split_constraints H.
  apply Hk; [|exact Htid].
  intros r _ Hc Heq. simpl in Heq. rewrite Heq, String.eqb_refl in Hc.
  discriminate.
Qed.

Lemma TIMEOUT_DELETE_constraints (id : string) (db : DB) :
  constraints db -> constraints (fst (TIMEOUT_DELETE_STATEMENT id db)).
Proof.
  intros H. unfold TIMEOUT_DELETE_STATEMENT.
  match goal with
  | |- context [DELETE ?w ?rows] =>
      pose proof (DELETE_keys _ _ TimeoutRecord.Id w rows) as Hk;
      destruct (DELETE w rows) as [rows' n]
  end.
  simpl in *. split_constraints H. apply Hk. exact Htid.
Qed.

Lemma SUBSCRIPTION_INSERT_constraints (id promise_id url : string)
  (retry_policy : bytes) (created_on : Z) (db : DB) :
  forall db' n,
    SUBSCRIPTION_INSERT_STATEMENT id promise_id url retry_policy created_on db
    = Ok (db', n) ->
    constraints db -> constraints db'.
Proof.
  intros db' n Hst H. unfold SUBSCRIPTION_INSERT_STATEMENT in Hst.
  apply bind_Ok in Hst. destruct Hst as [sort_id [Hid Hst]].
  match type of Hst with
  | context [INSERT_OR_NOTHING ?c ?row ?rows] =>
      pose proof (INSERT_keys _ _ sub_key c row rows) as Hk;
      pose proof (INSERT_fresh_rowid SubscriptionRecord.SortId c
                    (subscriptions_seq db) row rows Hid) as Hs;
      destruct (INSERT_OR_NOTHING c row rows) as [rows' n']
  end.
  inversion Hst; subst. simpl in *. split_constraints H.
  - apply Hk; [|exact Hsk].
    intros r _ Hc Heq. unfold sub_key in Heq. simpl in Heq.
    inversion Heq as [[H1 H2]]. rewrite H1, H2, !String.eqb_refl in Hc.
    discriminate.
  - apply Hs. exact Hssid.
Qed.

Lemma subscriptions_DELETE_constraints (where_ : SubscriptionRecord.t -> bool)
  (db : DB) :
  constraints db ->
  constraints (set_subscriptions db (fst (DELETE where_ (subscriptions db)))).
Proof.
  intros H.
  pose proof (DELETE_keys _ _ sub_key where_ (subscriptions db)) as Hk.
  pose proof (DELETE_keys _ _ SubscriptionRecord.SortId where_ (subscriptions db)) as Hs.
  split_constraints H; [apply Hk | apply Hs]; assumption.
Qed.

Lemma notifications_insert_constraints (news : list NotificationRecord.t)
  (db : DB) :
  constraints db ->
  constraints (set_notifications db
                 (fst (insert_notifications news (notifications db)))).
Proof.
  intros H.
  pose proof (insert_notifications_keys news (notifications db)) as Hk.
  split_constraints H. apply Hk. exact Hnk.
Qed.

Lemma NOTIFICATION_UPDATE_constraints (time attempt : Z) (id promise_id : string)
  (db : DB) :
  constraints db ->
  constraints (fst (NOTIFICATION_UPDATE_STATEMENT time attempt id promise_id db)).
Proof.
  intros H. unfold NOTIFICATION_UPDATE_STATEMENT.
  match goal with
  | |- context [UPDATE ?w ?s ?rows] =>
      pose proof (UPDATE_keys _ _ notif_key w s rows (fun _ => eq_refl)) as Hk;
      destruct (UPDATE w s rows) as [rows' n]
  end.
  simpl in *. split_constraints H. rewrite Hk. exact Hnk.
Qed.

Lemma NOTIFICATION_DELETE_constraints (id promise_id : string) (db : DB) :
  constraints db ->
  constraints (fst (NOTIFICATION_DELETE_STATEMENT id promise_id db)).
Proof.
  intros H. unfold NOTIFICATION_DELETE_STATEMENT.
  match goal with
  | |- context [DELETE ?w ?rows] =>
      pose proof (DELETE_keys _ _ notif_key w rows) as Hk;
      destruct (DELETE w rows) as [rows' n]
  end.
  simpl in *. split_constraints H. apply Hk. exact Hnk.
Qed.

Ltac to_fst :=
  match goal with
  | Heq : ?stmt = (?tx', _) |- constraints ?tx' =>
      let Hf := fresh in
      pose proof (f_equal fst Heq) as Hf; cbn [fst] in Hf; rewrite <- Hf
  end.

(** Every command that goes through keeps the key constraints. *)
Lemma performCommand_constraints (fault : option Error) (tx tx' : DB)
  (command : Command) (result : Result) :
  performCommand fault tx command = Ok (tx', result) ->
  constraints tx -> constraints tx'.
Proof.
  intros H Hc.
  destruct command; simpl in H;
    unfold readPromise, searchPromises, createPromise, updatePromise,
           timeoutPromises, readTimeouts, createTimeout, deleteTimeout,
           readSubscription, readSubscriptions, createSubscription,
           deleteSubscription, deleteSubscriptions, timeoutDeleteSubscriptions,
           readNotifications, createNotifications, updateNotification,
           deleteNotification, timeoutCreateNotifications in H;
    invert_cmd; try exact Hc; try to_fst.
  - eapply PROMISE_INSERT_constraints; eassumption.
  - apply PROMISE_UPDATE_constraints; exact Hc.
  - apply PROMISE_UPDATE_TIMEOUT_constraints; exact Hc.
  - apply TIMEOUT_INSERT_constraints; exact Hc.
  - apply TIMEOUT_DELETE_constraints; exact Hc.
  - eapply SUBSCRIPTION_INSERT_constraints; eassumption.
  - unfold SUBSCRIPTION_DELETE_STATEMENT.
    apply subscriptions_DELETE_constraints; exact Hc.
  - unfold SUBSCRIPTION_DELETE_ALL_STATEMENT.
    apply subscriptions_DELETE_constraints; exact Hc.
  - unfold SUBSCRIPTION_DELETE_ALL_TIMEOUT_STATEMENT.
    apply subscriptions_DELETE_constraints; exact Hc.
  - unfold NOTIFICATION_INSERT_STATEMENT.
    match goal with
    | |- context [insert_notifications ?news ?rows] =>
        pose proof (notifications_insert_constraints news tx Hc) as Hn;
        destruct (insert_notifications news rows)
    end.
    exact Hn.
  - apply NOTIFICATION_UPDATE_constraints; exact Hc.
  - apply NOTIFICATION_DELETE_constraints; exact Hc.
  - unfold NOTIFICATION_INSERT_TIMEOUT_STATEMENT.
    match goal with
    | |- context [insert_notifications ?news ?rows] =>
        pose proof (notifications_insert_constraints news tx Hc) as Hn;
        destruct (insert_notifications news rows)
    end.
    exact Hn.
Qed.

End ConstraintsKept.

Section ExecuteInvariant.
Context `{E : Env}.
Variable P : DB -> Prop.
Hypothesis P_command :
  forall fault tx command tx' result,
    performCommand fault tx command = Ok (tx', result) -> P tx -> P tx'.

Lemma performTransaction_invariant (d : Driver) (i : nat) (commands : list Command) :
  forall (j : nat) (tx tx' : DB) (results : list Result),
    performTransaction d i j tx commands = Ok (tx', results) -> P tx -> P tx'.
Proof.
  induction commands as [|c commands IH]; intros j tx tx' results H HP;
    simpl in H.
  - inversion H; subst. exact HP.
  - invert_bind H. destruct a as [tx1 r1]. invert_bind H. destruct a as [tx2 r2].
    inversion H; subst.
    eapply IH; [eassumption|]. eapply P_command; eassumption.
Qed.

Lemma performTransactions_invariant (d : Driver) (transactions : list Transaction.t) :
  forall (i : nat) (tx tx' : DB) (results : list (list Result)),
    performTransactions d i tx transactions = Ok (tx', results) -> P tx -> P tx'.
Proof.
  induction transactions as [|t transactions IH]; intros i tx tx' results H HP;
    simpl in H.
  - inversion H; subst. exact HP.
  - invert_bind H. invert_bind H. destruct a0 as [tx1 r1].
    invert_bind H. destruct a0 as [tx2 r2]. inversion H; subst.
    eapply IH; [eassumption|].
    eapply performTransaction_invariant; eassumption.
Qed.

(** What every command keeps, [Execute] keeps, whatever the driver does. *)
Lemma Execute_invariant (d : Driver) (db : DB) (transactions : list Transaction.t) :
  P db -> P (fst (Execute d db transactions)).
Proof.
  intros HP.
  destruct (Execute d db transactions) as [db' out] eqn:Hex.
  apply Execute_commits_or_keeps in Hex.
  destruct Hex as [(results & _ & _ & _ & _ & Hrun & _)|[-> _]]; [|exact HP].
  simpl. eapply performTransactions_invariant; eassumption.
Qed.

End ExecuteInvariant.

Section StoreInvariants.
Context `{E : Env}.

(** X1. The key constraints of the schema hold after every [Execute] on a
    database in which they hold, whatever the commands and the driver. *)
Theorem execute_keeps_constraints (d : Driver) (db : DB)
  (transactions : list Transaction.t) :
  constraints db -> constraints (fst (Execute d db transactions)).
Proof.
  apply Execute_invariant.
  intros fault tx command tx' result. apply performCommand_constraints.
Qed.

Lemma same_but_completion_refl (r : PromiseRecord.t) : same_but_completion r r.
Proof. unfold same_but_completion. repeat split; reflexivity. Qed.

Lemma persists_refl (r : PromiseRecord.t) : persists r r.
Proof. split; [apply same_but_completion_refl | reflexivity]. Qed.

Lemma persists_trans (a b c : PromiseRecord.t) :
  persists a b -> persists b c -> persists a c.
Proof.
  intros [Hab Ha] [Hbc Hb]. split.
  - unfold same_but_completion in *. intuition congruence.
  - intros Hs. specialize (Ha Hs). subst b. exact (Hb Hs).
Qed.

Lemma UPDATE_persists (where_ : PromiseRecord.t -> bool)
  (set : PromiseRecord.t -> PromiseRecord.t) (rows : list PromiseRecord.t) :
  (forall r, where_ r = true -> PromiseRecord.State r = promise.Pending) ->
  (forall r, same_but_completion r (set r)) ->
  forall r, In r rows ->
    exists r', In r' (fst (UPDATE where_ set rows)) /\ persists r r'.
Proof.
  intros Hw Hset r Hr. unfold UPDATE. simpl.
  exists (if where_ r then set r else r). split.
  - apply in_map_iff. exists r. split; [reflexivity | exact Hr].
  - destruct (where_ r) eqn:Hwr; [|apply persists_refl].
    split; [apply Hset|]. intros Hs. exfalso. exact (Hs (Hw r Hwr)).
Qed.

(** A command never deletes a promise, never changes the columns set at its
    creation, and never changes a promise that is not pending. *)
Lemma performCommand_persists (fault : option Error) (tx tx' : DB)
  (command : Command) (result : Result) :
  performCommand fault tx command = Ok (tx', result) ->
  forall r, In r (promises tx) ->
    exists r', In r' (promises tx') /\ persists r r'.
Proof.
  intros H r Hr.
  assert (promises tx' = promises tx ->
          exists r', In r' (promises tx') /\ persists r r') as Hsame.
  { intros ->. exists r. split; [exact Hr | apply persists_refl]. }
  destruct command; simpl in H;
    unfold readPromise, searchPromises, createPromise, updatePromise,
           timeoutPromises, readTimeouts, createTimeout, deleteTimeout,
           readSubscription, readSubscriptions, createSubscription,
           deleteSubscription, deleteSubscriptions, timeoutDeleteSubscriptions,
           readNotifications, createNotifications, updateNotification,
           deleteNotification, timeoutCreateNotifications in H;
    invert_cmd; try (apply Hsame; reflexivity);
    try match goal with
    | Heq : ?stmt = (tx', _) |- _ =>
        let Hf := fresh in
        pose proof (f_equal fst Heq) as Hf; cbn [fst] in Hf; rewrite <- Hf;
        rewrite <- Hf in Hsame; clear Hf Heq
    end.
  - (* CreatePromise *)
    match goal with
    | Heq : PROMISE_INSERT_STATEMENT _ _ _ _ _ _ _ _ _ = Ok _ |- _ =>
        apply PROMISE_INSERT_Ok in Heq;
        destruct Heq as (sort_id & _ & Hrows & _)
    end.
    unfold INSERT_OR_NOTHING in Hrows.
    destruct (existsb _ (promises tx)); inversion Hrows as [[Hp Hn]]; rewrite Hp;
      exists r; (split; [|apply persists_refl]);
      [exact Hr | apply in_or_app; left; exact Hr].
  - (* UpdatePromise *)
    unfold PROMISE_UPDATE_STATMENT.
    match goal with
    | |- context [UPDATE ?w ?s ?rows] =>
        destruct (UPDATE_persists w s rows) with (r := r) as [r' [Hin Hp]];
          [| |exact Hr|]
    end.
    + intros y Hy. apply andb_true_iff in Hy. destruct Hy as [_ Hy].
      apply Z.eqb_eq in Hy. exact Hy.
    + intros y. unfold same_but_completion. simpl. repeat split; reflexivity.
    + exists r'. split; [exact Hin | exact Hp].
  - (* TimeoutPromises *)
    unfold PROMISE_UPDATE_TIMEOUT_STATEMENT.
    match goal with
    | |- context [UPDATE ?w ?s ?rows] =>
        destruct (UPDATE_persists w s rows) with (r := r) as [r' [Hin Hp]];
          [| |exact Hr|]
    end.
    + intros y Hy. apply andb_true_iff in Hy. destruct Hy as [Hy _].
      apply Z.eqb_eq in Hy. exact Hy.
    + intros y. unfold same_but_completion. simpl. repeat split; reflexivity.
    + exists r'. split; [exact Hin | exact Hp].
  - apply Hsame. unfold TIMEOUT_INSERT_STATEMENT, INSERT_OR_NOTHING.
    destruct (existsb _ _); reflexivity.
  - apply Hsame. reflexivity.
  - apply Hsame.
    match goal with
    | Heq : SUBSCRIPTION_INSERT_STATEMENT _ _ _ _ _ _ = Ok _ |- _ =>
        apply SUBSCRIPTION_INSERT_Ok in Heq;
        destruct Heq as (sort_id & _ & _ & _ & Hp & _)
    end.
    exact Hp.
  - apply Hsame. reflexivity.
  - apply Hsame. reflexivity.
  - apply Hsame. reflexivity.
  - apply Hsame. unfold NOTIFICATION_INSERT_STATEMENT.
    destruct (insert_notifications _ _); reflexivity.
  - apply Hsame. reflexivity.
  - apply Hsame. reflexivity.
  - apply Hsame. unfold NOTIFICATION_INSERT_TIMEOUT_STATEMENT.
    destruct (insert_notifications _ _); reflexivity.
Qed.

(** X2. No [Execute] deletes a promise or changes its id, param, timeout,
    create key, tags, created_on or sort_id; and a promise that is not
    pending is found afterwards exactly as it was: a completed promise is
    final. *)
Theorem execute_keeps_promises (d : Driver) (db : DB)
  (transactions : list Transaction.t) (r : PromiseRecord.t) :
  In r (promises db) ->
  exists r', In r' (promises (fst (Execute d db transactions)))
             /\ same_but_completion r r'
             /\ (PromiseRecord.State r <> promise.Pending -> r' = r).
Proof.
  intros Hr.
  apply (Execute_invariant
           (fun db' => exists r', In r' (promises db') /\ persists r r')).
  - intros fault tx command tx' result Hcmd [r1 [Hin1 Hp1]].
    destruct (performCommand_persists fault tx tx' command result Hcmd r1 Hin1)
      as [r2 [Hin2 Hp2]].
    exists r2. split; [exact Hin2 | eapply persists_trans; eassumption].
  - exists r. split; [exact Hr | apply persists_refl].
Qed.

End StoreInvariants.

Ltac prove_constraints :=
  constructor; [prove_wf | simpl; repeat constructor; simpl; intuition discriminate ..].

Lemma execute_keeps_constraints_witness :
  constraints db_pending
  /\ constraints (fst (Execute (E := sample_env) healthy db_pending
                         [reject_transaction reject_p1 10])).
Proof.
  assert (constraints db_pending) as Hc by prove_constraints.
  split; [exact Hc|].
  exact (execute_keeps_constraints (E := sample_env) healthy db_pending
           [reject_transaction reject_p1 10] Hc).
Defined.

Lemma execute_keeps_promises_witness :
  In (hd pending_p1 (promises db_rejected)) (promises db_rejected)
  /\ exists r',
       In r' (promises (fst (Execute (E := sample_env) healthy db_rejected
                               [Transaction.mk
                                  [UpdatePromise "p1" promise.Resolved sample_value
                                     None 30;
                                   TimeoutPromises 150]])))
       /\ r' = hd pending_p1 (promises db_rejected).
Proof.
  assert (In (hd pending_p1 (promises db_rejected)) (promises db_rejected)) as Hin
    by (left; reflexivity).
  split; [exact Hin|].
  destruct (execute_keeps_promises (E := sample_env) healthy db_rejected
              [Transaction.mk
                 [UpdatePromise "p1" promise.Resolved sample_value None 30;
                  TimeoutPromises 150]]
              (hd pending_p1 (promises db_rejected)) Hin)
    as (r' & Hr' & _ & Hfinal).
  exists r'. split; [exact Hr'|]. apply Hfinal. discriminate.
Defined.

(** ** The timeout sweep *)

Section Sweep.
Context `{E : Env}.

Lemma filter_none {A} (p : A -> bool) (l : list A) :
  (forall x, In x l -> p x = false) -> filter p l = [].
Proof.
  induction l as [|a l IH]; simpl; intros Hp; [reflexivity|].
  rewrite (Hp a (or_introl eq_refl)). apply IH. intros x Hx. apply Hp. right. exact Hx.
Qed.

Lemma filter_every {A} (p : A -> bool) (l : list A) :
  (forall x, In x l -> p x = true) -> filter p l = l.
Proof.
  induction l as [|a l IH]; simpl; intros Hp; [reflexivity|].
  rewrite (Hp a (or_introl eq_refl)). f_equal. apply IH.
  intros x Hx. apply Hp. right. exact Hx.
Qed.

Lemma set_notifications_same (db : DB) : set_notifications db (notifications db) = db.
Proof. destruct db; reflexivity. Qed.

Lemma set_subscriptions_same (db : DB) : set_subscriptions db (subscriptions db) = db.
Proof. destruct db; reflexivity. Qed.

Lemma pending_and_due_spec (t : Z) (r : PromiseRecord.t) :
  pending_and_due t r = true <->
  PromiseRecord.State r = promise.Pending /\ PromiseRecord.Timeout r <= t.
Proof.
  unfold pending_and_due, promise.Pending.
  rewrite andb_true_iff, Z.eqb_eq, Z.leb_le. reflexivity.
Qed.

Lemma promise_due_spec (db : DB) (t : Z) (s : SubscriptionRecord.t) :
  promise_due db t (SubscriptionRecord.PromiseId s) = true <-> due db t s.
Proof.
  unfold promise_due, due. rewrite existsb_exists. split.
  - intros [r [Hr Heq]]. apply filter_In in Hr. destruct Hr as [Hr Hd].
    apply pending_and_due_spec in Hd. apply String.eqb_eq in Heq.
    exists r. intuition.
  - intros [r [Hr [Hid [Hs Ht]]]]. exists r. split.
    + apply filter_In. split; [exact Hr|]. apply pending_and_due_spec. tauto.
    + apply String.eqb_eq. symmetry. exact Hid.
Qed.

Lemma timeoutPromises_runs (tx : DB) (t : Z) :
  0 <= t ->
  timeoutPromises None tx t
  = Ok (set_promises tx
          (map (fun r => if pending_and_due t r then set_timedout r else r)
               (promises tx)),
        R_TimeoutPromises
          (Z.of_nat (List.length (filter (pending_and_due t) (promises tx))))).
Proof.
  intros Ht. unfold timeoutPromises, Assert.
  replace (0 <=? t) with true by (symmetry; apply Z.leb_le; exact Ht).
  reflexivity.
Qed.

Lemma timeoutCreateNotifications_runs (tx : DB) (t : Z) :
  0 <= t ->
  timeoutCreateNotifications None tx t
  = Ok (set_notifications tx
          (fst (insert_notifications
                  (map (notification_of t)
                       (filter (fun s => promise_due tx t (SubscriptionRecord.PromiseId s))
                               (subscriptions tx)))
                  (notifications tx))),
        R_TimeoutCreateNotifications
          (snd (insert_notifications
                  (map (notification_of t)
                       (filter (fun s => promise_due tx t (SubscriptionRecord.PromiseId s))
                               (subscriptions tx)))
                  (notifications tx)))).
Proof.
  intros Ht. unfold timeoutCreateNotifications, Assert.
  replace (0 <=? t) with true by (symmetry; apply Z.leb_le; exact Ht).
  simpl. unfold NOTIFICATION_INSERT_TIMEOUT_STATEMENT.
  destruct (insert_notifications _ (notifications tx)); reflexivity.
Qed.

Lemma timeoutDeleteSubscriptions_runs (tx : DB) (t : Z) :
  0 <= t ->
  timeoutDeleteSubscriptions None tx t
  = Ok (set_subscriptions tx
          (filter (fun s => negb (promise_due tx t (SubscriptionRecord.PromiseId s)))
                  (subscriptions tx)),
        R_TimeoutDeleteSubscriptions
          (Z.of_nat (List.length
             (filter (fun s => promise_due tx t (SubscriptionRecord.PromiseId s))
                     (subscriptions tx))))).
Proof.
  intros Ht. unfold timeoutDeleteSubscriptions, Assert.
  replace (0 <=? t) with true by (symmetry; apply Z.leb_le; exact Ht).
  reflexivity.
Qed.

(** After the promises are timed out at [t], none is pending and due at any
    [t' <= t]. *)
Lemma none_due_after (tx : DB) (t t' : Z) :
  t' <= t ->
  forall r,
    In r (map (fun r => if pending_and_due t r then set_timedout r else r)
              (promises tx)) ->
    pending_and_due t' r = false.
Proof.
  intros Hle r Hr. apply in_map_iff in Hr. destruct Hr as [x [Hx _]].
  destruct (pending_and_due t x) eqn:Hd; subst r; [reflexivity|].
  unfold pending_and_due in *.
  destruct (PromiseRecord.State x =? 1); [|reflexivity]. simpl in *.
  apply Z.leb_gt in Hd. apply Z.leb_gt. lia.
Qed.

Lemma Execute_healthy_three (db tx1 tx2 tx3 : DB) (c1 c2 c3 : Command)
  (r1 r2 r3 : Result) :
  performCommand None db c1 = Ok (tx1, r1) ->
  performCommand None tx1 c2 = Ok (tx2, r2) ->
  performCommand None tx2 c3 = Ok (tx3, r3) ->
  Execute healthy db [Transaction.mk [c1; c2; c3]] = (tx3, Ok [[r1; r2; r3]]).
Proof.
  intros H1 H2 H3. unfold Execute, performCommands. simpl.
  rewrite H1. simpl. rewrite H2. simpl. rewrite H3. reflexivity.
Qed.

(** X3. TimeoutPromises(t) leaves no promise pending with timeout <= t, so a
    second TimeoutPromises at the same or an earlier time changes nothing and
    reports rowsAffected = 0. *)
Theorem timeout_promises_idempotent (tx : DB) (t t' : Z) :
  0 <= t' -> t' <= t ->
  exists tx' n,
    timeoutPromises None tx t = Ok (tx', R_TimeoutPromises n)
    /\ (forall r, In r (promises tx') ->
          ~ (PromiseRecord.State r = promise.Pending /\ PromiseRecord.Timeout r <= t))
    /\ timeoutPromises None tx' t' = Ok (tx', R_TimeoutPromises 0).
Proof.
  intros H0 Hle.
  set (rows := map (fun r => if pending_and_due t r then set_timedout r else r)
                   (promises tx)).
  exists (set_promises tx rows),
         (Z.of_nat (List.length (filter (pending_and_due t) (promises tx)))).
  split; [apply timeoutPromises_runs; lia|].
  split.
  - intros r Hr Hd. apply pending_and_due_spec in Hd.
    rewrite (none_due_after tx t t (Z.le_refl t) r Hr) in Hd. discriminate.
  - rewrite timeoutPromises_runs by exact H0.
    change (promises (set_promises tx rows)) with rows.
    assert (filter (pending_and_due t') rows = []) as Hf
      by (apply filter_none, none_due_after; exact Hle).
    rewrite Hf, map_if_false by exact Hf.
    destruct tx; reflexivity.
Qed.

(** X4. If a transaction times the promises out first, the two statements
    that follow find no promise pending any more: TimeoutCreateNotifications
    inserts nothing and TimeoutDeleteSubscriptions deletes nothing, so the
    subscriptions of the promises just timed out stay and get no
    notification. *)
Theorem sweep_promises_first_skips_subscriptions (db : DB) (t : Z) :
  0 <= t ->
  exists db' n,
    Execute healthy db [sweep_promises_first t]
    = (db', Ok [[R_TimeoutPromises n; R_TimeoutCreateNotifications 0;
                 R_TimeoutDeleteSubscriptions 0]])
    /\ n = Z.of_nat (List.length (filter (pending_and_due t) (promises db)))
    /\ subscriptions db' = subscriptions db
    /\ notifications db' = notifications db.
Proof.
  intros Ht.
  set (tx1 := set_promises db
                (map (fun r => if pending_and_due t r then set_timedout r else r)
                     (promises db))).
  assert (forall pid, promise_due tx1 t pid = false) as Hnone.
  { intros pid. unfold promise_due.
    rewrite (filter_none (pending_and_due t)); [reflexivity|].
    apply none_due_after. lia. }
  exists tx1, (Z.of_nat (List.length (filter (pending_and_due t) (promises db)))).
  split; [|repeat split].
  apply Execute_healthy_three with (tx1 := tx1) (tx2 := tx1).
  - simpl. apply timeoutPromises_runs. exact Ht.
  - simpl. rewrite timeoutCreateNotifications_runs by exact Ht.
    rewrite (filter_none (fun s => promise_due tx1 t (SubscriptionRecord.PromiseId s)))
      by (intros; apply Hnone).
    unfold insert_notifications. cbn [map fold_left fst snd].
    rewrite set_notifications_same. reflexivity.
  - simpl. rewrite timeoutDeleteSubscriptions_runs by exact Ht.
    rewrite (filter_none (fun s => promise_due tx1 t (SubscriptionRecord.PromiseId s)))
      by (intros; apply Hnone).
    rewrite filter_every by (intros; rewrite Hnone; reflexivity).
    cbn [List.length]. rewrite set_subscriptions_same. reflexivity.
Qed.

End Sweep.

Section SweepLast.
Context `{E : Env}.

(** X5. With the promises timed out last, the sweep at [t] deletes exactly
    the subscriptions of the promises that were pending with timeout <= t,
    leaves for each of them a notification of its key (made of the
    subscription, with time [t] and attempt 0, when the key was free), and
    leaves no promise pending with timeout <= t. *)
Theorem sweep_promises_last_notifies (db : DB) (t : Z) :
  wf db -> 0 <= t ->
  exists db' n1 n2 n3,
    Execute healthy db [sweep_promises_last t]
    = (db', Ok [[R_TimeoutCreateNotifications n1; R_TimeoutDeleteSubscriptions n2;
                 R_TimeoutPromises n3]])
    /\ (forall s, In s (subscriptions db') <->
                  In s (subscriptions db) /\ ~ due db t s)
    /\ (forall s, In s (subscriptions db) -> due db t s ->
          exists n, In n (notifications db')
                    /\ notif_key n = sub_key s
                    /\ ((forall m, In m (notifications db) ->
                           notif_key m <> sub_key s) ->
                        n = notification_of t s))
    /\ (forall r, In r (promises db') ->
          ~ (PromiseRecord.State r = promise.Pending /\ PromiseRecord.Timeout r <= t)).
Proof.
  intros Hwf Ht.
  set (selected := filter (fun s => promise_due db t (SubscriptionRecord.PromiseId s))
                          (subscriptions db)).
  set (news := map (notification_of t) selected).
  set (ins := insert_notifications news (notifications db)).
  set (tx1 := set_notifications db (fst ins)).
  set (tx2 := set_subscriptions tx1
                (filter (fun s => negb (promise_due tx1 t (SubscriptionRecord.PromiseId s)))
                        (subscriptions tx1))).
  set (tx3 := set_promises tx2
                (map (fun r => if pending_and_due t r then set_timedout r else r)
                     (promises tx2))).
  exists tx3. do 3 eexists. split; [|split; [|split]].
  - apply Execute_healthy_three with (tx1 := tx1) (tx2 := tx2).
    + simpl. apply timeoutCreateNotifications_runs. exact Ht.
    + simpl. apply timeoutDeleteSubscriptions_runs. exact Ht.
    + simpl. apply timeoutPromises_runs. exact Ht.
  - intros s. simpl. rewrite filter_In, negb_true_iff.
    change (promise_due tx1 t (SubscriptionRecord.PromiseId s))
      with (promise_due db t (SubscriptionRecord.PromiseId s)).
    rewrite <- promise_due_spec.
    destruct (promise_due db t (SubscriptionRecord.PromiseId s));
      intuition discriminate.
  - intros s Hs Hdue. simpl.
    assert (In (notification_of t s) news) as Hin.
    { unfold news. apply in_map. unfold selected. apply filter_In.
      split; [exact Hs|]. apply promise_due_spec. exact Hdue. }
    assert (NoDup (map notif_key news)) as Hnews.
    { unfold news. rewrite map_map.
      change (fun x => notif_key (notification_of t x)) with sub_key.
      apply NoDup_map_filter. exact (wf_subscription_key _ Hwf). }
    destruct (insert_notifications_covers news (notifications db, 0)
                (notification_of t s) Hin) as [n [Hn Hk]].
    exists n. split; [exact Hn|]. split; [exact Hk|].
    intros Hfree.
    assert (In (notification_of t s) (fst ins)) as Hnew.
    { apply insert_notifications_adds; assumption. }
    symmetry. apply (NoDup_key_eq (fst ins)); try assumption.
    + apply insert_notifications_NoDup. exact (wf_notification_key _ Hwf).
    + rewrite Hk. reflexivity.
  - intros r Hr Hd. apply pending_and_due_spec in Hd.
    simpl in Hr.
    rewrite (none_due_after tx2 t t (Z.le_refl t) r Hr) in Hd. discriminate.
Qed.

End SweepLast.

Lemma timeout_promises_idempotent_witness :
  0 <= 120 /\ 120 <= 150
  /\ exists tx',
       timeoutPromises None db_three 150 = Ok (tx', R_TimeoutPromises 1)
       /\ timeoutPromises None tx' 120 = Ok (tx', R_TimeoutPromises 0).
Proof.
  assert (0 <= 120) as H0 by lia. assert (120 <= 150) as H1 by lia.
  split; [exact H0|]. split; [exact H1|].
  destruct (timeout_promises_idempotent db_three 150 120 H0 H1)
    as (tx' & n & Hrun & _ & Hagain).
  exists tx'. split; [|exact Hagain].
  rewrite Hrun. assert (n = 1) as ->; [|reflexivity].
  rewrite timeoutPromises_runs in Hrun by lia. inversion Hrun. reflexivity.
Defined.

Lemma sweep_promises_first_skips_subscriptions_witness :
  0 <= 150
  /\ exists db',
       Execute (E := sample_env) healthy db_pending [sweep_promises_first 150]
       = (db', Ok [[R_TimeoutPromises 1; R_TimeoutCreateNotifications 0;
                    R_TimeoutDeleteSubscriptions 0]])
       /\ subscriptions db' = [sub_s1_p1].
Proof.
  assert (0 <= 150) as Ht by lia.
  split; [exact Ht|].
  destruct (sweep_promises_first_skips_subscriptions (E := sample_env) db_pending 150 Ht)
    as (db' & n & Hrun & Hn & Hsubs & _).
  exists db'. split; [|exact Hsubs].
  rewrite Hrun, Hn. reflexivity.
Defined.

Lemma sweep_promises_last_notifies_witness :
  wf db_pending /\ 0 <= 150
  /\ exists db' n1 n2 n3,
       Execute (E := sample_env) healthy db_pending [sweep_promises_last 150]
       = (db', Ok [[R_TimeoutCreateNotifications n1; R_TimeoutDeleteSubscriptions n2;
                    R_TimeoutPromises n3]])
       /\ ~ In sub_s1_p1 (subscriptions db').
Proof.
  assert (wf db_pending) as Hwf by prove_wf.
  assert (0 <= 150) as Ht by lia.
  split; [exact Hwf|]. split; [exact Ht|].
  destruct (sweep_promises_last_notifies (E := sample_env) db_pending 150 Hwf Ht)
    as (db' & n1 & n2 & n3 & Hrun & Hsubs & _).
  exists db', n1, n2, n3. split; [exact Hrun|].
  intros Hin. apply Hsubs in Hin. destruct Hin as [_ Hnot]. apply Hnot.
  exists pending_p1. simpl. repeat split; try reflexivity; [left; reflexivity | lia].
Defined.

(** ** Creating and reading a promise *)

Section CreateRead.
Context `{E : Env}.

Lemma filter_id_absent (id : string) (rows : list PromiseRecord.t) :
  (forall r, In r rows -> PromiseRecord.Id r <> id) ->
  filter (fun r => String.eqb (PromiseRecord.Id r) id) rows = [].
Proof.
  intros Habs. apply filter_none. intros r Hr.
  apply String.eqb_neq. apply Habs. exact Hr.
Qed.

(** X6. CreatePromise takes a rowid before it looks at the id.  If none is
    left (the counter of promises or a sort_id has reached 2^63 - 1) it
    returns the engine's error.  Otherwise the rowid is above the counter and
    above every sort_id (the counter plus one when no row is above the
    counter), and the counter holds it afterwards.  For an id that no row
    has, one pending row is added with this sort_id (rowsAffected = 1) and a
    ReadPromise of the id returns it, with the marshalled headers and tags,
    the data, timeout, key and created_on of the command, no value and no
    completed_on.  For an id that a row has, no row of any table changes and
    rowsAffected = 0, but the rowid is used up. *)
Theorem create_promise_then_read (tx : DB) (Id : string) (headers tags : StringMap)
  (data hb tb : bytes) (Timeout : Z) (IdempotencyKey : option promise.IdempotencyKey)
  (CreatedOn : Z) :
  json_Marshal headers = Ok hb ->
  json_Marshal tags = Ok tb ->
  (MAX_ROWID <= promises_seq tx
   \/ (exists r, In r (promises tx) /\ MAX_ROWID <= PromiseRecord.SortId r) ->
   createPromise None tx Id (Value.mk (Some headers) (Some data)) Timeout
     IdempotencyKey (Some tags) CreatedOn
   = Err SQLITE_FULL)
  /\ (promises_seq tx < MAX_ROWID ->
      (forall r, In r (promises tx) -> PromiseRecord.SortId r < MAX_ROWID) ->
      exists sort_id,
        next_rowid (promises_seq tx) (map PromiseRecord.SortId (promises tx))
        = Ok sort_id
        /\ promises_seq tx < sort_id <= MAX_ROWID
        /\ (forall r, In r (promises tx) -> PromiseRecord.SortId r < sort_id)
        /\ (0 <= promises_seq tx ->
            (forall r, In r (promises tx) ->
               PromiseRecord.SortId r <= promises_seq tx) ->
            sort_id = promises_seq tx + 1)
        /\ ((forall r, In r (promises tx) -> PromiseRecord.Id r <> Id) ->
            createPromise None tx Id (Value.mk (Some headers) (Some data)) Timeout
              IdempotencyKey (Some tags) CreatedOn
            = Ok (mkDB (promises tx
                        ++ [PromiseRecord.mk Id promise.Pending (Some hb)
                              (Some data) None None Timeout IdempotencyKey None
                              (Some tb) (Some CreatedOn) None sort_id])
                       sort_id (timeouts tx) (subscriptions tx)
                       (subscriptions_seq tx) (notifications tx),
                  R_CreatePromise 1)
            /\ readPromise None
                 (mkDB (promises tx
                        ++ [PromiseRecord.mk Id promise.Pending (Some hb)
                              (Some data) None None Timeout IdempotencyKey None
                              (Some tb) (Some CreatedOn) None sort_id])
                       sort_id (timeouts tx) (subscriptions tx)
                       (subscriptions_seq tx) (notifications tx))
                 Id
               = Ok (mkDB (promises tx
                           ++ [PromiseRecord.mk Id promise.Pending (Some hb)
                                 (Some data) None None Timeout IdempotencyKey None
                                 (Some tb) (Some CreatedOn) None sort_id])
                          sort_id (timeouts tx) (subscriptions tx)
                          (subscriptions_seq tx) (notifications tx),
                     R_ReadPromise
                       (QueryPromisesResult.mk 1 0
                          [PromiseRecord.mk Id promise.Pending (Some hb)
                             (Some data) None None Timeout IdempotencyKey None
                             (Some tb) (Some CreatedOn) None 0])))
        /\ ((exists r, In r (promises tx) /\ PromiseRecord.Id r = Id) ->
            createPromise None tx Id (Value.mk (Some headers) (Some data)) Timeout
              IdempotencyKey (Some tags) CreatedOn
            = Ok (mkDB (promises tx) sort_id (timeouts tx) (subscriptions tx)
                       (subscriptions_seq tx) (notifications tx),
                  R_CreatePromise 0))).
Proof.
  intros Hh Ht.
  assert (createPromise None tx Id (Value.mk (Some headers) (Some data)) Timeout
            IdempotencyKey (Some tags) CreatedOn
          = ('(tx', n) <- PROMISE_INSERT_STATEMENT Id promise.Pending hb data
                            Timeout IdempotencyKey tb CreatedOn tx ;;
             Ok (tx', R_CreatePromise n))) as Hcreate.
  { unfold createPromise. simpl. rewrite Hh. simpl. rewrite Ht. reflexivity. }
  rewrite Hcreate. clear Hcreate. unfold PROMISE_INSERT_STATEMENT. split.
  - intros Hfull.
    assert (next_rowid (promises_seq tx) (map PromiseRecord.SortId (promises tx))
            = Err SQLITE_FULL) as ->; [|reflexivity].
    apply next_rowid_full. destruct Hfull as [Hs|[r [Hr Hmax]]]; [left; exact Hs|].
    right. exists (PromiseRecord.SortId r). split; [|exact Hmax].
    apply in_map. exact Hr.
  - intros Hseq Hrows.
    destruct (next_rowid_left (promises_seq tx)
                (map PromiseRecord.SortId (promises tx)) Hseq) as [sort_id Hid].
    { intros x Hx. apply in_map_iff in Hx. destruct Hx as [r [<- Hr]].
      exact (Hrows r Hr). }
    exists sort_id. split; [exact Hid|].
    pose proof (next_rowid_Ok _ _ _ Hid) as (Habove & Hmax & Hfresh).
    split; [lia|]. split.
    { intros r Hr. apply Hfresh. apply in_map. exact Hr. }
    split.
    { intros H0 Hle. apply (next_rowid_counter _ _ _ Hid H0).
      intros x Hx. apply in_map_iff in Hx. destruct Hx as [r [<- Hr]].
      exact (Hle r Hr). }
    rewrite Hid. unfold INSERT_OR_NOTHING. split.
    + intros Habs.
      assert (existsb (fun r => String.eqb (PromiseRecord.Id r) Id) (promises tx)
              = false) as Hex.
      { destruct (existsb _ (promises tx)) eqn:Hex; [|reflexivity].
        apply existsb_exists in Hex. destruct Hex as [r [Hr Heq]].
        apply String.eqb_eq in Heq. exfalso. exact (Habs r Hr Heq). }
      split.
      * simpl. rewrite Hex. reflexivity.
      * unfold readPromise, PROMISE_SELECT_STATEMENT. simpl.
        rewrite filter_app, filter_id_absent by exact Habs.
        simpl. rewrite String.eqb_refl. reflexivity.
    + intros [r [Hr Heq]].
      assert (existsb (fun r => String.eqb (PromiseRecord.Id r) Id) (promises tx)
              = true) as Hex.
      { apply existsb_exists. exists r. split; [exact Hr|].
        apply String.eqb_eq. exact Heq. }
      simpl. rewrite Hex. reflexivity.
Qed.

(** X7. A ReadPromise that goes through changes nothing and returns no row
    or one row, never more, also where the table had several rows of the id:
    RowsReturned is the number of records, so the assertion of the
    coroutines on it holds; a record returned is a row of the table with the
    id asked for, its sort_id not read; and no row is returned exactly when
    the table has no row of the id. *)
Theorem read_promise_returns_at_most_one (fault : option Error) (tx tx' : DB)
  (Id : string) (result : Result) :
  readPromise fault tx Id = Ok (tx', result) ->
  tx' = tx
  /\ exists q,
       result = R_ReadPromise q
       /\ (QueryPromisesResult.RowsReturned q = 0
           \/ QueryPromisesResult.RowsReturned q = 1)
       /\ QueryPromisesResult.RowsReturned q
          = Z.of_nat (List.length (QueryPromisesResult.Records q))
       /\ Assert ((QueryPromisesResult.RowsReturned q =? 0)
                  || (QueryPromisesResult.RowsReturned q =? 1))
                 "result must return 0 or 1 rows" = Ok tt
       /\ (forall record, In record (QueryPromisesResult.Records q) ->
             PromiseRecord.Id record = Id
             /\ exists row, In row (promises tx)
                            /\ record = PromiseRecord.with_SortId row 0)
       /\ (QueryPromisesResult.RowsReturned q = 0 <->
           forall row, In row (promises tx) -> PromiseRecord.Id row <> Id).
Proof.
  unfold readPromise, PROMISE_SELECT_STATEMENT. intros H.
  apply bind_Ok in H. destruct H as [u [_ H]].
  inversion H as [[Htx Hres]]. clear H. subst tx'.
  split; [reflexivity|]. eexists. split; [reflexivity|]. clear Hres. simpl.
  set (found := filter (fun r => String.eqb (PromiseRecord.Id r) Id) (promises tx)).
  assert (forall r, In r found -> In r (promises tx) /\ PromiseRecord.Id r = Id)
    as Hfound.
  { intros r Hr. apply filter_In in Hr. destruct Hr as [Hr Heq].
    apply String.eqb_eq in Heq. tauto. }
  assert (forall row, In row (promises tx) -> PromiseRecord.Id row = Id ->
                      In row found) as Hall.
  { intros row Hrow Hid. apply filter_In. split; [exact Hrow|].
    apply String.eqb_eq. exact Hid. }
  destruct found as [|r0 rest]; simpl.
  - split; [left; reflexivity|]. split; [reflexivity|]. split; [reflexivity|].
    split; [intros record []|].
    split; [|reflexivity].
    intros _ row Hrow Hid. exact (Hall row Hrow Hid).
  - destruct (Hfound r0 (or_introl eq_refl)) as [Hr0 Hid0].
    split; [right; reflexivity|]. split; [reflexivity|]. split; [reflexivity|].
    split.
    + intros record [Hrec|[]]. subst record. split; [exact Hid0|].
      exists r0. split; [exact Hr0 | reflexivity].
    + split; [discriminate|].
      intros Habs. exfalso. exact (Habs r0 Hr0 Hid0).
Qed.

End CreateRead.

Lemma create_promise_then_read_witness :
  json_Marshal (Env := sample_env) [] = Ok []
  /\ createPromise (E := sample_env) None
       (mkDB [pending_p1] MAX_ROWID [] [] 0 []) "p9"
       (Value.mk (Some []) (Some [])) 100 None (Some []) 5
     = Err SQLITE_FULL
  /\ (exists sort_id,
        createPromise (E := sample_env) None db_pending "p1"
          (Value.mk (Some []) (Some [])) 100 None (Some []) 5
        = Ok (mkDB (promises db_pending) sort_id (timeouts db_pending)
                   (subscriptions db_pending) (subscriptions_seq db_pending)
                   (notifications db_pending),
              R_CreatePromise 0)
        /\ promises_seq db_pending < sort_id).
Proof.
  assert (json_Marshal (Env := sample_env) [] = Ok []) as Hm by reflexivity.
  split; [exact Hm|].
  destruct (create_promise_then_read (E := sample_env)
              (mkDB [pending_p1] MAX_ROWID [] [] 0 []) "p9" [] [] [] [] []
              100 None 5 Hm Hm) as [Hfull _].
  destruct (create_promise_then_read (E := sample_env) db_pending "p1" [] [] [] [] []
              100 None 5 Hm Hm) as [_ Hleft].
  split.
  - apply Hfull. left. simpl. lia.
  - destruct Hleft as (sort_id & _ & Habove & _ & _ & _ & Hold).
    + simpl. unfold MAX_ROWID. lia.
    + intros r [<-|[]]. simpl. unfold MAX_ROWID. lia.
    + exists sort_id. split; [|lia].
      apply Hold. exists pending_p1. split; [left; reflexivity | reflexivity].
Defined.

Lemma read_promise_returns_at_most_one_witness :
  readPromise None db_three "p2"
  = Ok (db_three,
        R_ReadPromise
          (QueryPromisesResult.mk 1 0
             [PromiseRecord.mk "p2" 1 (Some []) (Some []) None None 1000 None None
                (Some []) (Some 0) None 0]))
  /\ db_three = db_three.
Proof.
  assert (readPromise None db_three "p2"
          = Ok (db_three,
                R_ReadPromise
                  (QueryPromisesResult.mk 1 0
                     [PromiseRecord.mk "p2" 1 (Some []) (Some []) None None 1000
                        None None (Some []) (Some 0) None 0]))) as Hrun
    by reflexivity.
  split; [exact Hrun|].
  exact (proj1 (read_promise_returns_at_most_one None db_three db_three "p2" _ Hrun)).
Defined.

(** ** A batch of transactions in one Execute *)

Section Batch.
Context `{E : Env}.

Lemma performTransaction_healthy_index (commands : list Command) :
  forall (i j i' j' : nat) (tx : DB),
    performTransaction healthy i j tx commands
    = performTransaction healthy i' j' tx commands.
Proof.
  induction commands as [|c commands IH]; intros i j i' j' tx; simpl;
    [reflexivity|].
  destruct (performCommand None tx c) as [[tx1 r1]| |]; simpl; try reflexivity.
  rewrite (IH i (S j) i' (S j')). reflexivity.
Qed.

Lemma performTransactions_healthy_index (transactions : list Transaction.t) :
  forall (i i' : nat) (tx : DB),
    performTransactions healthy i tx transactions
    = performTransactions healthy i' tx transactions.
Proof.
  induction transactions as [|t ts IH]; intros i i' tx; simpl; [reflexivity|].
  destruct (Assert _ _) as [u| |]; simpl; try reflexivity.
  rewrite (performTransaction_healthy_index _ i 0%nat i' 0%nat).
  destruct (performTransaction healthy i' 0 tx (Transaction.Commands t))
    as [[tx1 r1]| |]; simpl; try reflexivity.
  rewrite (IH (S i) (S i')). reflexivity.
Qed.

Lemma Execute_healthy (db : DB) (transactions : list Transaction.t) :
  transactions <> [] ->
  Execute healthy db transactions
  = match performTransactions healthy 0 db transactions with
    | Ok (tx, results) => (tx, Ok results)
    | Err err => (db, Err err)
    | Panic msg => (db, Panic msg)
    end.
Proof.
  intros Hne. unfold Execute, performCommands.
  destruct transactions as [|t ts]; [contradiction|].
  replace (0 <? Z.of_nat (List.length (t :: ts))) with true
    by (symmetry; apply Z.ltb_lt; simpl List.length; lia).
  cbn [negb healthy begin_fault prepare_fault rollback_fault commit_fault driver bind].
  destruct (performTransactions healthy 0 db (t :: ts)) as [[tx r]| |]; reflexivity.
Qed.

Lemma Execute_nonempty (d : Driver) (db db' : DB) (transactions : list Transaction.t)
  (out : outcome (list (list Result))) :
  Execute d db transactions = (db', out) ->
  (forall msg, out <> Panic msg) ->
  transactions <> [].
Proof.
  intros H Hout Hnil. subst transactions. unfold Execute in H. simpl in H.
  inversion H; subst. exact (Hout _ eq_refl).
Qed.

(** X8. Transactions submitted together share their fate.  When the driver
    does not fail and a batch [a] alone would commit, [a] followed by a
    batch [b] commits what [b] would commit after [a], with the results of
    both; but if [b] would return an error or panic after [a], the Execute
    of both returns it and the database is as before [a]: the effects of [a]
    are discarded too. *)
Theorem execute_batch_shares_fate (db db1 : DB) (a b : list Transaction.t)
  (r1 : list (list Result)) :
  Execute healthy db a = (db1, Ok r1) ->
  (forall db2 r2,
     Execute healthy db1 b = (db2, Ok r2) ->
     Execute healthy db (a ++ b) = (db2, Ok (r1 ++ r2)))
  /\ (forall err,
        Execute healthy db1 b = (db1, Err err) ->
        Execute healthy db (a ++ b) = (db, Err err))
  /\ (forall msg,
        b <> [] ->
        Execute healthy db1 b = (db1, Panic msg) ->
        Execute healthy db (a ++ b) = (db, Panic msg)).
Proof.
  intros Ha.
  assert (a <> []) as Hane
    by (eapply Execute_nonempty; [exact Ha | discriminate]).
  assert (a ++ b <> []) as Habne.
  { intros Hnil. apply app_eq_nil in Hnil. tauto. }
  rewrite Execute_healthy in Ha by exact Hane.
  destruct (performTransactions healthy 0 db a) as [[tx ra]| |] eqn:Hpa;
    inversion Ha; subst.
  assert (forall out,
            Execute healthy db1 b = out -> b <> [] ->
            Execute healthy db (a ++ b)
            = match performTransactions healthy 0 db1 b with
              | Ok (tx, results) => (tx, Ok (r1 ++ results))
              | Err err => (db, Err err)
              | Panic msg => (db, Panic msg)
              end) as Hab.
  { intros out _ Hbne. rewrite Execute_healthy by exact Habne.
    rewrite performTransactions_app, Hpa. simpl.
    rewrite (performTransactions_healthy_index b _ 0%nat).
    destruct (performTransactions healthy 0 db1 b) as [[tx r]| |]; reflexivity. }
  split; [|split].
  - intros db2 r2 Hb.
    assert (b <> []) as Hbne
      by (eapply Execute_nonempty; [exact Hb | discriminate]).
    rewrite (Hab _ Hb Hbne). rewrite Execute_healthy in Hb by exact Hbne.
    destruct (performTransactions healthy 0 db1 b) as [[tx r]| |];
      inversion Hb; subst; reflexivity.
  - intros err Hb.
    assert (b <> []) as Hbne
      by (eapply Execute_nonempty; [exact Hb | discriminate]).
    rewrite (Hab _ Hb Hbne). rewrite Execute_healthy in Hb by exact Hbne.
    destruct (performTransactions healthy 0 db1 b) as [[tx r]| |];
      inversion Hb; subst; reflexivity.
  - intros msg Hbne Hb.
    rewrite (Hab _ Hb Hbne). rewrite Execute_healthy in Hb by exact Hbne.
    destruct (performTransactions healthy 0 db1 b) as [[tx r]| |];
      inversion Hb; subst; reflexivity.
Qed.

End Batch.

Lemma execute_batch_shares_fate_witness :
  Execute (E := sample_env) healthy db_pending [reject_transaction reject_p1 10]
  = (fst (Execute (E := sample_env) healthy db_pending
            [reject_transaction reject_p1 10]),
     Ok [[R_UpdatePromise 1; R_CreateNotifications 1; R_DeleteSubscriptions 1]])
  /\ Execute (E := sample_env) healthy db_pending
       ([reject_transaction reject_p1 10] ++ [Transaction.mk []])
     = (db_pending, Panic "expected a command").
Proof.
  assert (Execute (E := sample_env) healthy db_pending
            [reject_transaction reject_p1 10]
          = (fst (Execute (E := sample_env) healthy db_pending
                    [reject_transaction reject_p1 10]),
             Ok [[R_UpdatePromise 1; R_CreateNotifications 1;
                  R_DeleteSubscriptions 1]])) as Ha by reflexivity.
  split; [exact Ha|].
  destruct (execute_batch_shares_fate (E := sample_env) db_pending _
              [reject_transaction reject_p1 10] [Transaction.mk []] _ Ha)
    as (_ & _ & Hpanic).
  apply Hpanic; [discriminate | reflexivity].
Defined.

(** ** Reads in order *)

Lemma In_skipn_own {A} (k : nat) (l : list A) (x : A) :
  In x (skipn k l) -> In x l.
Proof.
  revert k. induction l as [|a l IH]; intros k Hx; destruct k; simpl in Hx;
    try contradiction; try exact Hx.
  right. eapply IH. exact Hx.
Qed.

Section OrderByKey.
Variable A : Type.
Variable key : A -> Z.
Variable leb : A -> A -> bool.
Hypothesis leb_true : forall a b, leb a b = true -> key a <= key b.
Hypothesis leb_false : forall a b, leb a b = false -> key b <= key a.

Definition key_le (a b : A) : Prop := key a <= key b.

Lemma insert_by_key_sorted (a : A) (l : list A) :
  StronglySorted key_le l -> StronglySorted key_le (insert_by leb a l).
Proof.
  induction l as [|y l IH]; simpl; intros Hs.
  - constructor; constructor.
  - inversion Hs as [|? ? Hs' Hy]; subst.
    destruct (leb a y) eqn:Hay.
    + constructor; [exact Hs|]. constructor; [apply leb_true; exact Hay|].
      rewrite Forall_forall in *. intros z Hz. specialize (Hy z Hz).
      apply leb_true in Hay. unfold key_le in *. lia.
    + constructor; [apply IH; exact Hs'|].
      rewrite Forall_forall in *. intros z Hz.
      apply insert_by_In in Hz. destruct Hz as [Hz|Hz].
      * subst z. apply leb_false. exact Hay.
      * apply Hy. exact Hz.
Qed.

Lemma ORDER_BY_key_sorted (l : list A) : StronglySorted key_le (ORDER_BY leb l).
Proof.
  induction l as [|a l IH]; simpl; [constructor|].
  apply insert_by_key_sorted. exact IH.
Qed.

(** In a sorted list the first rows come before the others. *)
Lemma sorted_prefix (k : nat) (l : list A) :
  StronglySorted key_le l ->
  forall x y, In x (firstn k l) -> In y (skipn k l) -> key x <= key y.
Proof.
  revert k. induction l as [|a l IH]; intros k Hs x y Hx Hy.
  - destruct k; simpl in Hx; contradiction.
  - destruct k; simpl in Hx, Hy; [contradiction|].
    inversion Hs as [|? ? Hs' Ha]; subst.
    destruct Hx as [Hx|Hx].
    + subst x. rewrite Forall_forall in Ha. apply Ha.
      apply (In_skipn_own k). exact Hy.
    + eapply IH; eassumption.
Qed.

(** ORDER BY ... LIMIT n returns rows of the table, sorted, at most n of
    them for n >= 0, every row for n < 0 or when fewer than n come back, and
    each row left out comes after every row returned. *)
Lemma ORDER_BY_LIMIT (n : Z) (rows : list A) :
  (forall x, In x (LIMIT n (ORDER_BY leb rows)) -> In x rows)
  /\ StronglySorted key_le (LIMIT n (ORDER_BY leb rows))
  /\ (0 <= n -> Z.of_nat (List.length (LIMIT n (ORDER_BY leb rows))) <= n)
  /\ (n < 0 \/ Z.of_nat (List.length (LIMIT n (ORDER_BY leb rows))) < n ->
      forall x, In x rows -> In x (LIMIT n (ORDER_BY leb rows)))
  /\ (forall x y, In x (LIMIT n (ORDER_BY leb rows)) -> In y rows ->
        In y (LIMIT n (ORDER_BY leb rows)) \/ key x <= key y).
Proof.
  pose proof (ORDER_BY_key_sorted rows) as Hs.
  split; [|split; [|split; [|split]]].
  - intros x Hx. apply LIMIT_In in Hx. apply ORDER_BY_In in Hx. exact Hx.
  - unfold LIMIT. destruct (n <? 0); [exact Hs|].
    generalize (Z.to_nat n). generalize dependent (ORDER_BY leb rows).
    intros l Hl k. revert k. induction l as [|a l IH]; intros k; destruct k;
      simpl; try constructor.
    + inversion Hl; subst. apply IH. assumption.
    + inversion Hl as [|? ? _ Ha]; subst. rewrite Forall_forall in *.
      intros z Hz. apply Ha. eapply firstn_In. exact Hz.
  - apply LIMIT_length.
  - intros Hcut x Hx. rewrite LIMIT_all by exact Hcut.
    apply ORDER_BY_In. exact Hx.
  - intros x y Hx Hy. unfold LIMIT in *. destruct (n <? 0).
    + left. apply ORDER_BY_In. exact Hy.
    + apply (ORDER_BY_In leb) in Hy.
      rewrite <- (firstn_skipn (Z.to_nat n) (ORDER_BY leb rows)) in Hy.
      apply in_app_or in Hy. destruct Hy as [Hy|Hy]; [left; exact Hy|].
      right. eapply sorted_prefix; eassumption.
Qed.

End OrderByKey.

Lemma StronglySorted_weaken {A} (R R' : A -> A -> Prop) (l : list A) :
  (forall a b, R a b -> R' a b) -> StronglySorted R l -> StronglySorted R' l.
Proof.
  intros HR Hs. induction Hs as [|a l Hs IH Ha]; constructor; [exact IH|].
  rewrite Forall_forall in *. intros x Hx. apply HR, Ha, Hx.
Qed.

Section OrderedReads.

Lemma timeout_order_true (a b : TimeoutRecord.t) :
  timeout_order a b = true -> TimeoutRecord.Time a <= TimeoutRecord.Time b.
Proof.
  unfold timeout_order. rewrite orb_true_iff, andb_true_iff, Z.ltb_lt, Z.eqb_eq. lia.
Qed.

Lemma timeout_order_false (a b : TimeoutRecord.t) :
  timeout_order a b = false -> TimeoutRecord.Time b <= TimeoutRecord.Time a.
Proof.
  unfold timeout_order. rewrite orb_false_iff, Z.ltb_ge. tauto.
Qed.

Lemma notification_order_true (a b : NotificationRecord.t) :
  notification_order a b = true ->
  NotificationRecord.Time a <= NotificationRecord.Time b.
Proof.
  unfold notification_order.
  rewrite orb_true_iff, andb_true_iff, Z.ltb_lt, Z.eqb_eq. lia.
Qed.

Lemma notification_order_false (a b : NotificationRecord.t) :
  notification_order a b = false ->
  NotificationRecord.Time b <= NotificationRecord.Time a.
Proof.
  unfold notification_order. rewrite orb_false_iff, Z.ltb_ge. tauto.
Qed.

(** X9. ReadTimeouts(N) changes nothing and returns timeouts of the table in
    ascending time, at most N for N >= 0 and all of them for N < 0 or when
    fewer than N come back; a timeout that is left out is not earlier than
    any that is returned: the result is the N earliest. *)
Theorem read_timeouts_earliest_first (tx : DB) (N : Z) :
  exists records,
    readTimeouts None tx N
    = Ok (tx, R_ReadTimeouts
                (QueryTimeoutsResult.mk (Z.of_nat (List.length records)) records))
    /\ (forall x, In x records -> In x (timeouts tx))
    /\ StronglySorted
         (fun a b => TimeoutRecord.Time a <= TimeoutRecord.Time b) records
    /\ (0 <= N -> Z.of_nat (List.length records) <= N)
    /\ (N < 0 \/ Z.of_nat (List.length records) < N ->
        forall x, In x (timeouts tx) -> In x records)
    /\ (forall x y, In x records -> In y (timeouts tx) ->
          In y records \/ TimeoutRecord.Time x <= TimeoutRecord.Time y).
Proof.
  exists (TIMEOUT_SELECT_STATEMENT N tx). split; [reflexivity|].
  exact (ORDER_BY_LIMIT _ TimeoutRecord.Time timeout_order
           timeout_order_true timeout_order_false N (timeouts tx)).
Qed.

(** X10. ReadNotifications(N) changes nothing and returns notifications of
    the table in ascending time, at most N for N >= 0; a notification that
    is left out is not due before any that is returned. *)
Theorem read_notifications_earliest_first (tx : DB) (N : Z) :
  exists records,
    readNotifications None tx N
    = Ok (tx, R_ReadNotifications
                (QueryNotificationsResult.mk (Z.of_nat (List.length records)) records))
    /\ (forall x, In x records -> In x (notifications tx))
    /\ StronglySorted
         (fun a b => NotificationRecord.Time a <= NotificationRecord.Time b) records
    /\ (0 <= N -> Z.of_nat (List.length records) <= N)
    /\ (N < 0 \/ Z.of_nat (List.length records) < N ->
        forall x, In x (notifications tx) -> In x records)
    /\ (forall x y, In x records -> In y (notifications tx) ->
          In y records \/ NotificationRecord.Time x <= NotificationRecord.Time y).
Proof.
  exists (NOTIFICATION_SELECT_STATEMENT N tx). split; [reflexivity|].
  exact (ORDER_BY_LIMIT _ NotificationRecord.Time notification_order
           notification_order_true notification_order_false N (notifications tx)).
Qed.

(** X11. ReadSubscriptions of a promise changes nothing and returns
    subscriptions of the table that are on this promise and, when a cursor is
    given, have sort_id below it, in descending sort_id, at most Limit for
    Limit >= 0; LastSortId is the sort_id of the last record (0 when there
    is none); if the limit did not cut the result, every such subscription
    is in it. *)
Theorem read_subscriptions_page (tx : DB) (PromiseId : string) (Limit : Z)
  (SortId : option Z) :
  exists records,
    readSubscriptions None tx PromiseId Limit SortId
    = Ok (tx, R_ReadSubscriptions
                (QuerySubscriptionsResult.mk (Z.of_nat (List.length records))
                   (last (map SubscriptionRecord.SortId records) 0) records))
    /\ (forall s, In s records ->
          In s (subscriptions tx)
          /\ SubscriptionRecord.PromiseId s = PromiseId
          /\ (forall c, SortId = Some c -> SubscriptionRecord.SortId s < c))
    /\ StronglySorted
         (fun a b => SubscriptionRecord.SortId b <= SubscriptionRecord.SortId a)
         records
    /\ (0 <= Limit -> Z.of_nat (List.length records) <= Limit)
    /\ (Limit < 0 \/ Z.of_nat (List.length records) < Limit ->
        forall s, In s (subscriptions tx) ->
          SubscriptionRecord.PromiseId s = PromiseId ->
          (forall c, SortId = Some c -> SubscriptionRecord.SortId s < c) ->
          In s records).
Proof.
  exists (SUBSCRIPTION_SELECT_ALL_STATEMENT SortId PromiseId Limit tx).
  split; [reflexivity|].
  unfold SUBSCRIPTION_SELECT_ALL_STATEMENT.
  set (where_ := fun r => before_cursor SortId (SubscriptionRecord.SortId r)
                          && String.eqb (SubscriptionRecord.PromiseId r) PromiseId).
  assert (forall s, where_ s = true <->
            SubscriptionRecord.PromiseId s = PromiseId
            /\ (forall c, SortId = Some c -> SubscriptionRecord.SortId s < c))
    as Hwhere.
  { intros s. unfold where_, before_cursor.
    rewrite andb_true_iff, String.eqb_eq. destruct SortId as [c|].
    - rewrite Z.ltb_lt. split.
      + intros [Hc Hp]. split; [exact Hp|]. intros c' Hc'. inversion Hc'; subst.
        exact Hc.
      + intros [Hp Hc]. split; [apply Hc; reflexivity | exact Hp].
    - split; [intros [_ Hp]; split; [exact Hp | discriminate] | tauto]. }
  destruct (ORDER_BY_LIMIT _ (fun s => - SubscriptionRecord.SortId s)
              (fun a b => SubscriptionRecord.SortId b <=? SubscriptionRecord.SortId a))
    with (n := Limit) (rows := filter where_ (subscriptions tx))
    as (Hin & Hsorted & Hlen & Hall & _).
  { intros a b Hab. apply Z.leb_le in Hab. lia. }
  { intros a b Hab. apply Z.leb_gt in Hab. lia. }
  split; [|split; [|split; [exact Hlen|]]].
  - intros s Hs. apply Hin in Hs. apply filter_In in Hs.
    destruct Hs as [Hs Hw]. apply Hwhere in Hw. tauto.
  - eapply StronglySorted_weaken; [|exact Hsorted].
    intros a b Hab. unfold key_le in Hab. lia.
  - intros Hcut s Hs Hp Hc. apply Hall; [exact Hcut|].
    apply filter_In. split; [exact Hs|]. apply Hwhere. tauto.
Qed.

End OrderedReads.

(** ** Inserting, finding and deleting by key *)

Section RoundTrips.
Context `{E : Env}.

Lemma set_timeouts_twice (db : DB) (ts : list TimeoutRecord.t) :
  set_timeouts (set_timeouts db ts) (timeouts db) = db.
Proof. destruct db; reflexivity. Qed.

(** X12. CreateTimeout of an id without timeout inserts it (rowsAffected = 1)
    and a DeleteTimeout of the id then deletes one row and gives back the
    database as it was; CreateTimeout of an id that has a timeout changes
    nothing, so the time already stored stays. *)
Theorem create_timeout_then_delete (tx : DB) (Id : string) (Time : Z) :
  0 <= Time ->
  ((forall r, In r (timeouts tx) -> TimeoutRecord.Id r <> Id) ->
   exists tx1,
     createTimeout None tx Id Time = Ok (tx1, R_CreateTimeout 1)
     /\ In (TimeoutRecord.mk Id Time) (timeouts tx1)
     /\ deleteTimeout None tx1 Id = Ok (tx, R_DeleteTimeout 1))
  /\ ((exists r, In r (timeouts tx) /\ TimeoutRecord.Id r = Id) ->
      createTimeout None tx Id Time = Ok (tx, R_CreateTimeout 0)).
Proof.
  intros Ht.
  assert (createTimeout None tx Id Time
          = (let '(tx', n) := TIMEOUT_INSERT_STATEMENT Id Time tx in
             Ok (tx', R_CreateTimeout n))) as Hrun.
  { unfold createTimeout, Assert.
    replace (0 <=? Time) with true by (symmetry; apply Z.leb_le; exact Ht).
    reflexivity. }
  rewrite Hrun. unfold TIMEOUT_INSERT_STATEMENT, INSERT_OR_NOTHING. split.
  - intros Habs.
    assert (forall r, In r (timeouts tx) ->
              String.eqb (TimeoutRecord.Id r) Id = false) as Hno.
    { intros r Hr. apply String.eqb_neq. apply Habs. exact Hr. }
    assert (existsb (fun r => String.eqb (TimeoutRecord.Id r) Id) (timeouts tx) = false)
      as Hex.
    { destruct (existsb _ (timeouts tx)) eqn:Hex; [|reflexivity].
      apply existsb_exists in Hex. destruct Hex as [r [Hr Heq]].
      rewrite (Hno r Hr) in Heq. discriminate. }
    rewrite Hex. eexists. split; [reflexivity|]. split.
    + simpl. apply in_or_app. right. left. reflexivity.
    + unfold deleteTimeout, TIMEOUT_DELETE_STATEMENT, DELETE. simpl.
      rewrite !filter_app. simpl. rewrite String.eqb_refl. simpl.
      rewrite (filter_none (fun r => String.eqb (TimeoutRecord.Id r) Id)) by exact Hno.
      rewrite filter_every by (intros r Hr; rewrite (Hno r Hr); reflexivity).
      rewrite app_nil_r. simpl. rewrite set_timeouts_twice. reflexivity.
  - intros [r [Hr Hid]].
    assert (existsb (fun r => String.eqb (TimeoutRecord.Id r) Id) (timeouts tx) = true)
      as Hex.
    { apply existsb_exists. exists r. split; [exact Hr|].
      apply String.eqb_eq. exact Hid. }
    rewrite Hex. destruct tx; reflexivity.
Qed.

Lemma sub_key_eqb (s : SubscriptionRecord.t) (id pid : string) :
  String.eqb (SubscriptionRecord.Id s) id
  && String.eqb (SubscriptionRecord.PromiseId s) pid = true
  <-> sub_key s = (id, pid).
Proof.
  unfold sub_key. rewrite andb_true_iff, !String.eqb_eq.
  split; [intros [-> ->]; reflexivity | intros H; inversion H; auto].
Qed.

(** X13. CreateSubscription with a key (id, promise id) that is free, while
    a rowid is left, inserts the subscription with the rowid taken as its
    sort_id (rowsAffected = 1) and sets the counter to it.  A
    ReadSubscription of the key returns it.  A second CreateSubscription of
    the key changes no row and reports rowsAffected = 0, but uses up the next
    rowid; when none is left it returns the engine's error.  A
    DeleteSubscription of the key deletes one row, after which the table has
    its old rows, the counter stays where the insert put it, and a
    ReadSubscription of the key returns none. *)
Theorem create_subscription_then_delete (tx : DB) (Id PromiseId Url : string)
  (policy : RetryPolicy.t) (pb : bytes) (CreatedOn : Z) :
  json_Marshal_RetryPolicy policy = Ok pb ->
  (forall s, In s (subscriptions tx) -> sub_key s <> (Id, PromiseId)) ->
  subscriptions_seq tx < MAX_ROWID ->
  (forall s, In s (subscriptions tx) -> SubscriptionRecord.SortId s < MAX_ROWID) ->
  exists sort_id tx1 tx2,
    next_rowid (subscriptions_seq tx)
               (map SubscriptionRecord.SortId (subscriptions tx))
    = Ok sort_id
    /\ subscriptions_seq tx < sort_id <= MAX_ROWID
    /\ (forall s, In s (subscriptions tx) -> SubscriptionRecord.SortId s < sort_id)
    /\ tx1 = mkDB (promises tx) (promises_seq tx) (timeouts tx)
               (subscriptions tx
                ++ [SubscriptionRecord.mk Id PromiseId Url (Some pb) CreatedOn
                      sort_id])
               sort_id (notifications tx)
    /\ createSubscription None tx Id PromiseId Url (Some policy) CreatedOn
       = Ok (tx1, R_CreateSubscription 1)
    /\ readSubscription None tx1 Id PromiseId
       = Ok (tx1, R_ReadSubscription
                    (QuerySubscriptionsResult.mk 1 0
                       [SubscriptionRecord.mk Id PromiseId Url (Some pb) CreatedOn 0]))
    /\ (forall Url' CreatedOn',
          (sort_id < MAX_ROWID ->
           createSubscription None tx1 Id PromiseId Url' (Some policy) CreatedOn'
           = Ok (mkDB (promises tx1) (promises_seq tx1) (timeouts tx1)
                      (subscriptions tx1) (sort_id + 1) (notifications tx1),
                 R_CreateSubscription 0))
          /\ (sort_id = MAX_ROWID ->
              createSubscription None tx1 Id PromiseId Url' (Some policy) CreatedOn'
              = Err SQLITE_FULL))
    /\ deleteSubscription None tx1 Id PromiseId = Ok (tx2, R_DeleteSubscription 1)
    /\ tx2 = mkDB (promises tx) (promises_seq tx) (timeouts tx) (subscriptions tx)
               sort_id (notifications tx)
    /\ readSubscription None tx2 Id PromiseId
       = Ok (tx2, R_ReadSubscription (QuerySubscriptionsResult.mk 0 0 [])).
Proof.
  intros Hm Hfree Hseq Hrows.
  assert (forall s, In s (subscriptions tx) ->
            String.eqb (SubscriptionRecord.Id s) Id
            && String.eqb (SubscriptionRecord.PromiseId s) PromiseId = false) as Hno.
  { intros s Hs.
    destruct (String.eqb (SubscriptionRecord.Id s) Id
              && String.eqb (SubscriptionRecord.PromiseId s) PromiseId) eqn:Hsame;
      [|reflexivity].
    apply sub_key_eqb in Hsame. exfalso. exact (Hfree s Hs Hsame). }
  assert (existsb (fun r => String.eqb (SubscriptionRecord.Id r) Id
                     && String.eqb (SubscriptionRecord.PromiseId r) PromiseId)
                  (subscriptions tx) = false) as Hex.
  { destruct (existsb _ (subscriptions tx)) eqn:Hex; [|reflexivity].
    apply existsb_exists in Hex. destruct Hex as [s [Hs Heq]].
    rewrite (Hno s Hs) in Heq. discriminate. }
  assert (filter (fun r => String.eqb (SubscriptionRecord.Id r) Id
                     && String.eqb (SubscriptionRecord.PromiseId r) PromiseId)
                 (subscriptions tx) = []) as Hnone
    by (apply filter_none; exact Hno).
  assert (filter (fun r => negb (String.eqb (SubscriptionRecord.Id r) Id
                                 && String.eqb (SubscriptionRecord.PromiseId r)
                                               PromiseId))
                 (subscriptions tx) = subscriptions tx)
    as Hevery
    by (apply filter_every; intros s Hs; rewrite (Hno s Hs); reflexivity).
  destruct (next_rowid_left (subscriptions_seq tx)
              (map SubscriptionRecord.SortId (subscriptions tx)) Hseq)
    as [sort_id Hid].
  { intros x Hx. apply in_map_iff in Hx. destruct Hx as [r [<- Hr]].
    exact (Hrows r Hr). }
  pose proof (next_rowid_Ok _ _ _ Hid) as (Habove & Hmax & Hfresh).
  assert (forall s, In s (subscriptions tx) -> SubscriptionRecord.SortId s < sort_id)
    as Hbelow.
  { intros r Hr. apply Hfresh. apply in_map. exact Hr. }
  exists sort_id. do 2 eexists.
  split; [exact Hid|]. split; [lia|]. split; [exact Hbelow|].
  split; [reflexivity|]. split; [|split; [|split; [|split; [|split]]]].
  - unfold createSubscription. simpl. rewrite Hm. simpl.
    unfold SUBSCRIPTION_INSERT_STATEMENT, INSERT_OR_NOTHING.
    rewrite Hid. simpl. rewrite Hex. reflexivity.
  - unfold readSubscription, SUBSCRIPTION_SELECT_STATEMENT.
    cbn [driver bind subscriptions].
    rewrite filter_app, Hnone. simpl. rewrite !String.eqb_refl.
    reflexivity.
  - intros Url' CreatedOn'.
    assert (forall x,
              In x (map SubscriptionRecord.SortId
                      (subscriptions tx
                       ++ [SubscriptionRecord.mk Id PromiseId Url (Some pb)
                             CreatedOn sort_id])) ->
              x <= sort_id) as Hall.
    { intros x Hx. apply in_map_iff in Hx. destruct Hx as [r [<- Hr]].
      apply in_app_or in Hr. destruct Hr as [Hr|[<-|[]]].
      - specialize (Hbelow r Hr). lia.
      - simpl. lia. }
    assert (In sort_id
              (map SubscriptionRecord.SortId
                 (subscriptions tx
                  ++ [SubscriptionRecord.mk Id PromiseId Url (Some pb)
                        CreatedOn sort_id]))) as Hlast.
    { rewrite map_app. apply in_or_app. right. left. reflexivity. }
    unfold createSubscription. simpl. rewrite Hm. simpl.
    unfold SUBSCRIPTION_INSERT_STATEMENT, INSERT_OR_NOTHING.
    cbn [subscriptions subscriptions_seq promises promises_seq timeouts
         notifications].
    split.
    + intros Hlt.
      destruct (next_rowid_left sort_id _ Hlt
                  (fun x Hx => Z.le_lt_trans _ _ _ (Hall x Hx) Hlt)) as [v Hv].
      pose proof (next_rowid_after _ _ _ Hv Hlast Hall) as ->.
      rewrite Hv. simpl.
      rewrite existsb_app. simpl. rewrite !String.eqb_refl.
      simpl. rewrite orb_true_r. reflexivity.
    + intros Heq.
      assert (next_rowid sort_id
                (map SubscriptionRecord.SortId
                   (subscriptions tx
                    ++ [SubscriptionRecord.mk Id PromiseId Url (Some pb)
                          CreatedOn sort_id]))
              = Err SQLITE_FULL) as ->; [|reflexivity].
      apply next_rowid_full. left. lia.
  - unfold deleteSubscription, SUBSCRIPTION_DELETE_STATEMENT, DELETE.
    cbn [driver bind subscriptions].
    rewrite !filter_app, Hnone, Hevery. simpl.
    rewrite !String.eqb_refl. reflexivity.
  - unfold set_subscriptions. simpl. rewrite app_nil_r. reflexivity.
  - unfold readSubscription, SUBSCRIPTION_SELECT_STATEMENT.
    cbn [driver bind subscriptions set_subscriptions].
    rewrite app_nil_r, Hnone. reflexivity.
Qed.

End RoundTrips.

Lemma create_timeout_then_delete_witness :
  0 <= 100
  /\ (exists tx1,
        createTimeout None empty_db "p1" 100 = Ok (tx1, R_CreateTimeout 1)
        /\ deleteTimeout None tx1 "p1" = Ok (empty_db, R_DeleteTimeout 1))
  /\ createTimeout None db_pending "p1" 7 = Ok (db_pending, R_CreateTimeout 0).
Proof.
  assert (0 <= 100) as Ht by lia. split; [exact Ht|].
  destruct (create_timeout_then_delete empty_db "p1" 100 Ht) as [Hnew _].
  assert (0 <= 7) as Ht' by lia.
  destruct (create_timeout_then_delete db_pending "p1" 7 Ht') as [_ Hold].
  split.
  - destruct Hnew as (tx1 & Hc & _ & Hd); [intros r []|].
    exists tx1. split; assumption.
  - apply Hold. eexists. split; [left; reflexivity | reflexivity].
Defined.

Lemma create_subscription_then_delete_witness :
  json_Marshal_RetryPolicy (Env := sample_env) (RetryPolicy.mk 1 3) = Ok []
  /\ (forall s, In s (subscriptions db_pending) -> sub_key s <> ("s2", "p1")%string)
  /\ subscriptions_seq db_pending < MAX_ROWID
  /\ createSubscription (E := sample_env) None db_pending "s2" "p1" "http://y"
       (Some (RetryPolicy.mk 1 3)) 2
     = Ok (mkDB (promises db_pending) (promises_seq db_pending)
                (timeouts db_pending)
                (subscriptions db_pending
                 ++ [SubscriptionRecord.mk "s2" "p1" "http://y" (Some []) 2 2])
                2 (notifications db_pending),
           R_CreateSubscription 1).
Proof.
  assert (json_Marshal_RetryPolicy (Env := sample_env) (RetryPolicy.mk 1 3) = Ok [])
    as Hm by reflexivity.
  assert (forall s, In s (subscriptions db_pending) ->
                    sub_key s <> ("s2", "p1")%string)
    as Hfree by (intros s [<-|[]]; discriminate).
  assert (subscriptions_seq db_pending < MAX_ROWID) as Hseq by reflexivity.
  assert (forall s, In s (subscriptions db_pending) ->
                    SubscriptionRecord.SortId s < MAX_ROWID)
    as Hrows by (intros s [<-|[]]; reflexivity).
  split; [exact Hm|]. split; [exact Hfree|]. split; [exact Hseq|].
  destruct (create_subscription_then_delete (E := sample_env) db_pending "s2" "p1"
              "http://y" (RetryPolicy.mk 1 3) [] 2 Hm Hfree Hseq Hrows)
    as (sort_id & tx1 & tx2 & Hid & _ & _ & Htx1 & Hc & _).
  assert (sort_id = 2) as Hs by (vm_compute in Hid; inversion Hid; reflexivity).
  rewrite Hc, Htx1, Hs. reflexivity.
Defined.

(** ** The state mask *)

Section Mask.
Context `{E : Env}.

Lemma land_fold_lor (st : Z) (states : list promise.State) :
  forall mask,
    Z.land st (fold_left (fun mask state => Z.lor mask state) states mask) = 0
    <-> Z.land st mask = 0 /\ forall s, In s states -> Z.land st s = 0.
Proof.
  induction states as [|a states IH]; intros mask; simpl.
  - intuition.
  - rewrite IH, Z.land_lor_distr_r, Z.lor_eq_0_iff. intuition (subst; auto).
Qed.

Lemma all_zero_or_some (st : Z) (states : list promise.State) :
  (forall s, In s states -> Z.land st s = 0)
  \/ (exists s, In s states /\ Z.land st s <> 0).
Proof.
  induction states as [|a states IH]; [left; intros s []|].
  destruct (Z.eq_dec (Z.land st a) 0) as [Ha|Ha].
  - destruct IH as [Hall|[s [Hs Hne]]].
    + left. intros s [Hs|Hs]; [subst; exact Ha | apply Hall; exact Hs].
    + right. exists s. split; [right; exact Hs | exact Hne].
  - right. exists a. split; [left; reflexivity | exact Ha].
Qed.

Lemma state_mask_shares_bit (st : Z) (states : list promise.State) :
  Z.land st (state_mask states) <> 0
  <-> exists s, In s states /\ Z.land st s <> 0.
Proof.
  unfold state_mask. rewrite land_fold_lor, Z.land_0_r. split.
  - intros Hne. destruct (all_zero_or_some st states) as [Hall|Hsome];
      [|exact Hsome].
    exfalso. apply Hne. split; [reflexivity | exact Hall].
  - intros [s [Hs Hsne]] [_ Hall]. exact (Hsne (Hall s Hs)).
Qed.

(** X14. A promise passes the state filter of a search exactly when its state
    has a bit in common with one of the listed states; so every record that
    SearchPromises returns does, and a search with an empty list of states
    returns nothing. *)
Theorem search_state_filter (tx tx' : DB) (Q : string) (states : list promise.State)
  (Limit : Z) (SortId : option Z) (q : QueryPromisesResult.t) :
  searchPromises None tx Q (Some states) Limit SortId = Ok (tx', R_SearchPromises q) ->
  (forall st, Z.land st (state_mask states) <> 0
              <-> exists s, In s states /\ Z.land st s <> 0)
  /\ (forall r, In r (QueryPromisesResult.Records q) ->
        exists s, In s states /\ Z.land (PromiseRecord.State r) s <> 0)
  /\ (states = [] -> QueryPromisesResult.Records q = []
                     /\ QueryPromisesResult.RowsReturned q = 0).
Proof.
  intros H.
  pose proof (fun st => state_mask_shares_bit st states) as Hmask.
  assert (forall r, In r (QueryPromisesResult.Records q) ->
            Z.land (PromiseRecord.State r) (state_mask states) <> 0) as Hrec.
  { unfold searchPromises in H. invert_cmd. simpl. intros r Hr.
    unfold PROMISE_SEARCH_STATEMENT in Hr.
    apply LIMIT_In, ORDER_BY_In, filter_In in Hr. destruct Hr as [_ Hw].
    apply search_where_spec in Hw. tauto. }
  split; [exact Hmask|]. split.
  - intros r Hr. apply Hmask. apply Hrec. exact Hr.
  - intros Hnil. subst states.
    assert (QueryPromisesResult.Records q = []) as Hempty.
    { destruct (QueryPromisesResult.Records q) as [|r l] eqn:Hq; [reflexivity|].
      exfalso. apply (Hrec r (or_introl eq_refl)). apply Z.land_0_r. }
    split; [exact Hempty|].
    unfold searchPromises in H. invert_cmd. simpl in *. rewrite Hempty. reflexivity.
Qed.

End Mask.

Lemma search_state_filter_witness :
  exists q,
    searchPromises (E := sample_env) None db_three "*" (Some [promise.Resolved]) 10 None
    = Ok (db_three, R_SearchPromises q)
    /\ forall r, In r (QueryPromisesResult.Records q) ->
         exists s, In s [promise.Resolved] /\ Z.land (PromiseRecord.State r) s <> 0.
Proof.
  eexists. split; [reflexivity|].
  exact (proj1 (proj2 (search_state_filter (E := sample_env) db_three db_three "*"
                         [promise.Resolved] 10 None _ eq_refl))).
Defined.

(** ** Notifications *)

Section NotificationRows.
Context `{E : Env}.

Lemma filter_key_le_one {R K} (key : R -> K) (k : K) (where_ : R -> bool)
  (rows : list R) :
  (forall r, where_ r = true -> key r = k) ->
  NoDup (map key rows) ->
  (List.length (filter where_ rows) <= 1)%nat.
Proof.
  intros Hk. induction rows as [|a rows IH]; simpl; intros Hnd; [lia|].
  inversion Hnd as [|? ? Ha Hnd']; subst.
  destruct (where_ a) eqn:Hwa; [|apply IH; exact Hnd'].
  simpl. rewrite filter_none; [simpl; lia|].
  intros x Hx. destruct (where_ x) eqn:Hwx; [|reflexivity].
  exfalso. apply Ha. rewrite (Hk a Hwa), <- (Hk x Hwx). apply in_map. exact Hx.
Qed.

Lemma notif_key_eqb (n : NotificationRecord.t) (id pid : string) :
  String.eqb (NotificationRecord.Id n) id
  && String.eqb (NotificationRecord.PromiseId n) pid = true
  <-> notif_key n = (id, pid).
Proof.
  unfold notif_key. rewrite andb_true_iff, !String.eqb_eq.
  split; [intros [-> ->]; reflexivity | intros H; inversion H; auto].
Qed.

(** X15. UpdateNotification sets time and attempt of the notification with
    the given key and of no other: with the key unique, rowsAffected is 1 if
    the table has it and 0 otherwise, its url and retry policy are kept, and
    every other notification stays as it is. *)
Theorem update_notification_by_key (tx : DB) (Id PromiseId : string)
  (Time Attempt : Z) :
  wf tx ->
  exists tx' n,
    updateNotification None tx Id PromiseId Time Attempt
    = Ok (tx', R_UpdateNotification n)
    /\ (n = 0 \/ n = 1)
    /\ (n = 1 <-> exists m, In m (notifications tx) /\ notif_key m = (Id, PromiseId))
    /\ List.length (notifications tx') = List.length (notifications tx)
    /\ (forall m, In m (notifications tx) -> notif_key m <> (Id, PromiseId) ->
          In m (notifications tx'))
    /\ (forall m, In m (notifications tx) -> notif_key m = (Id, PromiseId) ->
          In (NotificationRecord.mk Id PromiseId (NotificationRecord.Url m)
                (NotificationRecord.RetryPolicy m) Time Attempt)
             (notifications tx'))
    /\ promises tx' = promises tx /\ subscriptions tx' = subscriptions tx.
Proof.
  intros Hwf.
  unfold updateNotification, NOTIFICATION_UPDATE_STATEMENT, UPDATE. simpl.
  do 2 eexists. split; [reflexivity|]. simpl.
  set (where_ := fun r => String.eqb (NotificationRecord.Id r) Id
                          && String.eqb (NotificationRecord.PromiseId r) PromiseId).
  pose proof (filter_key_le_one notif_key (Id, PromiseId) where_ (notifications tx))
    as Hle.
  assert (List.length (filter where_ (notifications tx)) <= 1)%nat as Hone.
  { apply Hle; [|exact (wf_notification_key _ Hwf)].
    intros r Hr. apply notif_key_eqb. exact Hr. }
  split; [lia|]. split; [|split; [apply length_map|split; [|split]]].
  - split.
    + intros Hn. destruct (filter where_ (notifications tx)) as [|m l] eqn:Hf;
        [simpl in Hn; lia|].
      assert (In m (filter where_ (notifications tx))) as Hm
        by (rewrite Hf; left; reflexivity).
      apply filter_In in Hm. destruct Hm as [Hm Hw].
      exists m. split; [exact Hm | apply notif_key_eqb; exact Hw].
    + intros [m [Hm Hk]].
      assert (In m (filter where_ (notifications tx))) as Hin
        by (apply filter_In; split; [exact Hm | apply notif_key_eqb; exact Hk]).
      destruct (filter where_ (notifications tx)) as [|x l]; [contradiction|].
      simpl in *. lia.
  - intros m Hm Hk. apply in_map_iff. exists m. split; [|exact Hm].
    destruct (where_ m) eqn:Hw.
    + exfalso. apply Hk. apply notif_key_eqb. exact Hw.
    + unfold where_ in Hw. rewrite Hw. reflexivity.
  - intros m Hm Hk. apply in_map_iff. exists m. split; [|exact Hm].
    assert (where_ m = true) as Hw by (apply notif_key_eqb; exact Hk).
    unfold where_ in Hw. rewrite Hw.
    unfold notif_key in Hk. inversion Hk as [[H1 H2]]. reflexivity.
  - split; reflexivity.
Qed.

Lemma insert_notifications_count (news : list NotificationRecord.t) :
  forall acc : list NotificationRecord.t * Z,
    Z.of_nat (List.length (fst (fold_left insert_notification news acc)))
    = Z.of_nat (List.length (fst acc))
      + (snd (fold_left insert_notification news acc) - snd acc)
    /\ snd acc <= snd (fold_left insert_notification news acc)
       <= snd acc + Z.of_nat (List.length news).
Proof.
  induction news as [|n news IH]; intros acc; simpl; [lia|].
  specialize (IH (insert_notification acc n)).
  destruct (insert_notification_rows acc n) as [[_ Hstep]|[_ Hstep]];
    rewrite Hstep in *; simpl in *; [lia|].
  rewrite length_app in IH. simpl in IH. lia.
Qed.

(** X16. CreateNotifications(p, t) with t >= 0 goes through and only adds
    rows to notifications: rowsAffected is the number of rows added, it is
    at most the number of subscriptions of p, every old notification stays,
    and the other tables are as before. *)
Theorem create_notifications_adds_rows (tx : DB) (PromiseId : string) (Time : Z) :
  0 <= Time ->
  exists tx' n,
    createNotifications None tx PromiseId Time = Ok (tx', R_CreateNotifications n)
    /\ Z.of_nat (List.length (notifications tx'))
       = Z.of_nat (List.length (notifications tx)) + n
    /\ 0 <= n
       <= Z.of_nat (List.length
            (filter (fun s => String.eqb (SubscriptionRecord.PromiseId s) PromiseId)
                    (subscriptions tx)))
    /\ (forall m, In m (notifications tx) -> In m (notifications tx'))
    /\ promises tx' = promises tx /\ subscriptions tx' = subscriptions tx
    /\ timeouts tx' = timeouts tx.
Proof.
  intros Ht. unfold createNotifications, Assert.
  replace (0 <=? Time) with true by (symmetry; apply Z.leb_le; exact Ht).
  simpl. unfold NOTIFICATION_INSERT_STATEMENT.
  set (news := map (notification_of Time)
                   (filter (fun s => String.eqb (SubscriptionRecord.PromiseId s) PromiseId)
                           (subscriptions tx))).
  pose proof (insert_notifications_count news (notifications tx, 0)) as [Hlen Hn].
  pose proof (insert_notifications_keeps news (notifications tx, 0)) as Hkeep.
  unfold insert_notifications.
  destruct (fold_left insert_notification news (notifications tx, 0)) as [rows n].
  simpl in *. do 2 eexists. split; [reflexivity|]. simpl.
  unfold news in Hn. rewrite length_map in Hn.
  repeat split; try lia; try reflexivity. exact Hkeep.
Qed.

End NotificationRows.

Lemma update_notification_by_key_witness :
  wf db_stale
  /\ exists tx',
       updateNotification None db_stale "s1" "p1" 20 2
       = Ok (tx', R_UpdateNotification 1)
       /\ notifications tx'
          = [NotificationRecord.mk "s1" "p1" "http://x" (Some []) 20 2].
Proof.
  assert (wf db_stale) as Hwf by prove_wf.
  split; [exact Hwf|].
  destruct (update_notification_by_key db_stale "s1" "p1" 20 2 Hwf)
    as (tx' & n & Hrun & _).
  exists tx'. split; [|inversion Hrun; reflexivity].
  rewrite Hrun. inversion Hrun. reflexivity.
Defined.

Lemma create_notifications_adds_rows_witness :
  0 <= 10
  /\ exists tx',
       createNotifications None db_pending "p1" 10 = Ok (tx', R_CreateNotifications 1)
       /\ List.length (notifications tx') = 1%nat.
Proof.
  assert (0 <= 10) as Ht by lia. split; [exact Ht|].
  destruct (create_notifications_adds_rows db_pending "p1" 10 Ht)
    as (tx' & n & Hrun & _).
  exists tx'. split; [|inversion Hrun; reflexivity].
  rewrite Hrun. inversion Hrun. reflexivity.
Defined.

(** ** Transactions that only read *)

Section ReadOnly.
Context `{E : Env}.

Lemma performCommand_read (fault : option Error) (tx tx' : DB) (command : Command)
  (result : Result) :
  is_read command = true ->
  performCommand fault tx command = Ok (tx', result) -> tx' = tx.
Proof.
  intros Hread H.
  destruct command; try discriminate; simpl in H;
    unfold readPromise, searchPromises, readTimeouts, readSubscription,
           readSubscriptions, readNotifications in H;
    repeat (apply bind_Ok in H; destruct H as [? [_ H]]);
    inversion H; reflexivity.
Qed.

Lemma performTransaction_read (d : Driver) (i : nat) (commands : list Command) :
  forall (j : nat) (tx tx' : DB) (results : list Result),
    forallb is_read commands = true ->
    performTransaction d i j tx commands = Ok (tx', results) -> tx' = tx.
Proof.
  induction commands as [|c commands IH]; intros j tx tx' results Hread H;
    simpl in H, Hread.
  - inversion H; reflexivity.
  - apply andb_true_iff in Hread. destruct Hread as [Hc Hrest].
    invert_bind H. destruct a as [tx1 r1]. invert_bind H. destruct a as [tx2 r2].
    inversion H; subst.
    apply (performCommand_read _ _ _ _ _ Hc) in Ha. subst tx1.
    eapply IH; eassumption.
Qed.

(** X17. An Execute whose transactions hold only read commands (ReadPromise,
    SearchPromises, ReadTimeouts, ReadSubscription, ReadSubscriptions,
    ReadNotifications) leaves the database as it is, whatever it returns and
    whatever the driver does. *)
Theorem execute_reads_change_nothing (d : Driver) (db : DB)
  (transactions : list Transaction.t) :
  forallb (fun t => forallb is_read (Transaction.Commands t)) transactions = true ->
  fst (Execute d db transactions) = db.
Proof.
  intros Hread.
  destruct (Execute d db transactions) as [db' out] eqn:Hex.
  apply Execute_commits_or_keeps in Hex.
  destruct Hex as [(results & _ & _ & _ & _ & Hrun & _)|[-> _]]; [|reflexivity].
  simpl. revert Hread Hrun. generalize 0%nat as i. revert db' results.
  induction transactions as [|t ts IH]; intros db' results i Hread Hrun;
    simpl in Hrun, Hread.
  - inversion Hrun; reflexivity.
  - apply andb_true_iff in Hread. destruct Hread as [Ht Hts].
    invert_bind Hrun. invert_bind Hrun. destruct a0 as [tx1 r1].
    invert_bind Hrun. destruct a0 as [tx2 r2]. inversion Hrun; subst.
    apply (performTransaction_read _ _ _ _ _ _ _ Ht) in Ha0. subst tx1.
    eapply IH; eassumption.
Qed.

End ReadOnly.

Lemma execute_reads_change_nothing_witness :
  forallb (fun t => forallb is_read (Transaction.Commands t))
          [Transaction.mk [ReadPromise "p1"; ReadTimeouts 5];
           Transaction.mk [SearchPromises "*" (Some [promise.Pending]) 3 None]]
  = true
  /\ fst (Execute (E := sample_env) failing_driver db_pending
            [Transaction.mk [ReadPromise "p1"; ReadTimeouts 5];
             Transaction.mk [SearchPromises "*" (Some [promise.Pending]) 3 None]])
     = db_pending.
Proof.
  assert (forallb (fun t => forallb is_read (Transaction.Commands t))
            [Transaction.mk [ReadPromise "p1"; ReadTimeouts 5];
             Transaction.mk [SearchPromises "*" (Some [promise.Pending]) 3 None]]
          = true) as Hread by reflexivity.
  split; [exact Hread|].
  exact (execute_reads_change_nothing (E := sample_env) failing_driver db_pending
           _ Hread).
Defined.

(** ** What the coroutines respond and submit *)

Section CoroutineOutcomes.
Context `{E : Env}.

Lemma ReadPromise_read_outcomes (req : Request) (id : string) (now : Z)
  (completion : option Completion.t) (err : option Error) :
  all_submissions (fun s => s = read_submission id)
    (coroutines.ReadPromise_read req now completion err)
  /\ all_responses (error_or_response read_response)
       (coroutines.ReadPromise_read req now completion err).
Proof.
  unfold coroutines.ReadPromise_read.
  destruct err as [e|]; [split; exact I|].
  destruct (first_result completion) as [res| |]; simpl; try (split; exact I).
  destruct res; simpl; try (split; exact I).
  unfold Assert.
  destruct ((QueryPromisesResult.RowsReturned r =? 0)
            || (QueryPromisesResult.RowsReturned r =? 1)); simpl;
    [|split; exact I].
  destruct (QueryPromisesResult.RowsReturned r =? 0); simpl; [split; exact I|].
  destruct (first_record r) as [record| |]; simpl; try (split; exact I).
  destruct (PromiseRecord_Promise record) as [p| |]; simpl; try (split; exact I).
  destruct ((Promise.State p =? promise.Pending) && (Promise.Timeout p <=? now));
    simpl; [|split; exact I].
  split; (split; [exact I|]); intros [e|]; exact I.
Qed.

(** X18. ReadPromise submits nothing but the read of the promise it was
    asked for, however it is resumed; and every call of its response
    callback passes either an error alone or a response alone, the response
    being 404 without a promise or 200 with a promise. *)
Theorem read_promise_only_reads (r : ReadPromiseRequest.t) :
  all_submissions (fun s => s = read_submission (ReadPromiseRequest.Id r))
    (coroutines.ReadPromise (Req_ReadPromise r))
  /\ all_responses (error_or_response read_response)
       (coroutines.ReadPromise (Req_ReadPromise r))
  /\ forallb is_read
       (match read_submission (ReadPromiseRequest.Id r) with
        | StoreSubmission t => Transaction.Commands t
        end) = true.
Proof.
  split; [|split; [|reflexivity]]; simpl.
  - split; [reflexivity|]. intros now completion err.
    apply ReadPromise_read_outcomes.
  - intros now completion err.
    apply (ReadPromise_read_outcomes (Req_ReadPromise r) (ReadPromiseRequest.Id r)).
Qed.

(** X19. After the read RejectPromise submits a transaction only for a
    promise that it found pending and whose timeout is after the time of the
    callback: the transaction is the rejection with completedOn equal to
    that time, and the callback given is the one that awaits the update. *)
Theorem reject_promise_write_guard (r : RejectPromiseRequest.t) (now : Z)
  (completion : option Completion.t) (err : option Error) (s : Submission)
  (callback : Z -> option Completion.t -> option Error -> Effect) :
  coroutines.RejectPromise_read r now completion err = Yield s callback ->
  err = None
  /\ exists result record p,
       first_result completion = Ok (R_ReadPromise result)
       /\ QueryPromisesResult.RowsReturned result = 1
       /\ first_record result = Ok record
       /\ PromiseRecord_Promise record = Ok p
       /\ Promise.State p = promise.Pending
       /\ now < Promise.Timeout p
       /\ s = coroutines.reject_submission r now
       /\ callback = coroutines.RejectPromise_updated r p now.
Proof.
  unfold coroutines.RejectPromise_read. intros H.
  destruct err as [e|]; [discriminate|]. split; [reflexivity|].
  destruct (first_result completion) as [res| |] eqn:Hres; simpl in H;
    try discriminate.
  destruct res; simpl in H; try discriminate.
  unfold Assert in H.
  destruct (QueryPromisesResult.RowsReturned r0 =? 0) eqn:H0; simpl in H;
    [discriminate|].
  destruct (QueryPromisesResult.RowsReturned r0 =? 1) eqn:H1; simpl in H;
    [|discriminate].
  destruct (first_record r0) as [record| |] eqn:Hrec; simpl in H;
    try discriminate.
  destruct (PromiseRecord_Promise record) as [p| |] eqn:Hp; simpl in H;
    try discriminate.
  destruct (Promise.State p =? promise.Pending) eqn:Hs; simpl in H;
    [|discriminate].
  destruct (Promise.Timeout p <=? now) eqn:Ht; simpl in H; [discriminate|].
  inversion H; subst.
  exists r0, record, p. apply Z.eqb_eq in H1, Hs. apply Z.leb_gt in Ht.
  repeat split; try reflexivity; assumption.
Qed.

(** X20. RejectPromise answers 201 Created only from the callback of the
    update, and only when that was resumed without error on a result with
    rowsAffected = 1; then the promise sent is the rejected one.  The
    callback of the read never answers Created.  And every call of the
    response callback passes an error alone or a response alone: 404 without
    a promise, or 200, 201 or 403 with a promise. *)
Theorem reject_promise_created_means_updated (r : RejectPromiseRequest.t)
  (p : Promise.t) (completedOn now : Z) (completion : option Completion.t)
  (err : option Error) :
  (forall x e,
     coroutines.RejectPromise_updated r p completedOn now completion err
     = Respond (Some (Res_RejectPromise ResponseCreated x)) e ->
     err = None /\ e = None
     /\ first_result completion = Ok (R_UpdatePromise 1)
     /\ x = Some (coroutines.rejected_promise r p completedOn))
  /\ (forall x e,
        coroutines.RejectPromise_read r now completion err
        <> Respond (Some (Res_RejectPromise ResponseCreated x)) e)
  /\ all_responses (error_or_response reject_response)
       (coroutines.RejectPromise (Req_RejectPromise r)).
Proof.
  split; [|split].
  - unfold coroutines.RejectPromise_updated. intros x e H.
    destruct err as [e0|]; [discriminate|].
    destruct (first_result completion) as [res| |]; simpl in H; try discriminate.
    destruct res; simpl in H; try discriminate.
    unfold Assert in H.
    destruct (Z.eqb_spec RowsAffected 1) as [H1|H1].
    + subst RowsAffected. simpl in H. inversion H; subst.
      repeat split; reflexivity.
    + rewrite orb_false_r in H.
      destruct (RowsAffected =? 0); simpl in H; discriminate.
  - unfold coroutines.RejectPromise_read, coroutines.completed_status.
    intros x e H.
    destruct err as [e0|]; [discriminate|].
    destruct (first_result completion) as [res| |]; simpl in H; try discriminate.
    destruct res; simpl in H; try discriminate.
    unfold Assert in H.
    destruct ((QueryPromisesResult.RowsReturned r0 =? 0)
              || (QueryPromisesResult.RowsReturned r0 =? 1)); simpl in H;
      [|discriminate].
    destruct (QueryPromisesResult.RowsReturned r0 =? 0); simpl in H;
      [discriminate|].
    destruct (first_record r0) as [record| |]; simpl in H; try discriminate.
    destruct (PromiseRecord_Promise record) as [p0| |]; simpl in H;
      try discriminate.
    destruct (Promise.State p0 =? promise.Pending); simpl in H.
    + destruct (Promise.Timeout p0 <=? now); discriminate.
    + destruct (negb _ && _); discriminate.
  - simpl. intros now0 completion0 err0.
    unfold coroutines.RejectPromise_read, coroutines.completed_status.
    destruct err0 as [e0|]; [exact I|].
    destruct (first_result completion0) as [res| |]; simpl; try exact I.
    destruct res; simpl; try exact I.
    unfold Assert.
    destruct ((QueryPromisesResult.RowsReturned r0 =? 0)
              || (QueryPromisesResult.RowsReturned r0 =? 1)); simpl; [|exact I].
    destruct (QueryPromisesResult.RowsReturned r0 =? 0); simpl; [exact I|].
    destruct (first_record r0) as [record| |]; simpl; try exact I.
    destruct (PromiseRecord_Promise record) as [p0| |]; simpl; try exact I.
    destruct (Promise.State p0 =? promise.Pending); simpl.
    + destruct (Promise.Timeout p0 <=? now0); simpl.
      * split; [exact I|]. intros [e1|]; exact I.
      * intros now1 completion1 err1.
        unfold coroutines.RejectPromise_updated.
        destruct err1 as [e1|]; [exact I|].
        destruct (first_result completion1) as [res1| |]; simpl; try exact I.
        destruct res1; simpl; try exact I.
        unfold Assert.
        destruct ((RowsAffected =? 0) || (RowsAffected =? 1)); simpl; [|exact I].
        destruct (RowsAffected =? 1); exact I.
    + destruct (negb _ && _); exact I.
Qed.

End CoroutineOutcomes.

Lemma reject_promise_write_guard_witness :
  @None Error = None
  /\ exists result record p,
       first_result (read_completion pending_p1) = Ok (R_ReadPromise result)
       /\ QueryPromisesResult.RowsReturned result = 1
       /\ first_record result = Ok record
       /\ PromiseRecord_Promise (Env := sample_env) record = Ok p
       /\ Promise.State p = promise.Pending
       /\ 10 < Promise.Timeout p
       /\ coroutines.reject_submission (coroutines.default_value reject_p1) 10
          = coroutines.reject_submission (coroutines.default_value reject_p1) 10
       /\ coroutines.RejectPromise_updated
            (coroutines.default_value reject_p1) (promise_of pending_p1) 10
          = coroutines.RejectPromise_updated (coroutines.default_value reject_p1)
              p 10.
Proof.
  apply (reject_promise_write_guard (E := sample_env)
           (coroutines.default_value reject_p1) 10 (read_completion pending_p1)
           None).
  reflexivity.
Defined.
